(** * The native WAM machines of hak_wambook: L0, L1, L3 and the L2 JIT
      variant

    A shallow embedding of [l0machine.c], [l1machine.c], [l3machine.c] and
    of the engine primitives of [l2jitmachine.cpp].  The L2 and L3 machines
    keep their whole data area (registers, heap, environment stack and
    push-down list) in one array of 32-bit cells, the L0 and L1 machines a
    heap and a separate unification stack; every C function that touches
    the global machine state becomes a function in a small state-and-error
    monad over the corresponding record. *)

From Stdlib Require Import ZArith Lia Bool List.
From stdpp Require Import base list.

Local Open Scope Z_scope.

(** ** Machine integers *)

(** [jint] and [jbyte] are the 32-bit and 8-bit signed integers of the JNI
    headers.  A value is kept as a [Z]; the two functions below are the
    conversions that wrap a mathematical integer into the type. *)
Definition jint (z : Z) : Z := (z + 2147483648) mod 4294967296 - 2147483648.
Definition jbyte (z : Z) : Z := (z + 128) mod 256 - 128.

Definition add32 (a b : Z) : Z := jint (a + b).

Definition jint_range (z : Z) : Prop := -2147483648 <= z < 2147483648.

(** ** Constants shared by the machines *)

Definition PUT_STRUC : Z := 0x01.
Definition SET_VAR : Z := 0x02.
Definition SET_VAL : Z := 0x03.
Definition GET_STRUC : Z := 0x04.
Definition UNIFY_VAR : Z := 0x05.
Definition UNIFY_VAL : Z := 0x06.
Definition PUT_VAR : Z := 0x07.
Definition PUT_VAL : Z := 0x08.
Definition GET_VAR : Z := 0x09.
Definition GET_VAL : Z := 0x0a.
Definition CALL : Z := 0x0b.
Definition PROCEED : Z := 0x0c.
Definition ALLOCATE : Z := 0x0d.
Definition DEALLOCATE : Z := 0x0e.

Definition REG_ADDR : Z := 0x01.
Definition STACK_ADDR : Z := 0x02.

Definition REF : Z := 0x01.
Definition STR : Z := 0x02.

Definition REG_SIZE : Z := 10.
Definition HEAP_SIZE : Z := 10000.
Definition STACK_SIZE : Z := 10000.
Definition PDL_SIZE : Z := 1000.
Definition TOP : Z := REG_SIZE + HEAP_SIZE + STACK_SIZE + PDL_SIZE.

(** ** Tagged cells *)

(** [(jbyte)((tmp & 0xFF000000) >> 24)] *)
Definition cell_tag (tmp : Z) : Z := jbyte (Z.shiftr (Z.land tmp 0xFF000000) 24).

(** [tmp & 0x00FFFFFF] *)
Definition cell_val (tmp : Z) : Z := Z.land tmp 0x00FFFFFF.

(** [(tag << 24) | (a & 0xFFFFFF)] *)
Definition mk_cell (tag a : Z) : Z := Z.lor (Z.shiftl tag 24) (Z.land a 0xFFFFFF).

(** ** Arrays of cells and byte code *)

(** An access outside the array is undefined behaviour in C; [load] and
    [store] answer [None] there. *)
Definition load (d : list Z) (a : Z) : option Z :=
  if a <? 0 then None else d !! Z.to_nat a.

Definition store (d : list Z) (a v : Z) : option (list Z) :=
  if (0 <=? a) && (a <? Z.of_nat (length d))
  then Some (<[Z.to_nat a := v]> d) else None.

(** [code[i]] read as a [jbyte]. *)
Definition code_byte (code : list Z) (i : Z) : option Z :=
  match load code i with
  | Some b => Some (jbyte b)
  | None => None
  end.

(** [*(jint* )(code + i)]: four bytes of the buffer read as one word, least
    significant byte first (the byte order of the x86 hosts the library is
    built for). *)
Definition code_jint (code : list Z) (i : Z) : option Z :=
  match load code i, load code (i + 1), load code (i + 2), load code (i + 3) with
  | Some b0, Some b1, Some b2, Some b3 =>
      Some (jint (b0 mod 256 + 256 * (b1 mod 256) + 65536 * (b2 mod 256)
                  + 16777216 * (b3 mod 256)))
  | _, _, _, _ => None
  end.

(** ** Outcomes *)

(** A run of machine code either returns, or performs an access outside an
    array ([Undef]), or is still inside a loop when the fuel given to the
    model is used up ([Spin]). *)
Inductive outcome (A : Type) : Type :=
| Ret (a : A)
| Undef
| Spin.
Arguments Ret {A} a.
Arguments Undef {A}.
Arguments Spin {A}.

(** A computation over a machine state of type [S]. *)
Definition M (S A : Type) : Type := S -> outcome (A * S).

Definition ret {S A : Type} (a : A) : M S A := fun s => Ret (a, s).

Definition bind {S A B : Type} (m : M S A) (k : A -> M S B) : M S B :=
  fun s =>
    match m s with
    | Ret (a, s') => k a s'
    | Undef => Undef
    | Spin => Spin
    end.

Definition undef {S A : Type} : M S A := fun _ => Undef.
Definition spin {S A : Type} : M S A := fun _ => Spin.

Definition gets {S A : Type} (f : S -> A) : M S A := fun s => Ret (f s, s).
Definition modify {S : Type} (f : S -> S) : M S unit := fun s => Ret (tt, f s).

(** Lift a partial array operation: [None] is undefined behaviour. *)
Definition defined {S A : Type} (o : option A) : M S A :=
  match o with
  | Some a => ret a
  | None => undef
  end.

(** The value a run returns, if it returns. *)
Definition returned {A S : Type} (o : outcome (A * S)) : option A :=
  match o with
  | Ret (a, _) => Some a
  | Undef | Spin => None
  end.

Declare Scope machine_scope.
Delimit Scope machine_scope with machine.
Notation "x <- m ;; k" := (bind m (fun x => k))
  (at level 100, m at next level, right associativity) : machine_scope.
Notation "m ;; k" := (bind m (fun _ => k))
  (at level 100, right associativity) : machine_scope.
Local Open Scope machine_scope.

(** ** The dereference loop

    The three machines contain the same loop, over their own cell array.
    [addr], [derefTag] and [derefVal] are the locals of the C function; one
    unit of fuel pays for one run of the loop body. *)
Fixpoint deref_loop (fuel : nat) (d : list Z) (addr derefTag derefVal : Z)
  : outcome (Z * Z * Z) :=
  if derefTag =? REF then
    match fuel with
    | O => Spin
    | S fuel' =>
        match load d derefVal with
        | None => Undef
        | Some tmp =>
            if derefVal =? cell_val tmp
            then Ret (derefVal, cell_tag tmp, derefVal)
            else deref_loop fuel' d derefVal (cell_tag tmp) (cell_val tmp)
        end
    end
  else Ret (addr, derefTag, derefVal).

(** The function up to the end of the loop: final [addr], [derefTag] and
    [derefVal]. *)
Definition deref_walk (fuel : nat) (d : list Z) (a : Z) : outcome (Z * Z * Z) :=
  match load d a with
  | None => Undef
  | Some tmp => deref_loop fuel d a (cell_tag tmp) (cell_val tmp)
  end.

(** * The L3 machine ([l3machine.c]) *)

Module L3.

Record l3MachineState : Type := mkState {
  ip : Z;
  cp : Z;
  data : list Z;
  hp : Z;
  sp : Z;
  up : Z;
  ep : Z;
  esp : Z;
  writeMode : bool;
  derefTag : Z;
  derefVal : Z
}.

Definition set_data (d : list Z) (s : l3MachineState) : l3MachineState :=
  mkState (ip s) (cp s) d (hp s) (sp s) (up s) (ep s) (esp s)
          (writeMode s) (derefTag s) (derefVal s).

Definition set_up (u : Z) (s : l3MachineState) : l3MachineState :=
  mkState (ip s) (cp s) (data s) (hp s) (sp s) u (ep s) (esp s)
          (writeMode s) (derefTag s) (derefVal s).

Definition set_deref (t v : Z) (s : l3MachineState) : l3MachineState :=
  mkState (ip s) (cp s) (data s) (hp s) (sp s) (up s) (ep s) (esp s)
          (writeMode s) t v.

Abbreviation Mach := (M l3MachineState).

(** [l3state->data[a]] as an rvalue and as an lvalue. *)
Definition rd (a : Z) : Mach Z := fun s => defined (load (data s) a) s.

Definition wr (a v : Z) : Mach unit :=
  fun s =>
    match store (data s) a v with
    | Some d' => Ret (tt, set_data d' s)
    | None => Undef
    end.

Definition l3uPush (val : Z) : Mach unit :=
  u <- gets up ;;
  modify (set_up (add32 u (-1))) ;;
  wr (add32 u (-1)) val.

Definition l3uPop : Mach Z :=
  u <- gets up ;;
  v <- rd u ;;
  modify (set_up (add32 u 1)) ;;
  ret v.

Definition l3uClear : Mach unit := modify (set_up TOP).

Definition l3uEmpty : Mach bool := u <- gets up ;; ret (TOP <=? u).

Definition l3deref (fuel : nat) (a : Z) : Mach Z :=
  fun s =>
    match deref_walk fuel (data s) a with
    | Ret (addr, t, v) => Ret (addr, set_deref t v s)
    | Undef => Undef
    | Spin => Spin
    end.

(** The [for] loop of [l3unify]: [k] iterations are left, [i] is the loop
    variable. *)
Fixpoint push_args (k : nat) (i v1 v2 : Z) : Mach unit :=
  match k with
  | O => ret tt
  | S k' =>
      l3uPush (add32 v1 i) ;;
      l3uPush (add32 v2 i) ;;
      push_args k' (add32 i 1) v1 v2
  end.

(** The [if (d1 != d2)] block of the loop body of [l3unify], on the two
    dereferenced addresses with their tags and values; the result is the
    new value of [fail]. *)
Definition unify_pair (d1 t1 v1 d2 t2 v2 : Z) : Mach bool :=
  if negb (d1 =? d2) then
    if t1 =? REF then
      wr d1 (mk_cell REF d2) ;; ret false
    else if t2 =? REF then
      wr d2 (mk_cell REF d1) ;; ret false
    else
      f_n1 <- rd v1 ;;
      f_n2 <- rd v2 ;;
      let n1 := jbyte (Z.land f_n1 0xFF) in
      if f_n1 =? f_n2 then
        push_args (Z.to_nat n1) 1 v1 v2 ;; ret false
      else ret true
  else ret false.

(** One run of the body of the [while] loop of [l3unify]. *)
Definition l3unify_body (fuel : nat) : Mach bool :=
  a <- l3uPop ;;
  d1 <- l3deref fuel a ;;
  t1 <- gets derefTag ;;
  v1 <- gets derefVal ;;
  b <- l3uPop ;;
  d2 <- l3deref fuel b ;;
  t2 <- gets derefTag ;;
  v2 <- gets derefVal ;;
  unify_pair d1 t1 v1 d2 t2 v2.

Fixpoint l3unify_loop (fuel n : nat) (fail : bool) {struct n} : Mach bool :=
  empty <- l3uEmpty ;;
  if negb empty && negb fail then
    match n with
    | O => spin
    | S n' => fail' <- l3unify_body fuel ;; l3unify_loop fuel n' fail'
    end
  else ret fail.

Definition l3unify (fuel : nat) (a1 a2 : Z) : Mach bool :=
  l3uPush a1 ;;
  l3uPush a2 ;;
  fail <- l3unify_loop fuel fuel false ;;
  ret (negb fail).

(** [nativeReset]: a fresh state record and a fresh, cleared data area. *)
Definition nativeReset : l3MachineState :=
  {| ip := 0;
     cp := 0;
     data := replicate (Z.to_nat TOP) 0;
     hp := REG_SIZE;
     sp := REG_SIZE;
     up := TOP;
     ep := REG_SIZE + HEAP_SIZE;
     esp := REG_SIZE + HEAP_SIZE;
     writeMode := false;
     derefTag := 0;
     derefVal := 0 |}.

(** The local variables of [execute] that live across instructions. *)
Record locals : Type := mkLocals {
  l_hp : Z;
  l_sp : Z;
  l_writeMode : bool;
  l_ip : Z;
  l_cp : Z;
  l_ep : Z;
  l_esp : Z;
  l_failed : bool
}.

Definition set_l_ip (i : Z) (l : locals) : locals :=
  mkLocals (l_hp l) (l_sp l) (l_writeMode l) i (l_cp l) (l_ep l) (l_esp l)
           (l_failed l).

Definition set_l_hp (h : Z) (l : locals) : locals :=
  mkLocals h (l_sp l) (l_writeMode l) (l_ip l) (l_cp l) (l_ep l) (l_esp l)
           (l_failed l).

Definition set_l_sp (x : Z) (l : locals) : locals :=
  mkLocals (l_hp l) x (l_writeMode l) (l_ip l) (l_cp l) (l_ep l) (l_esp l)
           (l_failed l).

Definition set_l_writeMode (b : bool) (l : locals) : locals :=
  mkLocals (l_hp l) (l_sp l) b (l_ip l) (l_cp l) (l_ep l) (l_esp l)
           (l_failed l).

Definition set_l_cp (c : Z) (l : locals) : locals :=
  mkLocals (l_hp l) (l_sp l) (l_writeMode l) (l_ip l) c (l_ep l) (l_esp l)
           (l_failed l).

Definition set_l_env (e t : Z) (l : locals) : locals :=
  mkLocals (l_hp l) (l_sp l) (l_writeMode l) (l_ip l) (l_cp l) e t
           (l_failed l).

Definition set_l_failed (b : bool) (l : locals) : locals :=
  mkLocals (l_hp l) (l_sp l) (l_writeMode l) (l_ip l) (l_cp l) (l_ep l)
           (l_esp l) b.

(** [code[ip + k]] and [*(jint* )(code + ip + k)]. *)
Definition fetch (code : list Z) (l : locals) (k : Z) : Mach Z :=
  defined (code_byte code (add32 (l_ip l) k)).

Definition fetch_jint (code : list Z) (l : locals) (k : Z) : Mach Z :=
  defined (code_jint code (l_ip l + k)).

(** [(jint)code[ip + 2] + ((mode == STACK_ADDR) ? (ep + 3) : 0)] *)
Definition operand (code : list Z) (l : locals) : Mach Z :=
  mode <- fetch code l 1 ;;
  x <- fetch code l 2 ;;
  ret (add32 x (if mode =? STACK_ADDR then add32 (l_ep l) 3 else 0)).

Definition do_PUT_STRUC (code : list Z) (l : locals) : Mach locals :=
  xi <- operand code l ;;
  f_n <- fetch_jint code l 3 ;;
  let hp := l_hp l in
  wr hp (mk_cell STR (add32 hp 1)) ;;
  wr (add32 hp 1) f_n ;;
  c <- rd hp ;;
  wr xi c ;;
  ret (set_l_ip (add32 (l_ip l) 7) (set_l_hp (add32 hp 2) l)).

Definition do_SET_VAR (code : list Z) (l : locals) : Mach locals :=
  xi <- operand code l ;;
  let hp := l_hp l in
  wr hp (mk_cell REF hp) ;;
  c <- rd hp ;;
  wr xi c ;;
  ret (set_l_ip (add32 (l_ip l) 3) (set_l_hp (add32 hp 1) l)).

Definition do_SET_VAL (code : list Z) (l : locals) : Mach locals :=
  xi <- operand code l ;;
  let hp := l_hp l in
  c <- rd xi ;;
  wr hp c ;;
  ret (set_l_ip (add32 (l_ip l) 3) (set_l_hp (add32 hp 1) l)).

Definition do_GET_STRUC (fuel : nat) (code : list Z) (l : locals) : Mach locals :=
  xi <- operand code l ;;
  f_n <- fetch_jint code l 3 ;;
  addr <- l3deref fuel xi ;;
  tag <- gets derefTag ;;
  a <- gets derefVal ;;
  let hp := l_hp l in
  l' <- (if tag =? REF then
           wr hp (mk_cell STR (add32 hp 1)) ;;
           wr (add32 hp 1) f_n ;;
           wr addr (mk_cell REF hp) ;;
           ret (set_l_writeMode true (set_l_hp (add32 hp 2) l))
         else if tag =? STR then
           c <- rd a ;;
           if c =? f_n
           then ret (set_l_writeMode false (set_l_sp (add32 a 1) l))
           else ret (set_l_failed true l)
         else ret l) ;;
  ret (set_l_ip (add32 (l_ip l') 7) l').

Definition do_UNIFY_VAR (code : list Z) (l : locals) : Mach locals :=
  xi <- operand code l ;;
  let hp := l_hp l in
  l' <- (if negb (l_writeMode l) then
           c <- rd (l_sp l) ;;
           wr xi c ;;
           ret l
         else
           wr hp (mk_cell REF hp) ;;
           c <- rd hp ;;
           wr xi c ;;
           ret (set_l_hp (add32 hp 1) l)) ;;
  ret (set_l_ip (add32 (l_ip l') 3) (set_l_sp (add32 (l_sp l') 1) l')).

Definition do_UNIFY_VAL (fuel : nat) (code : list Z) (l : locals) : Mach locals :=
  xi <- operand code l ;;
  let hp := l_hp l in
  l' <- (if negb (l_writeMode l) then
           ok <- l3unify fuel xi (l_sp l) ;;
           ret (set_l_failed (negb ok) l)
         else
           c <- rd xi ;;
           wr hp c ;;
           ret (set_l_hp (add32 hp 1) l)) ;;
  ret (set_l_ip (add32 (l_ip l') 3) (set_l_sp (add32 (l_sp l') 1) l')).

Definition do_PUT_VAR (code : list Z) (l : locals) : Mach locals :=
  xi <- operand code l ;;
  ai <- fetch code l 3 ;;
  let hp := l_hp l in
  wr hp (mk_cell REF hp) ;;
  c <- rd hp ;;
  wr xi c ;;
  c' <- rd hp ;;
  wr ai c' ;;
  ret (set_l_ip (add32 (l_ip l) 4) (set_l_hp (add32 hp 1) l)).

Definition do_PUT_VAL (code : list Z) (l : locals) : Mach locals :=
  xi <- operand code l ;;
  ai <- fetch code l 3 ;;
  c <- rd xi ;;
  wr ai c ;;
  ret (set_l_ip (add32 (l_ip l) 4) l).

Definition do_GET_VAR (code : list Z) (l : locals) : Mach locals :=
  xi <- operand code l ;;
  ai <- fetch code l 3 ;;
  c <- rd ai ;;
  wr xi c ;;
  ret (set_l_ip (add32 (l_ip l) 4) l).

Definition do_GET_VAL (fuel : nat) (code : list Z) (l : locals) : Mach locals :=
  xi <- operand code l ;;
  ai <- fetch code l 3 ;;
  ok <- l3unify fuel xi ai ;;
  ret (set_l_ip (add32 (l_ip l) 4) (set_l_failed (negb ok) l)).

Definition do_CALL (code : list Z) (l : locals) : Mach locals :=
  p_n <- fetch_jint code l 1 ;;
  if p_n =? -1 then ret (set_l_failed true l)
  else ret (set_l_ip p_n (set_l_cp (add32 (l_ip l) 5) l)).

Definition do_PROCEED (l : locals) : Mach locals :=
  ret (set_l_ip (l_cp l) l).

Definition do_ALLOCATE (code : list Z) (l : locals) : Mach locals :=
  n <- fetch code l 1 ;;
  let esp := l_esp l in
  wr esp (l_ep l) ;;
  wr (add32 esp 1) (l_cp l) ;;
  wr (add32 esp 2) n ;;
  ret (set_l_ip (add32 (l_ip l) 2) (set_l_env esp (add32 (add32 esp n) 3) l)).

Definition do_DEALLOCATE (l : locals) : Mach locals :=
  let esp := l_ep l in
  ep <- rd (l_ep l) ;;
  i <- rd (add32 ep 1) ;;
  ret (set_l_ip i (set_l_env ep esp l)).

(** The body of the decode loop of [execute]: fetch the opcode at [ip] and
    [switch] on it. *)
Definition l3step (fuel : nat) (code : list Z) (l : locals) : Mach locals :=
  instruction <- defined (code_byte code (l_ip l)) ;;
  if instruction =? PUT_STRUC then do_PUT_STRUC code l
  else if instruction =? SET_VAR then do_SET_VAR code l
  else if instruction =? SET_VAL then do_SET_VAL code l
  else if instruction =? GET_STRUC then do_GET_STRUC fuel code l
  else if instruction =? UNIFY_VAR then do_UNIFY_VAR code l
  else if instruction =? UNIFY_VAL then do_UNIFY_VAL fuel code l
  else if instruction =? PUT_VAR then do_PUT_VAR code l
  else if instruction =? PUT_VAL then do_PUT_VAL code l
  else if instruction =? GET_VAR then do_GET_VAR code l
  else if instruction =? GET_VAL then do_GET_VAL fuel code l
  else if instruction =? CALL then do_CALL code l
  else if instruction =? PROCEED then do_PROCEED l
  else if instruction =? ALLOCATE then do_ALLOCATE code l
  else if instruction =? DEALLOCATE then do_DEALLOCATE l
  else ret (set_l_failed true l).

(** [while (failed == JNI_FALSE && (ip < length))] *)
Fixpoint execute_loop (fuel n : nat) (code : list Z) (l : locals) {struct n}
  : Mach locals :=
  if negb (l_failed l) && (l_ip l <? Z.of_nat (length code)) then
    match n with
    | O => spin
    | S n' => l' <- l3step fuel code l ;; execute_loop fuel n' code l'
    end
  else ret l.

(** The write-back at the end of [execute]. *)
Definition preserve (l : locals) (s : l3MachineState) : l3MachineState :=
  mkState (ip s) (l_cp l) (data s) (l_hp l) (l_sp l) (up s) (l_ep l) (l_esp l)
          (l_writeMode l) (derefTag s) (derefVal s).

Definition execute (fuel : nat) (code : list Z) (offset : Z) : Mach bool :=
  s0 <- gets (fun s => s) ;;
  let l := mkLocals (hp s0) (sp s0) (writeMode s0) offset
                    (Z.of_nat (length code)) (ep s0) (esp s0) false in
  l3uClear ;;
  l' <- execute_loop fuel fuel code l ;;
  modify (preserve l') ;;
  ret (negb (l_failed l')).

(** The inspection entry points. *)
Definition deref (fuel : nat) (a : Z) : Mach Z := l3deref fuel a.

Definition derefStack (fuel : nat) (a : Z) : Mach Z :=
  e <- gets ep ;;
  l3deref fuel (add32 (add32 a e) 3).

Definition getDerefTag : Mach Z := gets derefTag.
Definition getDerefVal : Mach Z := gets derefVal.
Definition getHeap (addr : Z) : Mach Z := rd addr.

(** The state in which [execute] leaves a freshly reset machine after
    running [code] from offset 0 (the reset state itself if it does not
    return within the fuel). *)
Definition state_after (fuel : nat) (code : list Z) : l3MachineState :=
  match execute fuel code 0 nativeReset with
  | Ret (_, s) => s
  | Undef | Spin => nativeReset
  end.

(** [PUT_STRUC X1, f/0; SET_VAR X0]: X1 holds a structure and X0 refers to
    a free variable on the heap. *)
Definition example_code : list Z :=
  [0x01; 0x01; 0x01; 0x00; 0x05; 0x00; 0x00;
   0x02; 0x01; 0x00].

Definition example_state : l3MachineState := state_after 4 example_code.

(** A machine with a data area of four cells only: cell 0 refers to the
    free variable in cell 1, cell 2 is a structure whose functor cell is
    cell 3. *)
Definition small_state : l3MachineState :=
  {| ip := 0; cp := 0;
     data := [mk_cell REF 1; mk_cell REF 1; mk_cell STR 3; 0x500];
     hp := 4; sp := 4; up := 4; ep := 0; esp := 0;
     writeMode := false; derefTag := 0; derefVal := 0 |}.

(** A data area of six cells in which X0 (cell 0) refers to the free
    variable in cell 1 and the heap is unused from cell 2 on;
    [at_GET_STRUC] are the locals of [execute] in front of an instruction
    at offset 0. *)
Definition free_X0 : l3MachineState :=
  {| ip := 0; cp := 0;
     data := [mk_cell REF 1; mk_cell REF 1; 0; 0; 0; 0];
     hp := 2; sp := 2; up := 6; ep := 6; esp := 6;
     writeMode := false; derefTag := 0; derefVal := 0 |}.

Definition at_GET_STRUC : locals :=
  {| l_hp := 2; l_sp := 2; l_writeMode := false; l_ip := 0; l_cp := 7;
     l_ep := 6; l_esp := 6; l_failed := false |}.

(** [GET_STRUC X0, f/0] for the functor word [0x500]. *)
Definition GET_STRUC_X0 : list Z :=
  [0x04; 0x01; 0x00; 0x00; 0x05; 0x00; 0x00].

(** The decode loop, from locals [l] and state [s], gets to the head of the
    loop with locals [l'] and state [s'] after [k] instructions. *)
Inductive loop_reaches (fuel : nat) (code : list Z)
  : nat -> locals -> l3MachineState -> locals -> l3MachineState -> Prop :=
| reaches_here l s : loop_reaches fuel code 0 l s l s
| reaches_step k l s l1 s1 l' s' :
    l_failed l = false ->
    l_ip l < Z.of_nat (length code) ->
    l3step fuel code l s = Ret (l1, s1) ->
    loop_reaches fuel code k l1 s1 l' s' ->
    loop_reaches fuel code (S k) l s l' s'.

(** The locals with which [execute] enters its decode loop. *)
Definition entry_locals (code : list Z) (offset : Z) (s : l3MachineState)
  : locals :=
  mkLocals (hp s) (sp s) (writeMode s) offset (Z.of_nat (length code))
           (ep s) (esp s) false.

(** [PUT_STRUC X1, f/0; SET_VAR X0; GET_VAL X0, A1; PUT_VAL X0, A1]: the
    unification binds the variable made by [SET_VAR] to register X1, where
    the structure cell is, and [PUT_VAL] then copies the REF in X0 over
    X1. *)
Definition cyclic_code : list Z :=
  [0x01; 0x01; 0x01; 0x00; 0x05; 0x00; 0x00;
   0x02; 0x01; 0x00;
   0x0a; 0x01; 0x00; 0x01;
   0x08; 0x01; 0x00; 0x01].

Definition cyclic_state : l3MachineState := state_after 8 cyclic_code.

(** Builds [p(c, a)] in X0 and [p(c, b)] in X1 and unifies the two with
    [GET_VAL X0, A1]: the second arguments, compared first, differ while the
    pair of first arguments is still on the PDL. *)
Definition mismatch_code : list Z :=
  [0x01; 0x01; 0x02; 0x00; 0x01; 0x00; 0x00;
   0x01; 0x01; 0x03; 0x00; 0x02; 0x00; 0x00;
   0x01; 0x01; 0x04; 0x00; 0x03; 0x00; 0x00;
   0x01; 0x01; 0x00; 0x02; 0x04; 0x00; 0x00;
   0x03; 0x01; 0x04;
   0x03; 0x01; 0x02;
   0x01; 0x01; 0x01; 0x02; 0x04; 0x00; 0x00;
   0x03; 0x01; 0x04;
   0x03; 0x01; 0x03;
   0x0a; 0x01; 0x00; 0x01].

(** The query code of [p(Z, h(Z, W), f(W))]: [PUT_STRUC X3, h/2; SET_VAR X2;
    SET_VAR X5; PUT_STRUC X4, f/1; SET_VAL X5; PUT_STRUC X1, p/3; SET_VAL X2;
    SET_VAL X3; SET_VAL X4], with the functor words [0x102], [0x201] and
    [0x303]. *)
Definition build_code : list Z :=
  [0x01; 0x01; 0x03; 0x02; 0x01; 0x00; 0x00;
   0x02; 0x01; 0x02;
   0x02; 0x01; 0x05;
   0x01; 0x01; 0x04; 0x01; 0x02; 0x00; 0x00;
   0x03; 0x01; 0x05;
   0x01; 0x01; 0x01; 0x03; 0x03; 0x00; 0x00;
   0x03; 0x01; 0x02;
   0x03; 0x01; 0x03;
   0x03; 0x01; 0x04].

(** [ALLOCATE 0; CALL 8; DEALLOCATE] with the body [PROCEED] at offset 8. *)
Definition call_code : list Z :=
  [0x0d; 0x00; 0x0b; 0x08; 0x00; 0x00; 0x00; 0x0e; 0x0c].

(** [PUT_STRUC X0, a/0; GET_STRUC X0, b/0]. *)
Definition clash_code : list Z :=
  [0x01; 0x01; 0x00; 0x00; 0x01; 0x00; 0x00;
   0x04; 0x01; 0x00; 0x00; 0x02; 0x00; 0x00].

(** Two nested environment frames in a data area of six cells: the outer
    frame at 0 was entered with continuation 99, the inner frame at 3 with
    continuation 7; [cp] has since been set to 50 by a later [CALL]. *)
Definition nested_frames : l3MachineState :=
  {| ip := 0; cp := 0;
     data := [0; 99; 0; 0; 7; 0];
     hp := 0; sp := 0; up := 6; ep := 0; esp := 0;
     writeMode := false; derefTag := 0; derefVal := 0 |}.

Definition at_outer_frame : locals :=
  {| l_hp := 0; l_sp := 0; l_writeMode := false; l_ip := 0; l_cp := 50;
     l_ep := 0; l_esp := 3; l_failed := false |}.

Definition in_inner_frame : locals :=
  {| l_hp := 0; l_sp := 0; l_writeMode := false; l_ip := 0; l_cp := 50;
     l_ep := 3; l_esp := 6; l_failed := false |}.

(** The four cells of [small_state] at the bottom of a data area of [TOP]
    cells, with an empty PDL. *)
Definition wide_state : l3MachineState :=
  {| ip := 0; cp := 0;
     data := data small_state ++ replicate (Z.to_nat TOP - 4) 0;
     hp := 4; sp := 4; up := TOP;
     ep := REG_SIZE + HEAP_SIZE; esp := REG_SIZE + HEAP_SIZE;
     writeMode := false; derefTag := 0; derefVal := 0 |}.

(** [PUT_STRUC X0, a/0; PUT_STRUC X1, b/0], with the functor words [0x100]
    and [0x200]: two different constants in the first two registers. *)
Definition atoms_code : list Z :=
  [0x01; 0x01; 0x00; 0x00; 0x01; 0x00; 0x00;
   0x01; 0x01; 0x01; 0x00; 0x02; 0x00; 0x00].

Definition atoms_state : l3MachineState := state_after 4 atoms_code.

(** [PUT_STRUC X2, a/0; PUT_STRUC X3, b/0; PUT_STRUC X0, p/n; SET_VAL X2]
    ([n] times) [; PUT_STRUC X1, p/n; SET_VAL X3] ([n] times): the terms
    [p(a, ..., a)] and [p(b, ..., b)] with [n] arguments each in X0 and X1,
    for an arity byte [n]; the functor words are [0x100], [0x200] and
    [0x400 + n]. *)
Definition build_structures (n : Z) : list Z :=
  [0x01; 0x01; 0x02; 0x00; 0x01; 0x00; 0x00;
   0x01; 0x01; 0x03; 0x00; 0x02; 0x00; 0x00;
   0x01; 0x01; 0x00; n; 0x04; 0x00; 0x00]
  ++ concat (replicate (Z.to_nat n) [0x03; 0x01; 0x02])
  ++ [0x01; 0x01; 0x01; n; 0x04; 0x00; 0x00]
  ++ concat (replicate (Z.to_nat n) [0x03; 0x01; 0x03]).

(** The same program followed by [GET_VAL X0, A1], which unifies the two
    terms. *)
Definition unify_structures (n : Z) : list Z :=
  build_structures n ++ [0x0a; 0x01; 0x00; 0x01].

(** The two constants again, in a data area of six cells only: cells 0 and
    1 are the structure cells, cells 2 and 3 their functor words, and the
    last two cells are left for the PDL. *)
Definition two_atoms : l3MachineState :=
  {| ip := 0; cp := 0;
     data := [mk_cell STR 2; mk_cell STR 3; 0x100; 0x200; 0; 0];
     hp := 4; sp := 4; up := 6; ep := 0; esp := 0;
     writeMode := false; derefTag := 0; derefVal := 0 |}.

End L3.

(** * The engine primitives and inspection entries of the L2 JIT machine
      ([l2jitmachine.cpp]) *)

Module L2.

Record l2jitMachineState : Type := mkState {
  heapBasePtr : list Z;
  hp : Z;
  sp : Z;
  up : Z;
  ep : Z;
  esp : Z;
  wm : Z
}.

(** The machine: the state vector behind the global [l2state] pointer and
    the two globals [derefTag] and [derefVal]. *)
Record machine : Type := mkMachine {
  l2state : l2jitMachineState;
  derefTag : Z;
  derefVal : Z
}.

Abbreviation Mach := (M machine).

(** [l2jitderef]: the walk of the other machines; its two stores to the
    pseudo-registers are commented out in the source, so the function only
    reads the heap and returns [addr]. *)
Definition l2jitderef (fuel : nat) (a : Z) : Mach Z :=
  fun m =>
    match deref_walk fuel (heapBasePtr (l2state m)) a with
    | Ret (addr, _, _) => Ret (addr, m)
    | Undef => Undef
    | Spin => Spin
    end.

(** The exported [deref] and [derefStack]: call [l2jitderef], then read the
    cell at the returned address into the globals. *)
Definition publish (addr : Z) : Mach Z :=
  fun m =>
    match load (heapBasePtr (l2state m)) addr with
    | Some heapCell =>
        Ret (addr, mkMachine (l2state m) (cell_tag heapCell) (cell_val heapCell))
    | None => Undef
    end.

Definition deref (fuel : nat) (a : Z) : Mach Z :=
  addr <- l2jitderef fuel a ;;
  publish addr.

Definition derefStack (fuel : nat) (a : Z) : Mach Z :=
  e <- gets (fun m => ep (l2state m)) ;;
  addr <- l2jitderef fuel (add32 (add32 a e) 2) ;;
  publish addr.

Definition getDerefTag : Mach Z := gets derefTag.
Definition getDerefVal : Mach Z := gets derefVal.

Definition getHeap (addr : Z) : Mach Z :=
  fun m => defined (load (heapBasePtr (l2state m)) addr) m.

(** *** The unification primitives

    [l2jitUPush], [l2jitUPop], [l2jitUClear], [l2jitUEmpty] and
    [l2jitunify] work on the state vector they are handed; the PDL lies at
    the top of the same cell array, as on the L3 machine. *)
Definition set_heap (h : list Z) (m : machine) : machine :=
  let st := l2state m in
  mkMachine (mkState h (hp st) (sp st) (up st) (ep st) (esp st) (wm st))
            (derefTag m) (derefVal m).

Definition set_up (u : Z) (m : machine) : machine :=
  let st := l2state m in
  mkMachine (mkState (heapBasePtr st) (hp st) (sp st) u (ep st) (esp st) (wm st))
            (derefTag m) (derefVal m).

(** [l2state->heapBasePtr[a]] as an rvalue and as an lvalue. *)
Definition rd (a : Z) : Mach Z :=
  fun m => defined (load (heapBasePtr (l2state m)) a) m.

Definition wr (a v : Z) : Mach unit :=
  fun m =>
    match store (heapBasePtr (l2state m)) a v with
    | Some h' => Ret (tt, set_heap h' m)
    | None => Undef
    end.

Definition l2jitUPush (val : Z) : Mach unit :=
  u <- gets (fun m => up (l2state m)) ;;
  modify (set_up (add32 u (-1))) ;;
  wr (add32 u (-1)) val.

Definition l2jitUPop : Mach Z :=
  u <- gets (fun m => up (l2state m)) ;;
  v <- rd u ;;
  modify (set_up (add32 u 1)) ;;
  ret v.

Definition l2jitUClear : Mach unit := modify (set_up TOP).

Definition l2jitUEmpty : Mach bool :=
  u <- gets (fun m => up (l2state m)) ;; ret (TOP <=? u).

(** The [for] loop of [l2jitunify]. *)
Fixpoint push_args (k : nat) (i v1 v2 : Z) : Mach unit :=
  match k with
  | O => ret tt
  | S k' =>
      l2jitUPush (add32 v1 i) ;;
      l2jitUPush (add32 v2 i) ;;
      push_args k' (add32 i 1) v1 v2
  end.

(** One run of the body of the [while] loop of [l2jitunify]: the tag and
    the value of each endpoint are read from the cell at the dereferenced
    address. *)
Definition l2jitunify_body (fuel : nat) : Mach bool :=
  a <- l2jitUPop ;;
  d1 <- l2jitderef fuel a ;;
  tmp1 <- rd d1 ;;
  b <- l2jitUPop ;;
  d2 <- l2jitderef fuel b ;;
  tmp2 <- rd d2 ;;
  let t1 := cell_tag tmp1 in
  let v1 := cell_val tmp1 in
  let t2 := cell_tag tmp2 in
  let v2 := cell_val tmp2 in
  if negb (d1 =? d2) then
    if t1 =? REF then
      wr d1 (mk_cell REF d2) ;; ret false
    else if t2 =? REF then
      wr d2 (mk_cell REF d1) ;; ret false
    else
      f_n1 <- rd v1 ;;
      f_n2 <- rd v2 ;;
      let n1 := jbyte (Z.land f_n1 0xFF) in
      if f_n1 =? f_n2 then
        push_args (Z.to_nat n1) 1 v1 v2 ;; ret false
      else ret true
  else ret false.

Fixpoint l2jitunify_loop (fuel n : nat) (fail : bool) {struct n} : Mach bool :=
  empty <- l2jitUEmpty ;;
  if negb empty && negb fail then
    match n with
    | O => spin
    | S n' => fail' <- l2jitunify_body fuel ;; l2jitunify_loop fuel n' fail'
    end
  else ret fail.

Definition l2jitunify (fuel : nat) (a1 a2 : Z) : Mach bool :=
  l2jitUPush a1 ;;
  l2jitUPush a2 ;;
  fail <- l2jitunify_loop fuel fuel false ;;
  ret (negb fail).

(** *** The compile loop of [codeAdded]

    Only the control of the loop is modelled: which instruction is lowered
    at which offset, where a [ret] is emitted, how [ip] advances and when
    compilation stops.  [Inline op ip] stands for the LLVM instructions that
    the case of opcode [op] appends for the instruction at [ip] (its loads,
    stores, calls to the primitives and failure branch).  The functions
    that the execution engine holds are not part of the machine state:
    [linked p] tells whether [FindFunctionNamed] finds the function [f_p]
    of the fragment added at offset [p]. *)
Inductive lowered : Type :=
| Inline (instruction ip : Z)
| CreateRet (v : Z).

Record compilation : Type := mkCompilation {
  c_ip : Z;
  c_stop : bool;
  c_out : list lowered
}.

Definition emit (x : list lowered) (size : Z) (c : compilation) : compilation :=
  mkCompilation (add32 (c_ip c) size) (c_stop c) (c_out c ++ x).

(** The operand bytes a case reads before it emits anything: a mode byte
    and a register byte, then possibly an argument byte or a word. *)
Definition reads_reg (code : list Z) (ip : Z) : option unit :=
  match code_byte code (add32 ip 1), code_byte code (add32 ip 2) with
  | Some _, Some _ => Some tt
  | _, _ => None
  end.

Definition reads_reg_word (code : list Z) (ip : Z) : option unit :=
  match reads_reg code ip, code_jint code (ip + 3) with
  | Some _, Some _ => Some tt
  | _, _ => None
  end.

Definition reads_reg_arg (code : list Z) (ip : Z) : option unit :=
  match reads_reg code ip, code_byte code (add32 ip 3) with
  | Some _, Some _ => Some tt
  | _, _ => None
  end.

Definition lower (linked : Z -> bool) (code : list Z) (c : compilation)
  : option compilation :=
  let ip := c_ip c in
  match code_byte code ip with
  | None => None
  | Some instruction =>
      if instruction =? PUT_STRUC then
        match reads_reg_word code ip with
        | Some _ => Some (emit [Inline instruction ip] 7 c)
        | None => None
        end
      else if (instruction =? SET_VAR) || (instruction =? SET_VAL) then
        match reads_reg code ip with
        | Some _ => Some (emit [Inline instruction ip] 3 c)
        | None => None
        end
      else if instruction =? GET_STRUC then
        match reads_reg_word code ip with
        | Some _ => Some (emit [Inline instruction ip] 7 c)
        | None => None
        end
      else if (instruction =? UNIFY_VAR) || (instruction =? UNIFY_VAL) then
        match reads_reg code ip with
        | Some _ => Some (emit [Inline instruction ip] 3 c)
        | None => None
        end
      else if (instruction =? PUT_VAR) || (instruction =? PUT_VAL)
              || (instruction =? GET_VAR) || (instruction =? GET_VAL) then
        match reads_reg_arg code ip with
        | Some _ => Some (emit [Inline instruction ip] 4 c)
        | None => None
        end
      else if instruction =? CALL then
        match code_jint code (ip + 1) with
        | Some p_n =>
            if p_n =? -1
            then Some (mkCompilation (add32 ip 5) true (c_out c ++ [CreateRet 0]))
            else if linked p_n
            then Some (emit [Inline instruction ip] 5 c)
            else None
        | None => None
        end
      else if instruction =? PROCEED then
        Some (emit [CreateRet 1] 1 c)
      else if instruction =? ALLOCATE then
        match code_byte code (add32 ip 1) with
        | Some _ => Some (emit [Inline instruction ip] 2 c)
        | None => None
        end
      else if instruction =? DEALLOCATE then
        Some (emit [Inline instruction ip; CreateRet 1] 1 c)
      else
        Some (mkCompilation ip true (c_out c ++ [CreateRet 0]))
  end.

(** [while (ip < (offset + length) && !stopCompilation)]; [None] stands for
    a read outside the code buffer, for a [CALL] whose target function is
    not found (the null pointer is handed to [CreateCall] unchecked) or for
    exhausted fuel. *)
Fixpoint codeAdded_loop (linked : Z -> bool) (n : nat) (code : list Z)
    (limit : Z) (c : compilation) : option compilation :=
  if (c_ip c <? limit) && negb (c_stop c) then
    match n with
    | O => None
    | S n' =>
        match lower linked code c with
        | Some c' => codeAdded_loop linked n' code limit c'
        | None => None
        end
    end
  else Some c.

(** A machine whose register X0 holds a structure [f/0] built at the bottom
    of the heap, with one environment frame whose first slot refers to it;
    the pseudo-registers still hold their initial 0. *)
Definition example_heap : list Z :=
  <[Z.to_nat (REG_SIZE + HEAP_SIZE + 2) := mk_cell REF 0]>
    (<[0%nat := mk_cell STR 11]>
       (<[10%nat := mk_cell STR 11]>
          (<[11%nat := 0x500]> (replicate (Z.to_nat TOP) 0)))).

Definition example_machine : machine :=
  {| l2state := {| heapBasePtr := example_heap;
                   hp := 12; sp := 10; up := TOP;
                   ep := REG_SIZE + HEAP_SIZE;
                   esp := REG_SIZE + HEAP_SIZE + 3;
                   wm := 0 |};
     derefTag := 0;
     derefVal := 0 |}.

(** A machine over the six cells of the two constants of [L3.two_atoms]. *)
Definition two_atoms : machine :=
  {| l2state := {| heapBasePtr := L3.data L3.two_atoms;
                   hp := 4; sp := 4; up := L3.up L3.two_atoms;
                   ep := 0; esp := 0; wm := 0 |};
     derefTag := 0;
     derefVal := 0 |}.

End L2.

(** * The L0 machine ([l0machine.c]) *)

Module L0.

Definition USTACK_SIZE : Z := 1000.

Record l0MachineState : Type := mkState {
  ip : Z;
  heap : list Z;
  hp : Z;
  sp : Z;
  ustack : list Z;
  up : Z;
  writeMode : bool;
  derefTag : Z;
  derefVal : Z
}.

Definition set_heap (h : list Z) (s : l0MachineState) : l0MachineState :=
  mkState (ip s) h (hp s) (sp s) (ustack s) (up s) (writeMode s)
          (derefTag s) (derefVal s).

Definition set_ustack (u : list Z) (s : l0MachineState) : l0MachineState :=
  mkState (ip s) (heap s) (hp s) (sp s) u (up s) (writeMode s)
          (derefTag s) (derefVal s).

Definition set_up (u : Z) (s : l0MachineState) : l0MachineState :=
  mkState (ip s) (heap s) (hp s) (sp s) (ustack s) u (writeMode s)
          (derefTag s) (derefVal s).

Definition set_deref (t v : Z) (s : l0MachineState) : l0MachineState :=
  mkState (ip s) (heap s) (hp s) (sp s) (ustack s) (up s) (writeMode s) t v.

Abbreviation Mach := (M l0MachineState).

(** [l0reset] allocates the record, the heap and the unification stack with
    [malloc] and initialises only some of the fields: the arguments are what
    the allocator hands out for the rest. *)
Definition l0reset (ip0 : Z) (heap0 ustack0 : list Z) : l0MachineState :=
  {| ip := ip0;
     heap := heap0;
     hp := REG_SIZE;
     sp := REG_SIZE;
     ustack := ustack0;
     up := -1;
     writeMode := false;
     derefTag := 0;
     derefVal := 0 |}.

Definition rd (a : Z) : Mach Z := fun s => defined (load (heap s) a) s.

Definition wr (a v : Z) : Mach unit :=
  fun s =>
    match store (heap s) a v with
    | Some h' => Ret (tt, set_heap h' s)
    | None => Undef
    end.

Definition uPush (val : Z) : Mach unit :=
  fun s =>
    let u := add32 (up s) 1 in
    match store (ustack s) u val with
    | Some st' => Ret (tt, set_ustack st' (set_up u s))
    | None => Undef
    end.

Definition uPop : Mach Z :=
  fun s =>
    match load (ustack s) (up s) with
    | Some v => Ret (v, set_up (add32 (up s) (-1)) s)
    | None => Undef
    end.

Definition uClear : Mach unit := modify (set_up (-1)).

Definition uEmpty : Mach bool := u <- gets up ;; ret (u =? -1).

Definition deref (fuel : nat) (a : Z) : Mach Z :=
  fun s =>
    match deref_walk fuel (heap s) a with
    | Ret (addr, t, v) => Ret (addr, set_deref t v s)
    | Undef => Undef
    | Spin => Spin
    end.

Fixpoint push_args (k : nat) (i v1 v2 : Z) : Mach unit :=
  match k with
  | O => ret tt
  | S k' =>
      uPush (add32 v1 i) ;;
      uPush (add32 v2 i) ;;
      push_args k' (add32 i 1) v1 v2
  end.

Definition unify_body (fuel : nat) : Mach bool :=
  a <- uPop ;;
  d1 <- deref fuel a ;;
  t1 <- gets derefTag ;;
  v1 <- gets derefVal ;;
  b <- uPop ;;
  d2 <- deref fuel b ;;
  t2 <- gets derefTag ;;
  v2 <- gets derefVal ;;
  if negb (d1 =? d2) then
    if t1 =? REF then
      wr d1 (mk_cell REF d2) ;; ret false
    else if t2 =? REF then
      wr d2 (mk_cell REF d1) ;; ret false
    else
      f_n1 <- rd v1 ;;
      f_n2 <- rd v2 ;;
      let n1 := jbyte (Z.land f_n1 0xFF) in
      if f_n1 =? f_n2 then
        push_args (Z.to_nat n1) 1 v1 v2 ;; ret false
      else ret true
  else ret false.

Fixpoint unify_loop (fuel n : nat) (fail : bool) {struct n} : Mach bool :=
  empty <- uEmpty ;;
  if negb empty && negb fail then
    match n with
    | O => spin
    | S n' => fail' <- unify_body fuel ;; unify_loop fuel n' fail'
    end
  else ret fail.

Definition unify (fuel : nat) (a1 a2 : Z) : Mach bool :=
  uPush a1 ;;
  uPush a2 ;;
  fail <- unify_loop fuel fuel false ;;
  ret (negb fail).

(** The locals of [execute]. *)
Record locals : Type := mkLocals {
  l_hp : Z;
  l_sp : Z;
  l_writeMode : bool;
  l_ip : Z;
  l_failed : bool
}.

(** The body of the decode loop.  The opcode and the register operand are
    read with [code[ip++]] before the [switch], which has no [default]. *)
Definition l0step (fuel : nat) (code : list Z) (l : locals) : Mach locals :=
  instruction <- defined (code_byte code (l_ip l)) ;;
  Xi <- defined (code_byte code (add32 (l_ip l) 1)) ;;
  let ip := add32 (add32 (l_ip l) 1) 1 in
  let hp := l_hp l in
  let sp := l_sp l in
  let wm := l_writeMode l in
  if instruction =? PUT_STRUC then
    f_n <- defined (code_jint code ip) ;;
    let ip := add32 ip 4 in
    wr hp (mk_cell STR (add32 hp 1)) ;;
    wr (add32 hp 1) f_n ;;
    c <- rd hp ;;
    wr Xi c ;;
    ret (mkLocals (add32 hp 2) sp wm ip (l_failed l))
  else if instruction =? SET_VAR then
    wr hp (mk_cell REF hp) ;;
    c <- rd hp ;;
    wr Xi c ;;
    ret (mkLocals (add32 hp 1) sp wm ip (l_failed l))
  else if instruction =? SET_VAL then
    c <- rd Xi ;;
    wr hp c ;;
    ret (mkLocals (add32 hp 1) sp wm ip (l_failed l))
  else if instruction =? GET_STRUC then
    f_n <- defined (code_jint code ip) ;;
    let ip := add32 ip 4 in
    addr <- deref fuel Xi ;;
    tag <- gets derefTag ;;
    a <- gets derefVal ;;
    if tag =? REF then
      wr hp (mk_cell STR (add32 hp 1)) ;;
      wr (add32 hp 1) f_n ;;
      wr addr (mk_cell REF hp) ;;
      ret (mkLocals (add32 hp 2) sp true ip (l_failed l))
    else if tag =? STR then
      c <- rd a ;;
      if c =? f_n
      then ret (mkLocals hp (add32 a 1) false ip (l_failed l))
      else ret (mkLocals hp sp wm ip true)
    else ret (mkLocals hp sp wm ip (l_failed l))
  else if instruction =? UNIFY_VAR then
    if negb wm then
      c <- rd sp ;;
      wr Xi c ;;
      ret (mkLocals hp (add32 sp 1) wm ip (l_failed l))
    else
      wr hp (mk_cell REF hp) ;;
      c <- rd hp ;;
      wr Xi c ;;
      ret (mkLocals (add32 hp 1) (add32 sp 1) wm ip (l_failed l))
  else if instruction =? UNIFY_VAL then
    if negb wm then
      ok <- unify fuel Xi sp ;;
      ret (mkLocals hp (add32 sp 1) wm ip (negb ok))
    else
      c <- rd Xi ;;
      wr hp c ;;
      ret (mkLocals (add32 hp 1) (add32 sp 1) wm ip (l_failed l))
  else ret (mkLocals hp sp wm ip (l_failed l)).

Fixpoint execute_loop (fuel n : nat) (code : list Z) (l : locals) {struct n}
  : Mach locals :=
  if negb (l_failed l) && (l_ip l <? Z.of_nat (length code)) then
    match n with
    | O => spin
    | S n' => l' <- l0step fuel code l ;; execute_loop fuel n' code l'
    end
  else ret l.

Definition preserve (l : locals) (s : l0MachineState) : l0MachineState :=
  mkState (ip s) (heap s) (l_hp l) (l_sp l) (ustack s) (up s) (l_writeMode l)
          (derefTag s) (derefVal s).

(** [execute] on an existing machine state (the global pointer is not the
    [-1] it starts as). *)
Definition execute (fuel : nat) (code : list Z) : Mach bool :=
  s0 <- gets (fun s => s) ;;
  let l := mkLocals (hp s0) (sp s0) (writeMode s0) 0 false in
  uClear ;;
  l' <- execute_loop fuel fuel code l ;;
  modify (preserve l') ;;
  ret (negb (l_failed l')).

(** The entry point: the global [l0state] holds [None] for the initial
    [-1]; the machine is then created by [l0reset] first. *)
Definition Java_execute (fuel : nat) (code : list Z)
    (ip0 : Z) (heap0 ustack0 : list Z) (g : option l0MachineState)
  : outcome (bool * l0MachineState) :=
  match g with
  | Some s => execute fuel code s
  | None => execute fuel code (l0reset ip0 heap0 ustack0)
  end.

Definition getHeap (addr : Z) : Mach Z := rd addr.

(** A machine with the four heap cells of [L3.small_state] and a
    unification stack of three cells. *)
Definition small_state : l0MachineState :=
  {| ip := 0;
     heap := L3.data L3.small_state;
     hp := 4; sp := 4;
     ustack := [0; 0; 0];
     up := -1;
     writeMode := false; derefTag := 0; derefVal := 0 |}.

End L0.

(** * The L1 machine ([l1machine.c]) *)

Module L1.

Record l1MachineState : Type := mkState {
  ip : Z;
  heap : list Z;
  hp : Z;
  sp : Z;
  ustack : list Z;
  up : Z;
  writeMode : bool;
  derefTag : Z;
  derefVal : Z
}.

Definition set_heap (h : list Z) (s : l1MachineState) : l1MachineState :=
  mkState (ip s) h (hp s) (sp s) (ustack s) (up s) (writeMode s)
          (derefTag s) (derefVal s).

Definition set_ustack (u : list Z) (s : l1MachineState) : l1MachineState :=
  mkState (ip s) (heap s) (hp s) (sp s) u (up s) (writeMode s)
          (derefTag s) (derefVal s).

Definition set_up (u : Z) (s : l1MachineState) : l1MachineState :=
  mkState (ip s) (heap s) (hp s) (sp s) (ustack s) u (writeMode s)
          (derefTag s) (derefVal s).

Definition set_deref (t v : Z) (s : l1MachineState) : l1MachineState :=
  mkState (ip s) (heap s) (hp s) (sp s) (ustack s) (up s) (writeMode s) t v.

Abbreviation Mach := (M l1MachineState).

(** [nativeReset] allocates the record, the heap and the unification stack
    with [malloc] and initialises the registers; the two arrays hold what
    the allocator hands out. *)
Definition nativeReset (heap0 ustack0 : list Z) : l1MachineState :=
  {| ip := 0;
     heap := heap0;
     hp := REG_SIZE;
     sp := REG_SIZE;
     ustack := ustack0;
     up := -1;
     writeMode := false;
     derefTag := 0;
     derefVal := 0 |}.

Definition rd (a : Z) : Mach Z := fun s => defined (load (heap s) a) s.

Definition wr (a v : Z) : Mach unit :=
  fun s =>
    match store (heap s) a v with
    | Some h' => Ret (tt, set_heap h' s)
    | None => Undef
    end.

Definition l1uPush (val : Z) : Mach unit :=
  fun s =>
    let u := add32 (up s) 1 in
    match store (ustack s) u val with
    | Some st' => Ret (tt, set_ustack st' (set_up u s))
    | None => Undef
    end.

Definition l1uPop : Mach Z :=
  fun s =>
    match load (ustack s) (up s) with
    | Some v => Ret (v, set_up (add32 (up s) (-1)) s)
    | None => Undef
    end.

Definition l1uClear : Mach unit := modify (set_up (-1)).

Definition l1uEmpty : Mach bool := u <- gets up ;; ret (u =? -1).

Definition l1deref (fuel : nat) (a : Z) : Mach Z :=
  fun s =>
    match deref_walk fuel (heap s) a with
    | Ret (addr, t, v) => Ret (addr, set_deref t v s)
    | Undef => Undef
    | Spin => Spin
    end.

Fixpoint push_args (k : nat) (i v1 v2 : Z) : Mach unit :=
  match k with
  | O => ret tt
  | S k' =>
      l1uPush (add32 v1 i) ;;
      l1uPush (add32 v2 i) ;;
      push_args k' (add32 i 1) v1 v2
  end.

Definition l1unify_body (fuel : nat) : Mach bool :=
  a <- l1uPop ;;
  d1 <- l1deref fuel a ;;
  t1 <- gets derefTag ;;
  v1 <- gets derefVal ;;
  b <- l1uPop ;;
  d2 <- l1deref fuel b ;;
  t2 <- gets derefTag ;;
  v2 <- gets derefVal ;;
  if negb (d1 =? d2) then
    if t1 =? REF then
      wr d1 (mk_cell REF d2) ;; ret false
    else if t2 =? REF then
      wr d2 (mk_cell REF d1) ;; ret false
    else
      f_n1 <- rd v1 ;;
      f_n2 <- rd v2 ;;
      let n1 := jbyte (Z.land f_n1 0xFF) in
      if f_n1 =? f_n2 then
        push_args (Z.to_nat n1) 1 v1 v2 ;; ret false
      else ret true
  else ret false.

Fixpoint l1unify_loop (fuel n : nat) (fail : bool) {struct n} : Mach bool :=
  empty <- l1uEmpty ;;
  if negb empty && negb fail then
    match n with
    | O => spin
    | S n' => fail' <- l1unify_body fuel ;; l1unify_loop fuel n' fail'
    end
  else ret fail.

Definition l1unify (fuel : nat) (a1 a2 : Z) : Mach bool :=
  l1uPush a1 ;;
  l1uPush a2 ;;
  fail <- l1unify_loop fuel fuel false ;;
  ret (negb fail).

(** The locals of [execute]. *)
Record locals : Type := mkLocals {
  l_hp : Z;
  l_sp : Z;
  l_writeMode : bool;
  l_ip : Z;
  l_failed : bool;
  l_complete : bool
}.

(** The body of the decode loop.  As on the L0 machine the opcode and the
    first operand byte are read with [code[ip++]] before the [switch], for
    every instruction, and the [switch] has no [default]. *)
Definition l1step (fuel : nat) (code : list Z) (l : locals) : Mach locals :=
  instruction <- defined (code_byte code (l_ip l)) ;;
  xi <- defined (code_byte code (add32 (l_ip l) 1)) ;;
  let ip := add32 (add32 (l_ip l) 1) 1 in
  let hp := l_hp l in
  let sp := l_sp l in
  let wm := l_writeMode l in
  let failed := l_failed l in
  let complete := l_complete l in
  if instruction =? PUT_STRUC then
    f_n <- defined (code_jint code ip) ;;
    let ip := add32 ip 4 in
    wr hp (mk_cell STR (add32 hp 1)) ;;
    wr (add32 hp 1) f_n ;;
    c <- rd hp ;;
    wr xi c ;;
    ret (mkLocals (add32 hp 2) sp wm ip failed complete)
  else if instruction =? SET_VAR then
    wr hp (mk_cell REF hp) ;;
    c <- rd hp ;;
    wr xi c ;;
    ret (mkLocals (add32 hp 1) sp wm ip failed complete)
  else if instruction =? SET_VAL then
    c <- rd xi ;;
    wr hp c ;;
    ret (mkLocals (add32 hp 1) sp wm ip failed complete)
  else if instruction =? GET_STRUC then
    f_n <- defined (code_jint code ip) ;;
    let ip := add32 ip 4 in
    addr <- l1deref fuel xi ;;
    tag <- gets derefTag ;;
    a <- gets derefVal ;;
    if tag =? REF then
      wr hp (mk_cell STR (add32 hp 1)) ;;
      wr (add32 hp 1) f_n ;;
      wr addr (mk_cell REF hp) ;;
      ret (mkLocals (add32 hp 2) sp true ip failed complete)
    else if tag =? STR then
      c <- rd a ;;
      if c =? f_n
      then ret (mkLocals hp (add32 a 1) false ip failed complete)
      else ret (mkLocals hp sp wm ip true complete)
    else ret (mkLocals hp sp wm ip failed complete)
  else if instruction =? UNIFY_VAR then
    if negb wm then
      c <- rd sp ;;
      wr xi c ;;
      ret (mkLocals hp (add32 sp 1) wm ip failed complete)
    else
      wr hp (mk_cell REF hp) ;;
      c <- rd hp ;;
      wr xi c ;;
      ret (mkLocals (add32 hp 1) (add32 sp 1) wm ip failed complete)
  else if instruction =? UNIFY_VAL then
    if negb wm then
      ok <- l1unify fuel xi sp ;;
      ret (mkLocals hp (add32 sp 1) wm ip (negb ok) complete)
    else
      c <- rd xi ;;
      wr hp c ;;
      ret (mkLocals (add32 hp 1) (add32 sp 1) wm ip failed complete)
  else if instruction =? PUT_VAR then
    ai <- defined (code_byte code ip) ;;
    let ip := add32 ip 1 in
    wr hp (mk_cell REF hp) ;;
    c <- rd hp ;;
    wr xi c ;;
    c' <- rd hp ;;
    wr ai c' ;;
    ret (mkLocals (add32 hp 1) sp wm ip failed complete)
  else if instruction =? PUT_VAL then
    ai <- defined (code_byte code ip) ;;
    let ip := add32 ip 1 in
    c <- rd xi ;;
    wr ai c ;;
    ret (mkLocals hp sp wm ip failed complete)
  else if instruction =? GET_VAR then
    ai <- defined (code_byte code ip) ;;
    let ip := add32 ip 1 in
    c <- rd ai ;;
    wr xi c ;;
    ret (mkLocals hp sp wm ip failed complete)
  else if instruction =? GET_VAL then
    ai <- defined (code_byte code ip) ;;
    let ip := add32 ip 1 in
    ok <- l1unify fuel xi ai ;;
    ret (mkLocals hp sp wm ip (negb ok) complete)
  else if instruction =? CALL then
    p_n <- defined (code_jint code (ip - 1)) ;;
    if p_n =? -1 then ret (mkLocals hp sp wm ip true complete)
    else ret (mkLocals hp sp wm p_n failed complete)
  else if instruction =? PROCEED then
    ret (mkLocals hp sp wm ip failed true)
  else ret (mkLocals hp sp wm ip failed complete).

(** [while (failed == JNI_FALSE && complete == JNI_FALSE && (ip < length))] *)
Fixpoint execute_loop (fuel n : nat) (code : list Z) (l : locals) {struct n}
  : Mach locals :=
  if negb (l_failed l) && negb (l_complete l)
     && (l_ip l <? Z.of_nat (length code)) then
    match n with
    | O => spin
    | S n' => l' <- l1step fuel code l ;; execute_loop fuel n' code l'
    end
  else ret l.

Definition preserve (l : locals) (s : l1MachineState) : l1MachineState :=
  mkState (ip s) (heap s) (l_hp l) (l_sp l) (ustack s) (up s) (l_writeMode l)
          (derefTag s) (derefVal s).

Definition execute (fuel : nat) (code : list Z) (offset : Z) : Mach bool :=
  s0 <- gets (fun s => s) ;;
  let l := mkLocals (hp s0) (sp s0) (writeMode s0) offset false false in
  l1uClear ;;
  l' <- execute_loop fuel fuel code l ;;
  modify (preserve l') ;;
  ret (negb (l_failed l')).

(** The inspection entry points. *)
Definition deref (fuel : nat) (a : Z) : Mach Z := l1deref fuel a.
Definition getDerefTag : Mach Z := gets derefTag.
Definition getDerefVal : Mach Z := gets derefVal.
Definition getHeap (addr : Z) : Mach Z := rd addr.

(** A machine with the four heap cells of [L3.small_state] and a
    unification stack of three cells. *)
Definition small_state : l1MachineState :=
  {| ip := 0;
     heap := L3.data L3.small_state;
     hp := 4; sp := 4;
     ustack := [0; 0; 0];
     up := -1;
     writeMode := false; derefTag := 0; derefVal := 0 |}.

End L1.

(** * The unification engine as relations *)

(** ** Dereference

    [ref_chain d a r]: following the REF chain that starts at address [a]
    stops at address [r].  The walk stops at the first cell that is not a
    REF, or that is a REF whose payload is its own address (a free
    variable). *)
Inductive ref_chain (d : list Z) : Z -> Z -> Prop :=
| chain_end a c :
    load d a = Some c ->
    cell_tag c <> REF \/ cell_val c = a ->
    ref_chain d a a
| chain_next a c r :
    load d a = Some c ->
    cell_tag c = REF ->
    cell_val c <> a ->
    ref_chain d (cell_val c) r ->
    ref_chain d a r.

(** The dereference loop of the machines comes to an end from [a]. *)
Definition deref_terminates (d : list Z) (a : Z) : Prop :=
  exists fuel r, deref_walk fuel d a = Ret r.

(** ** The push-down list

    The PDL grows downward from [TOP]: a push decrements [up] and writes
    there, a pop reads at [up] and increments it, and the list is empty when
    [up >= TOP]. *)
Definition pdl_push (d : list Z) (u v : Z) : option (list Z * Z) :=
  match store d (u - 1) v with
  | Some d' => Some (d', u - 1)
  | None => None
  end.

Fixpoint pdl_push_list (d : list Z) (u : Z) (vs : list Z)
  : option (list Z * Z) :=
  match vs with
  | [] => Some (d, u)
  | v :: vs' =>
      match pdl_push d u v with
      | Some (d', u') => pdl_push_list d' u' vs'
      | None => None
      end
  end.

(** The arity as [unify] reads it, [(jbyte)(f_n & 0xFF)]: the low byte of
    the functor/arity word as a signed byte, so that the bytes 0x80..0xFF
    give a negative number. *)
Definition arity (f_n : Z) : Z := jbyte (Z.land f_n 0xFF).

(** The argument addresses [v1+1, v2+1, ..., v1+n, v2+n], in the order in
    which they are pushed. *)
Fixpoint arg_pairs_from (k : nat) (i v1 v2 : Z) : list Z :=
  match k with
  | O => []
  | S k' => (v1 + i) :: (v2 + i) :: arg_pairs_from k' (i + 1) v1 v2
  end.

Definition arg_pairs (v1 v2 n : Z) : list Z :=
  arg_pairs_from (Z.to_nat n) 1 v1 v2.

(** [bind(d1, d2)]: a REF to the other endpoint is stored at [d1] when the
    cell there is a REF, at [d2] otherwise. *)
Definition bind_cells (d : list Z) (d1 d2 t1 : Z) : option (list Z) :=
  if t1 =? REF then store d d1 (mk_cell REF d2)
  else store d d2 (mk_cell REF d1).

(** ** Unification

    [unify_iter d u fail d' u']: one iteration of the loop of [unify] on
    data area [d] with PDL pointer [u] leaves data area [d'] and PDL pointer
    [u'], and [fail] tells whether it found a mismatch.  One rule per
    outcome of the numbered steps: the two dereferenced addresses are the
    same; one of them is a REF and gets bound; the functor/arity words
    differ; the words agree and the argument pairs are pushed. *)
Inductive unify_iter (d : list Z) (u : Z) : bool -> list Z -> Z -> Prop :=
| iter_same a b d1 :
    load d u = Some a -> load d (u + 1) = Some b ->
    ref_chain d a d1 -> ref_chain d b d1 ->
    unify_iter d u false d (u + 2)
| iter_bind a b d1 d2 c1 c2 dd :
    load d u = Some a -> load d (u + 1) = Some b ->
    ref_chain d a d1 -> ref_chain d b d2 ->
    d1 <> d2 ->
    load d d1 = Some c1 -> load d d2 = Some c2 ->
    cell_tag c1 = REF \/ cell_tag c2 = REF ->
    bind_cells d d1 d2 (cell_tag c1) = Some dd ->
    unify_iter d u false dd (u + 2)
| iter_mismatch a b d1 d2 c1 c2 f1 f2 :
    load d u = Some a -> load d (u + 1) = Some b ->
    ref_chain d a d1 -> ref_chain d b d2 ->
    d1 <> d2 ->
    load d d1 = Some c1 -> load d d2 = Some c2 ->
    cell_tag c1 <> REF -> cell_tag c2 <> REF ->
    load d (cell_val c1) = Some f1 -> load d (cell_val c2) = Some f2 ->
    f1 <> f2 ->
    unify_iter d u true d (u + 2)
| iter_args a b d1 d2 c1 c2 f dd uu :
    load d u = Some a -> load d (u + 1) = Some b ->
    ref_chain d a d1 -> ref_chain d b d2 ->
    d1 <> d2 ->
    load d d1 = Some c1 -> load d d2 = Some c2 ->
    cell_tag c1 <> REF -> cell_tag c2 <> REF ->
    load d (cell_val c1) = Some f -> load d (cell_val c2) = Some f ->
    pdl_push_list d (u + 2) (arg_pairs (cell_val c1) (cell_val c2) (arity f))
      = Some (dd, uu) ->
    unify_iter d u false dd uu.

(** [unify_run d u res d' u']: the loop runs until the PDL is empty (result
    true) or an iteration fails (result false). *)
Inductive unify_run : list Z -> Z -> bool -> list Z -> Z -> Prop :=
| run_drained d u :
    TOP <= u ->
    unify_run d u true d u
| run_failed d u d' u' :
    u < TOP ->
    unify_iter d u true d' u' ->
    unify_run d u false d' u'
| run_continue d u d1 u1 res d' u' :
    u < TOP ->
    unify_iter d u false d1 u1 ->
    unify_run d1 u1 res d' u' ->
    unify_run d u res d' u'.

(** [unify(a1, a2)]: push [a1] and [a2], then run the loop. *)
Definition unify_spec (a1 a2 : Z) (d : list Z) (u : Z)
    (res : bool) (d' : list Z) (u' : Z) : Prop :=
  exists d0 u0,
    pdl_push_list d u [a1; a2] = Some (d0, u0) /\ unify_run d0 u0 res d' u'.

(** The data area is addressable by the 24-bit payload of a cell and the
    PDL pointer is a [jint]. *)
Definition addressable (s : L3.l3MachineState) : Prop :=
  Z.of_nat (length (L3.data s)) <= 16777216 /\ jint_range (L3.up s).

(** The PDL is empty: the state in which every instruction of [execute] is
    decoded. *)
Definition pdl_idle (s : L3.l3MachineState) : Prop :=
  addressable s /\ L3.up s = TOP.



(** ** Chains below the PDL

    [heap_chain d b a r]: the REF chain from [a] stops at [r] and visits
    only addresses below [b]. *)
Inductive heap_chain (d : list Z) (b : Z) : Z -> Z -> Prop :=
| heap_chain_end a c :
    a < b ->
    load d a = Some c ->
    cell_tag c <> REF \/ cell_val c = a ->
    heap_chain d b a a
| heap_chain_next a c r :
    a < b ->
    load d a = Some c ->
    cell_tag c = REF ->
    cell_val c <> a ->
    heap_chain d b (cell_val c) r ->
    heap_chain d b a r.

(** The registers of the L3 machine other than the PDL pointer and the two
    pseudo-registers of dereference. *)
Definition machine_registers (s : L3.l3MachineState)
  : Z * Z * Z * Z * Z * Z * bool :=
  (L3.ip s, L3.cp s, L3.hp s, L3.sp s, L3.ep s, L3.esp s, L3.writeMode s).

(** A computation that leaves those registers and the size of the data area
    as they are. *)
Definition keeps_registers {A : Type} (m : L3.Mach A) : Prop :=
  forall s a s',
    m s = Ret (a, s') ->
    machine_registers s' = machine_registers s /\
    length (L3.data s') = length (L3.data s).

(** * The machines side by side *)

(** An L3 machine and an L2 machine hold the same cells and the same PDL
    pointer. *)
Definition same_store (s : L3.l3MachineState) (m : L2.machine) : Prop :=
  L3.data s = L2.heapBasePtr (L2.l2state m) /\
  L3.up s = L2.up (L2.l2state m).

(** Two runs, one on each of the two machines, end the same way: both
    return the same value and leave the same store, or both run into
    undefined behaviour, or both are still running. *)
Definition agree {A : Type} (o3 : outcome (A * L3.l3MachineState))
    (o2 : outcome (A * L2.machine)) : Prop :=
  match o3, o2 with
  | Ret (a, s), Ret (b, m) => a = b /\ same_store s m
  | Undef, Undef => True
  | Spin, Spin => True
  | _, _ => False
  end.

(** An L0 machine and an L3 machine hold the same cells, and the locals of
    their decode loops agree on what both have. *)
Definition same_cells (s0 : L0.l0MachineState) (s3 : L3.l3MachineState) : Prop :=
  L0.heap s0 = L3.data s3.

Definition same_locals (l0 : L0.locals) (l3 : L3.locals) : Prop :=
  L0.l_hp l0 = L3.l_hp l3 /\ L0.l_sp l0 = L3.l_sp l3 /\
  L0.l_writeMode l0 = L3.l_writeMode l3 /\ L0.l_failed l0 = L3.l_failed l3.

Definition same_step (o0 : outcome (L0.locals * L0.l0MachineState))
    (o3 : outcome (L3.locals * L3.l3MachineState)) : Prop :=
  match o0, o3 with
  | Ret (l0, s0), Ret (l3, s3) => same_locals l0 l3 /\ same_cells s0 s3
  | Undef, Undef => True
  | Spin, Spin => True
  | _, _ => False
  end.

(** The same for an L1 machine and an L3 machine; the L1 machine has its
    [complete] flag besides. *)
Definition same_cells1 (s1 : L1.l1MachineState) (s3 : L3.l3MachineState) : Prop :=
  L1.heap s1 = L3.data s3.

Definition same_locals1 (l1 : L1.locals) (l3 : L3.locals) : Prop :=
  L1.l_hp l1 = L3.l_hp l3 /\ L1.l_sp l1 = L3.l_sp l3 /\
  L1.l_writeMode l1 = L3.l_writeMode l3 /\ L1.l_failed l1 = L3.l_failed l3.

Definition same_step1 (complete : bool)
    (o1 : outcome (L1.locals * L1.l1MachineState))
    (o3 : outcome (L3.locals * L3.l3MachineState)) : Prop :=
  match o1, o3 with
  | Ret (l1, s1), Ret (l3, s3) =>
      same_locals1 l1 l3 /\ same_cells1 s1 s3 /\ L1.l_complete l1 = complete
  | Undef, Undef => True
  | Spin, Spin => True
  | _, _ => False
  end.

(** The L0 machine seen inside an L3 machine: the heap of the L0 machine is
    the bottom of the data area, the unification stack, bottom first, is the
    PDL, top down, and the stack is small enough for the PDL never to reach
    the heap. *)
Definition l0_in_l3 (s0 : L0.l0MachineState) (s3 : L3.l3MachineState) : Prop :=
  (forall a c, load (L0.heap s0) a = Some c -> load (L3.data s3) a = Some c) /\
  Z.of_nat (length (L3.data s3)) = TOP /\
  Z.of_nat (length (L0.heap s0)) + Z.of_nat (length (L0.ustack s0)) <= TOP /\
  -1 <= L0.up s0 < Z.of_nat (length (L0.ustack s0)) /\
  L3.up s3 = TOP - 1 - L0.up s0 /\
  (forall i, 0 <= i <= L0.up s0 ->
     load (L0.ustack s0) i = load (L3.data s3) (TOP - 1 - i)).

(** A computation of the L3 machine does what one of the L0 machine does,
    whenever the latter returns. *)
Definition follows {A : Type} (m0 : L0.Mach A) (m3 : L3.Mach A) : Prop :=
  forall s0 s3 a s0',
    l0_in_l3 s0 s3 -> m0 s0 = Ret (a, s0') ->
    exists s3', m3 s3 = Ret (a, s3') /\ l0_in_l3 s0' s3'.

(** * Properties *)

Arguments jint : simpl never.
Arguments jbyte : simpl never.
Arguments add32 : simpl never.
Arguments cell_tag : simpl never.
Arguments cell_val : simpl never.
Arguments mk_cell : simpl never.
Arguments load : simpl never.
Arguments store : simpl never.

(** A closed range [lo <= z < hi], settled by evaluation. *)
Ltac compute_range := vm_compute; split; [discriminate | reflexivity].

(** ** Machine integers and cells *)

Lemma jint_id z : jint_range z -> jint z = z.
Proof.
  unfold jint_range, jint. intros H.
  rewrite Z.mod_small by lia. lia.
Qed.

Lemma jint_in_range z : jint_range (jint z).
Proof.
  unfold jint_range, jint.
  pose proof (Z.mod_pos_bound (z + 2147483648) 4294967296 ltac:(lia)). lia.
Qed.

Lemma add32_exact a b : jint_range (a + b) -> add32 a b = a + b.
Proof. apply jint_id. Qed.

Lemma jbyte_small z : -128 <= z < 128 -> jbyte z = z.
Proof. unfold jbyte. intros H. rewrite Z.mod_small by lia. lia. Qed.

Lemma jbyte_bounds z : -128 <= jbyte z < 128.
Proof.
  unfold jbyte. pose proof (Z.mod_pos_bound (z + 128) 256 ltac:(lia)). lia.
Qed.

Lemma land_payload a : Z.land a 0xFFFFFF = a mod 16777216.
Proof. change 0xFFFFFF with (Z.ones 24). apply Z.land_ones. lia. Qed.

Lemma cell_val_bounds c : 0 <= cell_val c < 16777216.
Proof.
  unfold cell_val. rewrite land_payload. apply Z.mod_pos_bound. lia.
Qed.

Lemma cell_val_small c : 0 <= c < 16777216 -> cell_val c = c.
Proof.
  intros H. unfold cell_val. rewrite land_payload. apply Z.mod_small. lia.
Qed.

Lemma cell_tag_byte c :
  cell_tag c = jbyte ((c / 16777216) mod 256).
Proof.
  unfold cell_tag. f_equal.
  change 0xFF000000 with (Z.shiftl (Z.ones 8) 24).
  rewrite Z.shiftr_land.
  rewrite Z.shiftr_shiftl_l by lia. simpl Z.sub. rewrite Z.shiftl_0_r.
  rewrite Z.land_ones by lia. rewrite Z.shiftr_div_pow2 by lia. reflexivity.
Qed.

Lemma cell_tag_small c : 0 <= c < 16777216 -> cell_tag c = 0.
Proof.
  intros H. rewrite cell_tag_byte. rewrite Z.div_small by lia. reflexivity.
Qed.

Lemma land_shifted_payload t r :
  0 <= r < 16777216 -> Z.land (t * 16777216) r = 0.
Proof.
  intros Hb. apply Z.bits_inj'. intros n Hn. rewrite Z.land_spec, Z.bits_0.
  destruct (Z.lt_ge_cases n 24) as [Hlt | Hge].
  - replace (t * 16777216) with (t * 2 ^ 24) by reflexivity.
    rewrite Z.mul_pow2_bits_low by lia. reflexivity.
  - rewrite (Z.bits_above_log2 r n); [apply andb_false_r | lia |].
    destruct (Z.eq_dec r 0) as [E | E].
    + rewrite E. simpl. lia.
    + apply Z.log2_lt_pow2; [lia |].
      apply Z.lt_le_trans with (2 ^ 24); [simpl; lia |].
      apply Z.pow_le_mono_r; lia.
Qed.

Lemma mk_cell_sum t a :
  0 <= t -> mk_cell t a = t * 16777216 + a mod 16777216.
Proof.
  intros Ht. unfold mk_cell. rewrite land_payload.
  rewrite Z.shiftl_mul_pow2 by lia. change (2 ^ 24) with 16777216.
  pose proof (Z.mod_pos_bound a 16777216 ltac:(lia)) as Hb.
  rewrite <- Z.lxor_lor by (apply land_shifted_payload; lia).
  symmetry. apply Z.add_nocarry_lxor. apply land_shifted_payload. lia.
Qed.

Lemma cell_tag_mk_cell t a : 0 <= t < 128 -> cell_tag (mk_cell t a) = t.
Proof.
  intros Ht. rewrite cell_tag_byte, mk_cell_sum by lia.
  pose proof (Z.mod_pos_bound a 16777216 ltac:(lia)) as Hb.
  replace ((t * 16777216 + a mod 16777216) / 16777216) with t.
  - rewrite Z.mod_small by lia. apply jbyte_small. lia.
  - symmetry. rewrite Z.add_comm, Z.div_add by lia.
    rewrite Z.div_small by lia. lia.
Qed.

Lemma cell_val_mk_cell t a :
  0 <= t -> cell_val (mk_cell t a) = a mod 16777216.
Proof.
  intros Ht. unfold cell_val. rewrite land_payload, mk_cell_sum by lia.
  rewrite Z.add_comm, Z.mod_add by lia. apply Z.mod_mod. lia.
Qed.

Lemma cell_mk_REF a :
  0 <= a < 16777216 ->
  cell_tag (mk_cell REF a) = REF /\ cell_val (mk_cell REF a) = a.
Proof.
  intros H. split.
  - apply cell_tag_mk_cell. unfold REF. lia.
  - rewrite cell_val_mk_cell by (unfold REF; lia). apply Z.mod_small. lia.
Qed.

(** ** Arrays *)

Lemma load_Some_range d a c :
  load d a = Some c -> 0 <= a < Z.of_nat (length d).
Proof.
  unfold load. destruct (Z.ltb_spec a 0) as [Hneg | Hpos]; [discriminate |].
  intros H. apply lookup_lt_Some in H. lia.
Qed.

Lemma load_in_range d a :
  0 <= a < Z.of_nat (length d) -> exists c, load d a = Some c.
Proof.
  intros H. unfold load. destruct (Z.ltb_spec a 0) as [Hneg | Hpos]; [lia |].
  destruct (lookup_lt_is_Some_2 d (Z.to_nat a)) as [c Hc]; [lia |]. eauto.
Qed.

Lemma store_inv d a v d' :
  store d a v = Some d' ->
  0 <= a < Z.of_nat (length d) /\ d' = <[Z.to_nat a := v]> d.
Proof.
  unfold store.
  destruct (Z.leb_spec 0 a) as [H0 | H0],
           (Z.ltb_spec a (Z.of_nat (length d))) as [H1 | H1];
    simpl; intros E; inversion E; subst; split; auto; lia.
Qed.

Lemma store_in_range d a v :
  0 <= a < Z.of_nat (length d) -> store d a v = Some (<[Z.to_nat a := v]> d).
Proof.
  intros H. unfold store.
  destruct (Z.leb_spec 0 a) as [H0 | H0],
           (Z.ltb_spec a (Z.of_nat (length d))) as [H1 | H1];
    simpl; auto; lia.
Qed.

Lemma store_length d a v d' :
  store d a v = Some d' -> length d' = length d.
Proof.
  intros H. apply store_inv in H as [_ ->]. apply length_insert.
Qed.

Lemma load_store_eq d a v d' :
  store d a v = Some d' -> load d' a = Some v.
Proof.
  intros H. apply store_inv in H as [Hr ->]. unfold load.
  destruct (Z.ltb_spec a 0) as [Hneg | Hpos]; [lia |].
  apply list_lookup_insert_eq. lia.
Qed.

Lemma load_store_ne d a v d' b :
  store d a v = Some d' -> a <> b -> load d' b = load d b.
Proof.
  intros H Hne. apply store_inv in H as [Hr ->]. unfold load.
  destruct (Z.ltb_spec b 0) as [Hneg | Hpos]; [reflexivity |].
  apply list_lookup_insert_ne. lia.
Qed.

Lemma load_replicate n a :
  0 <= a < Z.of_nat n -> load (replicate n 0) a = Some 0.
Proof.
  intros H. unfold load. destruct (Z.ltb_spec a 0) as [Hneg | Hpos]; [lia |].
  apply lookup_replicate_2. lia.
Qed.

(** ** The outcome monad *)

Lemma bind_Ret_inv {S A B : Type} (m : M S A) (k : A -> M S B) s r :
  bind m k s = Ret r ->
  exists a s1, m s = Ret (a, s1) /\ k a s1 = Ret r.
Proof.
  unfold bind. destruct (m s) as [[a s1] | |]; try discriminate. eauto.
Qed.

Lemma bind_Ret {S A B : Type} (m : M S A) (k : A -> M S B) s a s1 :
  m s = Ret (a, s1) -> bind m k s = k a s1.
Proof. unfold bind. intros ->. reflexivity. Qed.

(** ** The dereference loop and the REF chain *)

Section Dereference.

Variable d : list Z.

Lemma ref_chain_start a r : ref_chain d a r -> exists c, load d a = Some c.
Proof. destruct 1; eauto. Qed.

Lemma ref_chain_stop a r :
  ref_chain d a r ->
  exists c, load d r = Some c /\ (cell_tag c <> REF \/ cell_val c = r).
Proof. induction 1; eauto. Qed.

Lemma ref_chain_fun a r r' : ref_chain d a r -> ref_chain d a r' -> r = r'.
Proof.
  intros H. revert r'.
  induction H as [a c Hc Hend | a c r Hc Ht Hv Hr IH]; intros r' H'.
  - inversion H' as [a' c' Hc' _ | a' c' r'' Hc' Ht' Hv' _]; subst; auto.
    rewrite Hc in Hc'. inversion Hc'; subst. tauto.
  - inversion H' as [a' c' Hc' Hend' | a' c' r'' Hc' Ht' Hv' Hr']; subst.
    + rewrite Hc in Hc'. inversion Hc'; subst. tauto.
    + rewrite Hc in Hc'. inversion Hc'; subst. auto.
Qed.

(** A chain end whose cell carries the REF tag is a free variable. *)
Lemma ref_chain_stop_REF a r c :
  ref_chain d a r -> load d r = Some c -> cell_tag c = REF -> cell_val c = r.
Proof.
  intros H Hc Ht. apply ref_chain_stop in H as (c' & Hc' & Hend).
  rewrite Hc in Hc'. inversion Hc'; subst. tauto.
Qed.

Lemma deref_loop_sound fuel : forall addr c r t v,
  load d addr = Some c ->
  deref_loop fuel d addr (cell_tag c) (cell_val c) = Ret (r, t, v) ->
  ref_chain d addr r /\
  exists c', load d r = Some c' /\ t = cell_tag c' /\ v = cell_val c'.
Proof.
  induction fuel as [| fuel IH]; intros addr c r t v Hc H; cbn [deref_loop] in H.
  - destruct (Z.eqb_spec (cell_tag c) REF) as [Ht | Ht]; [discriminate |].
    inversion H; subst. split; [eapply chain_end; eauto | eauto].
  - destruct (Z.eqb_spec (cell_tag c) REF) as [Ht | Ht].
    + destruct (load d (cell_val c)) as [tmp |] eqn:Htmp; [| discriminate].
      destruct (Z.eqb_spec (cell_val c) (cell_val tmp)) as [Hv | Hv].
      * inversion H; subst. split; [| eauto].
        destruct (Z.eq_dec (cell_val c) addr) as [Hself | Hself].
        -- rewrite Hself. eapply chain_end; eauto.
        -- eapply chain_next; eauto. eapply chain_end; eauto.
      * destruct (IH _ _ _ _ _ Htmp H) as [Hchain Hcell]. split; [| exact Hcell].
        destruct (Z.eq_dec (cell_val c) addr) as [Hself | Hself].
        -- rewrite Hself in Htmp. rewrite Hc in Htmp. inversion Htmp; subst.
           congruence.
        -- eapply chain_next; eauto.
    + inversion H; subst. split; [eapply chain_end; eauto | eauto].
Qed.

Lemma deref_loop_complete a r :
  ref_chain d a r ->
  forall c, load d a = Some c ->
  exists fuel c', load d r = Some c' /\
    deref_loop fuel d a (cell_tag c) (cell_val c)
      = Ret (r, cell_tag c', cell_val c').
Proof.
  induction 1 as [a c0 Hc0 Hend | a c0 r Hc0 Ht Hv Hr IH]; intros c Hc;
    rewrite Hc0 in Hc; inversion Hc; subst c0.
  - destruct (Z.eqb_spec (cell_tag c) REF) as [Ht | Ht].
    + exists 1%nat, c. split; [assumption |]. cbn [deref_loop].
      destruct (Z.eqb_spec (cell_tag c) REF); [| contradiction].
      assert (Hv : cell_val c = a) by tauto.
      rewrite Hv, Hc0, Hv, Z.eqb_refl. reflexivity.
    + exists 0%nat, c. split; [assumption |]. cbn [deref_loop].
      destruct (Z.eqb_spec (cell_tag c) REF); [contradiction | reflexivity].
  - destruct (ref_chain_start _ _ Hr) as [c2 Hc2].
    destruct (IH _ Hc2) as (fuel & c' & Hc' & Hloop).
    destruct (Z.eqb_spec (cell_val c) (cell_val c2)) as [Hsame | Hdiff].
    + exists 1%nat, c2.
      assert (r = cell_val c) as ->.
      { symmetry. eapply ref_chain_fun; [| exact Hr].
        eapply chain_end; eauto. }
      split; [assumption |]. cbn [deref_loop].
      destruct (Z.eqb_spec (cell_tag c) REF); [| contradiction].
      rewrite Hc2. destruct (Z.eqb_spec (cell_val c) (cell_val c2)); [| contradiction].
      rewrite <- Hsame. reflexivity.
    + exists (S fuel), c'. split; [assumption |]. cbn [deref_loop].
      destruct (Z.eqb_spec (cell_tag c) REF); [| contradiction].
      rewrite Hc2. destruct (Z.eqb_spec (cell_val c) (cell_val c2)); [contradiction |].
      exact Hloop.
Qed.

Lemma deref_loop_mono fuel : forall fuel' addr t v x,
  (fuel <= fuel')%nat ->
  deref_loop fuel d addr t v = Ret x -> deref_loop fuel' d addr t v = Ret x.
Proof.
  induction fuel as [| fuel IH]; intros fuel' addr t v x Hle H.
  - cbn [deref_loop] in H. destruct (Z.eqb_spec t REF) as [Ht | Ht]; [discriminate |].
    destruct fuel'; cbn [deref_loop]; destruct (Z.eqb_spec t REF); congruence.
  - destruct fuel' as [| fuel']; [lia |]. cbn [deref_loop] in *.
    destruct (t =? REF); [| exact H].
    destruct (load d v) as [tmp |]; [| discriminate].
    destruct (v =? cell_val tmp); [exact H |].
    apply IH; [lia | exact H].
Qed.

Lemma deref_walk_sound fuel a r t v :
  deref_walk fuel d a = Ret (r, t, v) ->
  ref_chain d a r /\
  exists c, load d r = Some c /\ t = cell_tag c /\ v = cell_val c.
Proof.
  unfold deref_walk. destruct (load d a) as [c |] eqn:Hc; [| discriminate].
  apply deref_loop_sound. exact Hc.
Qed.

Lemma deref_walk_complete a r :
  ref_chain d a r ->
  exists fuel c, load d r = Some c /\
    deref_walk fuel d a = Ret (r, cell_tag c, cell_val c).
Proof.
  intros H. destruct (ref_chain_start _ _ H) as [c Hc].
  destruct (deref_loop_complete _ _ H _ Hc) as (fuel & c' & Hc' & Hloop).
  exists fuel, c'. split; [assumption |]. unfold deref_walk. rewrite Hc.
  exact Hloop.
Qed.

Lemma deref_walk_mono fuel fuel' a x :
  (fuel <= fuel')%nat ->
  deref_walk fuel d a = Ret x -> deref_walk fuel' d a = Ret x.
Proof.
  unfold deref_walk. intros Hle. destruct (load d a); [| discriminate].
  apply deref_loop_mono. exact Hle.
Qed.

Lemma deref_terminates_chain a :
  deref_terminates d a <-> exists r, ref_chain d a r.
Proof.
  split.
  - intros (fuel & [[r t] v] & H). exists r.
    apply (deref_walk_sound _ _ _ _ _ H).
  - intros [r H]. destruct (deref_walk_complete _ _ H) as (fuel & c & _ & Hw).
    exists fuel. eauto.
Qed.

End Dereference.

(** ** Dereference on the machines *)

Lemma l3deref_sound fuel a s r s' :
  L3.l3deref fuel a s = Ret (r, s') ->
  ref_chain (L3.data s) a r /\
  exists c, load (L3.data s) r = Some c /\
            s' = L3.set_deref (cell_tag c) (cell_val c) s.
Proof.
  unfold L3.l3deref. intros H.
  destruct (deref_walk fuel (L3.data s) a) as [[[r0 t] v] | |] eqn:Hw;
    try discriminate.
  inversion H; subst. clear H.
  destruct (deref_walk_sound _ _ _ _ _ _ Hw) as (Hchain & c & Hc & -> & ->).
  eauto.
Qed.

Lemma l3deref_complete a s r :
  ref_chain (L3.data s) a r ->
  exists fuel c, load (L3.data s) r = Some c /\
    L3.l3deref fuel a s = Ret (r, L3.set_deref (cell_tag c) (cell_val c) s).
Proof.
  intros H. destruct (deref_walk_complete _ _ _ H) as (fuel & c & Hc & Hw).
  exists fuel, c. split; [assumption |]. unfold L3.l3deref. rewrite Hw.
  reflexivity.
Qed.

Lemma l2jitderef_sound fuel a m r m' :
  L2.l2jitderef fuel a m = Ret (r, m') ->
  ref_chain (L2.heapBasePtr (L2.l2state m)) a r /\ m' = m.
Proof.
  unfold L2.l2jitderef. intros H.
  destruct (deref_walk fuel _ a) as [[[r0 t] v] | |] eqn:Hw; try discriminate.
  inversion H; subst. split; [| reflexivity].
  apply (deref_walk_sound _ _ _ _ _ _ Hw).
Qed.

Lemma l2jitderef_complete a m r :
  ref_chain (L2.heapBasePtr (L2.l2state m)) a r ->
  exists fuel, L2.l2jitderef fuel a m = Ret (r, m).
Proof.
  intros H. destruct (deref_walk_complete _ _ _ H) as (fuel & c & Hc & Hw).
  exists fuel. unfold L2.l2jitderef. rewrite Hw. reflexivity.
Qed.

Lemma l2_publish_inv addr m r m' :
  L2.publish addr m = Ret (r, m') ->
  r = addr /\
  exists c, load (L2.heapBasePtr (L2.l2state m)) addr = Some c /\
    m' = L2.mkMachine (L2.l2state m) (cell_tag c) (cell_val c).
Proof.
  unfold L2.publish. destruct (load _ addr) as [c |]; [| discriminate].
  intros H. inversion H; subst. eauto.
Qed.

(** The exported [deref] of the L2 machine: the wrapper does the
    publication that [l2jitderef] leaves out. *)
Lemma l2_deref_sound fuel a m r m' :
  L2.deref fuel a m = Ret (r, m') ->
  ref_chain (L2.heapBasePtr (L2.l2state m)) a r /\
  exists c, load (L2.heapBasePtr (L2.l2state m)) r = Some c /\
    m' = L2.mkMachine (L2.l2state m) (cell_tag c) (cell_val c).
Proof.
  unfold L2.deref. intros H. apply bind_Ret_inv in H as (addr & m1 & H1 & H2).
  apply l2jitderef_sound in H1 as [Hchain ->].
  apply l2_publish_inv in H2 as (-> & c & Hc & ->). eauto.
Qed.

(** What the two dereference functions do.  On the L3 machine,
    [l3deref a] returns [r] exactly when the REF chain from [a] stops at
    [r] (at a cell that is not a REF, or at a free variable), and it leaves
    the tag and the 24-bit value of the cell at [r] in the pseudo-registers
    read by [getDerefTag] and [getDerefVal], changing nothing else.  On the
    L2 machine, [l2jitderef] returns the end of the same chain but leaves
    the machine, pseudo-registers included, as it was; the exported
    [deref] makes up for it and publishes the cell after the call. *)
Theorem deref_follows_ref_chain a r :
  (forall s,
     ref_chain (L3.data s) a r <->
     exists fuel s', L3.l3deref fuel a s = Ret (r, s')) /\
  (forall fuel s s',
     L3.l3deref fuel a s = Ret (r, s') ->
     exists c, load (L3.data s) r = Some c /\
       L3.getDerefTag s' = Ret (cell_tag c, s') /\
       L3.getDerefVal s' = Ret (cell_val c, s') /\
       s' = L3.set_deref (cell_tag c) (cell_val c) s) /\
  (forall m,
     ref_chain (L2.heapBasePtr (L2.l2state m)) a r <->
     exists fuel, L2.l2jitderef fuel a m = Ret (r, m)) /\
  (forall fuel m m',
     L2.deref fuel a m = Ret (r, m') ->
     exists c, load (L2.heapBasePtr (L2.l2state m)) r = Some c /\
       L2.getDerefTag m' = Ret (cell_tag c, m') /\
       L2.getDerefVal m' = Ret (cell_val c, m') /\
       L2.l2state m' = L2.l2state m).
Proof.
  repeat split.
  - intros H. destruct (l3deref_complete _ _ _ H) as (fuel & c & _ & Hd). eauto.
  - intros (fuel & s' & H). apply (l3deref_sound _ _ _ _ _ H).
  - intros fuel s s' H. destruct (l3deref_sound _ _ _ _ _ H) as (_ & c & Hc & ->).
    exists c. auto.
  - intros H. apply l2jitderef_complete. exact H.
  - intros (fuel & H). apply (l2jitderef_sound _ _ _ _ _ H).
  - intros fuel m m' H. destruct (l2_deref_sound _ _ _ _ _ H) as (_ & c & Hc & ->).
    exists c. auto.
Qed.

(** C2 fails on [l2jitderef], which does not do what its own header
    comment says: the two stores into [derefTag] and [derefVal] at its end
    are commented out.  On the example machine [l2jitderef 0] returns
    address 0, whose cell has tag STR and value 11, while the
    pseudo-registers read by [getDerefTag] and [getDerefVal] still hold
    0. *)
Lemma l2jitderef_publishes_nothing :
  exists m',
    L2.l2jitderef 1 0 L2.example_machine = Ret (0, m') /\
    (cell_tag <$> load (L2.heapBasePtr (L2.l2state m')) 0) = Some STR /\
    (cell_val <$> load (L2.heapBasePtr (L2.l2state m')) 0) = Some 11 /\
    returned (L2.getDerefTag m') = Some 0 /\
    returned (L2.getDerefVal m') = Some 0.
Proof.
  exists L2.example_machine. split; [reflexivity |].
  repeat match goal with |- _ /\ _ => split end; vm_compute; reflexivity.
Qed.

Lemma deref_follows_ref_chain_witness :
  exists c, load (L3.data L3.small_state) 1 = Some c /\
    L3.getDerefTag (L3.set_deref REF 1 L3.small_state)
      = Ret (cell_tag c, L3.set_deref REF 1 L3.small_state) /\
    L3.getDerefVal (L3.set_deref REF 1 L3.small_state)
      = Ret (cell_val c, L3.set_deref REF 1 L3.small_state) /\
    L3.set_deref REF 1 L3.small_state
      = L3.set_deref (cell_tag c) (cell_val c) L3.small_state.
Proof.
  apply (proj1 (proj2 (deref_follows_ref_chain 0 1)) 2%nat L3.small_state).
  vm_compute. reflexivity.
Defined.

(** ** Reset *)

(** C6.  After [nativeReset] every cell of the data area reads 0 through
    [getHeap], [hp = sp = REG_SIZE], [ep = esp = REG_SIZE + HEAP_SIZE],
    [up = TOP], write mode is off and the pseudo-registers hold 0. *)
Theorem nativeReset_clears_machine a :
  0 <= a < TOP ->
  L3.getHeap a L3.nativeReset = Ret (0, L3.nativeReset) /\
  L3.hp L3.nativeReset = REG_SIZE /\
  L3.sp L3.nativeReset = REG_SIZE /\
  L3.ep L3.nativeReset = REG_SIZE + HEAP_SIZE /\
  L3.esp L3.nativeReset = REG_SIZE + HEAP_SIZE /\
  L3.up L3.nativeReset = TOP /\
  L3.writeMode L3.nativeReset = false /\
  L3.getDerefTag L3.nativeReset = Ret (0, L3.nativeReset) /\
  L3.getDerefVal L3.nativeReset = Ret (0, L3.nativeReset).
Proof.
  intros Ha. repeat split.
  unfold L3.getHeap, L3.rd. cbn [L3.data L3.nativeReset].
  rewrite load_replicate; [reflexivity |].
  rewrite Z2Nat.id; [exact Ha | unfold TOP, REG_SIZE, HEAP_SIZE, STACK_SIZE, PDL_SIZE; lia].
Qed.

Lemma nativeReset_clears_machine_witness :
  L3.getHeap 21009 L3.nativeReset = Ret (0, L3.nativeReset) /\
  L3.hp L3.nativeReset = REG_SIZE /\
  L3.sp L3.nativeReset = REG_SIZE /\
  L3.ep L3.nativeReset = REG_SIZE + HEAP_SIZE /\
  L3.esp L3.nativeReset = REG_SIZE + HEAP_SIZE /\
  L3.up L3.nativeReset = TOP /\
  L3.writeMode L3.nativeReset = false /\
  L3.getDerefTag L3.nativeReset = Ret (0, L3.nativeReset) /\
  L3.getDerefVal L3.nativeReset = Ret (0, L3.nativeReset).
Proof.
  apply (nativeReset_clears_machine 21009). compute_range.
Defined.

(** ** Stack slots *)

(** C7, as the machines have it.  [derefStack k] is [deref] of the slot
    address: [k + ep + 3] on the L3 machine, whose frames have a header of
    three cells, and [k + ep + 2] on the L2 machine, whose frames keep no
    continuation and have a header of two. *)
Theorem derefStack_is_deref_of_slot fuel k :
  (forall s,
     jint_range (k + L3.ep s) -> jint_range (k + L3.ep s + 3) ->
     L3.derefStack fuel k s = L3.deref fuel (k + L3.ep s + 3) s) /\
  (forall m,
     jint_range (k + L2.ep (L2.l2state m)) ->
     jint_range (k + L2.ep (L2.l2state m) + 2) ->
     L2.derefStack fuel k m = L2.deref fuel (k + L2.ep (L2.l2state m) + 2) m).
Proof.
  split.
  - intros s H1 H2. unfold L3.derefStack, L3.deref, bind, gets.
    rewrite (add32_exact k) by exact H1. rewrite add32_exact by exact H2.
    reflexivity.
  - intros m H1 H2. unfold L2.derefStack, L2.deref, bind, gets.
    rewrite (add32_exact k) by exact H1. rewrite add32_exact by exact H2.
    reflexivity.
Qed.

Lemma derefStack_is_deref_of_slot_witness :
  L3.derefStack 3 0 L3.small_state
    = L3.deref 3 (0 + L3.ep L3.small_state + 3) L3.small_state /\
  L2.derefStack 3 0 L2.example_machine
    = L2.deref 3 (0 + L2.ep (L2.l2state L2.example_machine) + 2)
        L2.example_machine.
Proof.
  split.
  - apply (proj1 (derefStack_is_deref_of_slot 3 0)); compute_range.
  - apply (proj2 (derefStack_is_deref_of_slot 3 0)); compute_range.
Defined.

(** On the L2 machine [derefStack 0] is not [deref (0 + ep + 3)]: slot 0 of
    the example frame refers to the structure in X0 and dereferences to
    address 0, the cell after it is empty and dereferences to itself. *)
Lemma l2_derefStack_is_not_deref_plus_3 :
  returned (L2.derefStack 3 0 L2.example_machine) = Some 0 /\
  returned (L2.deref 3 (0 + L2.ep (L2.l2state L2.example_machine) + 3)
              L2.example_machine) = Some 10013.
Proof. split; vm_compute; reflexivity. Qed.

(** ** The decode loop of the L3 machine *)

Section L3Decode.

Import L3.

Variable fuel : nat.
Variable code : list Z.

Lemma l3step_fetch l s b :
  code_byte code (l_ip l) = Some b ->
  l3step fuel code l s =
  (if b =? PUT_STRUC then do_PUT_STRUC code l
   else if b =? SET_VAR then do_SET_VAR code l
   else if b =? SET_VAL then do_SET_VAL code l
   else if b =? GET_STRUC then do_GET_STRUC fuel code l
   else if b =? UNIFY_VAR then do_UNIFY_VAR code l
   else if b =? UNIFY_VAL then do_UNIFY_VAL fuel code l
   else if b =? PUT_VAR then do_PUT_VAR code l
   else if b =? PUT_VAL then do_PUT_VAL code l
   else if b =? GET_VAR then do_GET_VAR code l
   else if b =? GET_VAL then do_GET_VAL fuel code l
   else if b =? CALL then do_CALL code l
   else if b =? PROCEED then do_PROCEED l
   else if b =? ALLOCATE then do_ALLOCATE code l
   else if b =? DEALLOCATE then do_DEALLOCATE l
   else ret (set_l_failed true l)) s.
Proof. intros H. unfold l3step, bind, defined. rewrite H. reflexivity. Qed.

Lemma l3step_ALLOCATE l s :
  code_byte code (l_ip l) = Some ALLOCATE ->
  l3step fuel code l s = do_ALLOCATE code l s.
Proof. intros H. rewrite (l3step_fetch _ _ _ H). reflexivity. Qed.

Lemma l3step_DEALLOCATE l s :
  code_byte code (l_ip l) = Some DEALLOCATE ->
  l3step fuel code l s = do_DEALLOCATE l s.
Proof. intros H. rewrite (l3step_fetch _ _ _ H). reflexivity. Qed.

Lemma l3step_GET_STRUC l s :
  code_byte code (l_ip l) = Some GET_STRUC ->
  l3step fuel code l s = do_GET_STRUC fuel code l s.
Proof. intros H. rewrite (l3step_fetch _ _ _ H). reflexivity. Qed.

Lemma rd_Ret s a c : load (data s) a = Some c -> rd a s = Ret (c, s).
Proof. unfold rd. intros ->. reflexivity. Qed.

Lemma wr_Ret s a v d' :
  store (data s) a v = Some d' -> wr a v s = Ret (tt, set_data d' s).
Proof. unfold wr. intros ->. reflexivity. Qed.

Lemma rd_inv s a c s' :
  rd a s = Ret (c, s') -> load (data s) a = Some c /\ s' = s.
Proof.
  unfold rd. destruct (load (data s) a) as [c0 |]; [| discriminate].
  cbn. intros H. inversion H. auto.
Qed.

Lemma wr_inv s a v u s' :
  wr a v s = Ret (u, s') ->
  exists d', store (data s) a v = Some d' /\ s' = set_data d' s.
Proof.
  unfold wr. destruct (store (data s) a v) as [d' |]; [| discriminate].
  intros H. inversion H. eauto.
Qed.

Lemma execute_loop_step n l s :
  l_failed l = false -> l_ip l < Z.of_nat (length code) ->
  execute_loop fuel (S n) code l s
  = bind (l3step fuel code l) (execute_loop fuel n code) s.
Proof.
  intros Hf Hip. cbn [execute_loop]. rewrite Hf.
  destruct (Z.ltb_spec (l_ip l) (Z.of_nat (length code))); [reflexivity | lia].
Qed.

Lemma execute_loop_done n l s :
  l_failed l = true \/ Z.of_nat (length code) <= l_ip l ->
  execute_loop fuel n code l s = Ret (l, s).
Proof.
  intros H. destruct n; cbn [execute_loop];
    destruct (l_failed l); cbn [negb andb]; try reflexivity;
    destruct (Z.ltb_spec (l_ip l) (Z.of_nat (length code)));
    try reflexivity; destruct H; try discriminate; lia.
Qed.

(** The operand decoding shared by the instructions with a register or
    stack-slot argument. *)
Lemma operand_Ret l s mode x :
  code_byte code (add32 (l_ip l) 1) = Some mode ->
  code_byte code (add32 (l_ip l) 2) = Some x ->
  operand code l s
  = Ret (add32 x (if mode =? STACK_ADDR then add32 (l_ep l) 3 else 0), s).
Proof.
  intros Hm Hx. unfold operand, fetch, bind, defined. rewrite Hm, Hx.
  reflexivity.
Qed.

End L3Decode.

(** ** Environment frames *)

(** C3, as the machine has it: [DEALLOCATE] sets [esp] to [ep] and restores
    [ep] from the first header cell of the current frame; [cp] and all other
    locals but [ip] keep their value and the data area is not written.  When
    the frame is the outermost one (its saved [ep] is [ep] itself), [ip] is
    the continuation saved in its header. *)
Theorem DEALLOCATE_restores_ep fuel code l s prev i :
  code_byte code (L3.l_ip l) = Some DEALLOCATE ->
  load (L3.data s) (L3.l_ep l) = Some prev ->
  load (L3.data s) (add32 prev 1) = Some i ->
  exists l',
    L3.l3step fuel code l s = Ret (l', s) /\
    L3.l_ep l' = prev /\
    L3.l_esp l' = L3.l_ep l /\
    L3.l_cp l' = L3.l_cp l /\
    L3.l_hp l' = L3.l_hp l /\
    L3.l_sp l' = L3.l_sp l /\
    L3.l_writeMode l' = L3.l_writeMode l /\
    L3.l_failed l' = L3.l_failed l /\
    (prev = L3.l_ep l ->
     load (L3.data s) (add32 (L3.l_ep l) 1) = Some (L3.l_ip l')).
Proof.
  intros Hop Hprev Hi. eexists. split.
  - rewrite l3step_DEALLOCATE by exact Hop. unfold L3.do_DEALLOCATE.
    rewrite (bind_Ret _ _ _ _ _ (rd_Ret _ _ _ Hprev)).
    rewrite (bind_Ret _ _ _ _ _ (rd_Ret _ _ _ Hi)). reflexivity.
  - cbn. repeat split. intros <-. exact Hi.
Qed.

Lemma DEALLOCATE_restores_ep_witness :
  exists l',
    L3.l3step 0 [DEALLOCATE] L3.at_outer_frame L3.nested_frames
      = Ret (l', L3.nested_frames) /\
    L3.l_ep l' = 0 /\
    L3.l_esp l' = L3.l_ep L3.at_outer_frame /\
    L3.l_cp l' = L3.l_cp L3.at_outer_frame /\
    L3.l_hp l' = L3.l_hp L3.at_outer_frame /\
    L3.l_sp l' = L3.l_sp L3.at_outer_frame /\
    L3.l_writeMode l' = L3.l_writeMode L3.at_outer_frame /\
    L3.l_failed l' = L3.l_failed L3.at_outer_frame /\
    (0 = L3.l_ep L3.at_outer_frame ->
     load (L3.data L3.nested_frames) (add32 (L3.l_ep L3.at_outer_frame) 1)
       = Some (L3.l_ip l')).
Proof.
  apply (DEALLOCATE_restores_ep 0 [DEALLOCATE] L3.at_outer_frame
           L3.nested_frames 0 99); vm_compute; reflexivity.
Defined.

(** The claim fails in the inner of two nested frames: the frame being
    popped holds continuation 7, but [DEALLOCATE] leaves [cp] at 50 and sets
    [ip] to 99, the continuation of the outer frame. *)
Lemma DEALLOCATE_reads_the_restored_frame :
  load (L3.data L3.nested_frames) (L3.l_ep L3.in_inner_frame + 1) = Some 7 /\
  exists l' s',
    L3.l3step 0 [DEALLOCATE] L3.in_inner_frame L3.nested_frames = Ret (l', s') /\
    L3.l_cp l' = 50 /\ L3.l_ip l' = 99.
Proof.
  split; [vm_compute; reflexivity |].
  eexists _, _. split; [vm_compute; reflexivity |].
  split; reflexivity.
Qed.

(** C5.  [ALLOCATE n] followed at once by [DEALLOCATE] restores [ep], [cp]
    and [esp]: both instructions execute (the three header cells at [esp]
    and the cell after the old [ep] lie inside the data area), and the
    values of the three pointers afterwards are those before [ALLOCATE]. *)
Theorem ALLOCATE_DEALLOCATE_restores fuel code l s n :
  code_byte code (L3.l_ip l) = Some ALLOCATE ->
  code_byte code (add32 (L3.l_ip l) 1) = Some n ->
  code_byte code (add32 (L3.l_ip l) 2) = Some DEALLOCATE ->
  Z.of_nat (length (L3.data s)) <= 2147483647 ->
  0 <= L3.l_esp l -> L3.l_esp l + 2 < Z.of_nat (length (L3.data s)) ->
  0 <= L3.l_ep l + 1 < Z.of_nat (length (L3.data s)) ->
  exists l1 s1 l2,
    L3.l3step fuel code l s = Ret (l1, s1) /\
    L3.l3step fuel code l1 s1 = Ret (l2, s1) /\
    L3.l_ep l2 = L3.l_ep l /\
    L3.l_cp l2 = L3.l_cp l /\
    L3.l_esp l2 = L3.l_esp l.
Proof.
  intros Hop Hn Hnext Hlen Hesp0 Hesp2 Hep.
  set (esp := L3.l_esp l) in *.
  assert (E1 : add32 esp 1 = esp + 1) by (apply add32_exact; unfold jint_range; lia).
  assert (E2 : add32 esp 2 = esp + 2) by (apply add32_exact; unfold jint_range; lia).
  assert (E3 : add32 (L3.l_ep l) 1 = L3.l_ep l + 1)
    by (apply add32_exact; unfold jint_range; lia).
  destruct (store (L3.data s) esp (L3.l_ep l)) as [d1 |] eqn:S1;
    [| rewrite store_in_range in S1 by lia; discriminate].
  pose proof (store_length _ _ _ _ S1) as L1.
  destruct (store d1 (esp + 1) (L3.l_cp l)) as [d2 |] eqn:S2;
    [| rewrite store_in_range in S2 by lia; discriminate].
  pose proof (store_length _ _ _ _ S2) as L2.
  destruct (store d2 (esp + 2) n) as [d3 |] eqn:S3;
    [| rewrite store_in_range in S3 by lia; discriminate].
  pose proof (store_length _ _ _ _ S3) as L3'.
  assert (Hprev : load d3 esp = Some (L3.l_ep l)).
  { rewrite (load_store_ne _ _ _ _ esp S3) by lia.
    rewrite (load_store_ne _ _ _ _ esp S2) by lia.
    apply (load_store_eq _ _ _ _ S1). }
  destruct (load_in_range d3 (L3.l_ep l + 1)) as [i Hi]; [lia |].
  exists (L3.set_l_ip (add32 (L3.l_ip l) 2)
            (L3.set_l_env esp (add32 (add32 esp n) 3) l)),
         (L3.set_data d3 s),
         (L3.set_l_ip i (L3.set_l_env (L3.l_ep l) esp
            (L3.set_l_ip (add32 (L3.l_ip l) 2)
               (L3.set_l_env esp (add32 (add32 esp n) 3) l)))).
  split; [| split].
  - rewrite l3step_ALLOCATE by exact Hop. unfold L3.do_ALLOCATE, L3.fetch.
    unfold bind at 1. unfold defined. rewrite Hn. cbn [ret].
    fold esp. rewrite E1, E2.
    rewrite (bind_Ret _ _ _ _ _ (wr_Ret s _ _ _ S1)).
    rewrite (bind_Ret _ _ _ _ _ (wr_Ret (L3.set_data d1 s) _ _ _ S2)).
    rewrite (bind_Ret _ _ _ _ _ (wr_Ret (L3.set_data d2 (L3.set_data d1 s)) _ _ _ S3)).
    reflexivity.
  - rewrite l3step_DEALLOCATE by exact Hnext. unfold L3.do_DEALLOCATE.
    cbn [L3.l_ep L3.set_l_ip L3.set_l_env].
    rewrite (bind_Ret _ _ _ _ _ (rd_Ret (L3.set_data d3 s) _ _ Hprev)).
    rewrite E3.
    rewrite (bind_Ret _ _ _ _ _ (rd_Ret (L3.set_data d3 s) _ _ Hi)).
    reflexivity.
  - repeat split.
Qed.

Lemma ALLOCATE_DEALLOCATE_restores_witness :
  exists l1 s1 l2,
    L3.l3step 0 [ALLOCATE; 2; DEALLOCATE] L3.at_outer_frame L3.nested_frames
      = Ret (l1, s1) /\
    L3.l3step 0 [ALLOCATE; 2; DEALLOCATE] l1 s1 = Ret (l2, s1) /\
    L3.l_ep l2 = L3.l_ep L3.at_outer_frame /\
    L3.l_cp l2 = L3.l_cp L3.at_outer_frame /\
    L3.l_esp l2 = L3.l_esp L3.at_outer_frame.
Proof.
  apply (ALLOCATE_DEALLOCATE_restores 0 [ALLOCATE; 2; DEALLOCATE]
           L3.at_outer_frame L3.nested_frames 2);
    try (vm_compute; reflexivity); try (vm_compute; discriminate);
    compute_range.
Defined.

(** ** Structure matching *)

Section GetStruc.

Import L3.

Variables (code : list Z) (l : locals) (s : l3MachineState).
Variables (mode x f_n : Z).

Hypothesis Hop : code_byte code (l_ip l) = Some GET_STRUC.
Hypothesis Hmode : code_byte code (add32 (l_ip l) 1) = Some mode.
Hypothesis Hx : code_byte code (add32 (l_ip l) 2) = Some x.
Hypothesis Hfn : code_jint code (l_ip l + 3) = Some f_n.

Let xi : Z := add32 x (if mode =? STACK_ADDR then add32 (l_ep l) 3 else 0).

(** [GET_STRUC] up to the [switch] on the dereferenced tag. *)
Lemma do_GET_STRUC_deref fuel addr s1 :
  l3deref fuel xi s = Ret (addr, s1) ->
  l3step fuel code l s
  = (l' <- (if derefTag s1 =? REF then
              wr (l_hp l) (mk_cell STR (add32 (l_hp l) 1)) ;;
              wr (add32 (l_hp l) 1) f_n ;;
              wr addr (mk_cell REF (l_hp l)) ;;
              ret (set_l_writeMode true (set_l_hp (add32 (l_hp l) 2) l))
            else if derefTag s1 =? STR then
              c <- rd (derefVal s1) ;;
              if c =? f_n
              then ret (set_l_writeMode false
                          (set_l_sp (add32 (derefVal s1) 1) l))
              else ret (set_l_failed true l)
            else ret l) ;;
     ret (set_l_ip (add32 (l_ip l') 7) l'))%machine s1.
Proof using Hop Hmode Hx Hfn.
  intros Hd. rewrite (l3step_GET_STRUC _ _ _ _ Hop). unfold do_GET_STRUC.
  rewrite (bind_Ret _ _ _ _ _ (operand_Ret _ _ _ _ _ Hmode Hx)).
  unfold fetch_jint. rewrite Hfn. unfold defined.
  unfold bind at 1. cbn [ret]. fold xi.
  rewrite (bind_Ret _ _ _ _ _ Hd). reflexivity.
Qed.

(** A register that holds neither a REF nor a STR: the instruction only
    moves [ip] on and records the dereference. *)
Lemma GET_STRUC_other_tag fuel c :
  load (data s) xi = Some c ->
  cell_tag c <> REF -> cell_tag c <> STR ->
  l3step fuel code l s
  = Ret (set_l_ip (add32 (l_ip l) 7) l, set_deref (cell_tag c) (cell_val c) s).
Proof using Hop Hmode Hx Hfn.
  intros Hc HR HS.
  assert (Hd : l3deref fuel xi s
               = Ret (xi, set_deref (cell_tag c) (cell_val c) s)).
  { unfold l3deref, deref_walk. rewrite Hc.
    destruct fuel; cbn [deref_loop];
      destruct (Z.eqb_spec (cell_tag c) REF); try contradiction; reflexivity. }
  rewrite (do_GET_STRUC_deref _ _ _ Hd). cbn [derefTag derefVal set_deref].
  destruct (Z.eqb_spec (cell_tag c) REF); [contradiction |].
  destruct (Z.eqb_spec (cell_tag c) STR); [contradiction |].
  reflexivity.
Qed.

(** A register that dereferences to a free variable at [d]: the structure
    header and the functor cell are written at [hp] and [hp + 1], the
    variable is bound to the header and write mode is switched on. *)
Lemma GET_STRUC_free_variable d c :
  ref_chain (data s) xi d ->
  load (data s) d = Some c -> cell_tag c = REF ->
  Z.of_nat (length (data s)) <= 16777216 ->
  0 <= l_hp l -> l_hp l + 1 < Z.of_nat (length (data s)) ->
  d <> l_hp l -> d <> l_hp l + 1 ->
  exists fuel l' s',
    l3step fuel code l s = Ret (l', s') /\
    l_writeMode l' = true /\
    l_failed l' = l_failed l /\
    l_hp l' = l_hp l + 2 /\
    load (data s') d = Some (mk_cell REF (l_hp l)) /\
    load (data s') (l_hp l) = Some (mk_cell STR (l_hp l + 1)) /\
    load (data s') (l_hp l + 1) = Some f_n.
Proof using Hop Hmode Hx Hfn.
  intros Hchain Hc Ht Hlen Hhp0 Hhp1 Hd0 Hd1.
  destruct (l3deref_complete _ _ _ Hchain) as (fuel & c' & Hc' & Hderef).
  rewrite Hc in Hc'. inversion Hc'; subst c'. clear Hc'.
  pose proof (load_Some_range _ _ _ Hc) as Hdr.
  set (hp := l_hp l) in *.
  assert (E1 : add32 hp 1 = hp + 1) by (apply add32_exact; unfold jint_range; lia).
  assert (E2 : add32 hp 2 = hp + 2) by (apply add32_exact; unfold jint_range; lia).
  destruct (store (data s) hp (mk_cell STR (hp + 1))) as [d1 |] eqn:S1;
    [| rewrite store_in_range in S1 by lia; discriminate].
  pose proof (store_length _ _ _ _ S1) as L1.
  destruct (store d1 (hp + 1) f_n) as [d2 |] eqn:S2;
    [| rewrite store_in_range in S2 by lia; discriminate].
  pose proof (store_length _ _ _ _ S2) as L2.
  destruct (store d2 d (mk_cell REF hp)) as [d3 |] eqn:S3;
    [| rewrite store_in_range in S3 by lia; discriminate].
  set (s1 := set_deref (cell_tag c) (cell_val c) s) in *.
  exists fuel,
    (set_l_ip (add32 (l_ip l) 7)
       (set_l_writeMode true (set_l_hp (hp + 2) l))),
    (set_data d3 s1).
  split; [| cbn [set_data data]; repeat split].
  - rewrite (do_GET_STRUC_deref _ _ _ Hderef).
    cbn [derefTag set_deref s1]. rewrite Ht. cbn [Z.eqb REF Pos.eqb].
    fold hp. rewrite E1, E2.
    unfold bind at 1.
    rewrite (bind_Ret _ _ _ _ _ (wr_Ret s1 _ _ _ S1)).
    rewrite (bind_Ret _ _ _ _ _ (wr_Ret (set_data d1 s1) _ _ _ S2)).
    rewrite (bind_Ret _ _ _ _ _ (wr_Ret (set_data d2 (set_data d1 s1)) _ _ _ S3)).
    reflexivity.
  - apply (load_store_eq _ _ _ _ S3).
  - rewrite (load_store_ne _ _ _ _ hp S3) by lia.
    rewrite (load_store_ne _ _ _ _ hp S2) by lia.
    apply (load_store_eq _ _ _ _ S1).
  - rewrite (load_store_ne _ _ _ _ (hp + 1) S3) by lia.
    apply (load_store_eq _ _ _ _ S2).
Qed.

End GetStruc.

(** [execute] on the single instruction [GET_STRUC X0, f/n] when X0 holds a
    cell that is neither a REF nor a STR. *)
Lemma execute_GET_STRUC_other_tag n s b0 b1 b2 b3 c :
  load (L3.data s) 0 = Some c ->
  cell_tag c <> REF -> cell_tag c <> STR ->
  L3.execute (S n) [GET_STRUC; REG_ADDR; 0; b0; b1; b2; b3] 0 s
  = Ret (true,
         L3.preserve
           (L3.mkLocals (L3.hp s) (L3.sp s) (L3.writeMode s) 7 7
                        (L3.ep s) (L3.esp s) false)
           (L3.set_deref (cell_tag c) (cell_val c) (L3.set_up TOP s))).
Proof.
  intros Hc HR HS.
  set (code := [GET_STRUC; REG_ADDR; 0; b0; b1; b2; b3]).
  set (l0 := L3.mkLocals (L3.hp s) (L3.sp s) (L3.writeMode s) 0 7
                         (L3.ep s) (L3.esp s) false).
  assert (Hstep : L3.l3step (S n) code l0 (L3.set_up TOP s)
                  = Ret (L3.set_l_ip (add32 (L3.l_ip l0) 7) l0,
                         L3.set_deref (cell_tag c) (cell_val c)
                                      (L3.set_up TOP s))).
  { apply (GET_STRUC_other_tag code l0 (L3.set_up TOP s) REG_ADDR 0
             (jint (b0 mod 256 + 256 * (b1 mod 256) + 65536 * (b2 mod 256)
                    + 16777216 * (b3 mod 256))));
      try reflexivity; assumption. }
  unfold L3.execute, bind at 1, gets.
  unfold bind at 1, L3.l3uClear, modify.
  change (Z.of_nat (length [GET_STRUC; REG_ADDR; 0; b0; b1; b2; b3])) with 7.
  fold code. fold l0.
  unfold bind at 1.
  rewrite execute_loop_step by (cbn; reflexivity || lia).
  rewrite (bind_Ret _ _ _ _ _ Hstep).
  rewrite execute_loop_done by (right; vm_compute; discriminate).
  reflexivity.
Qed.

(** C4, as the machine has it.  Straight after [nativeReset] register X0
    holds the cell 0, whose tag is neither REF nor STR: [execute] of the
    single instruction [GET_STRUC X0, f/n] returns true but builds nothing,
    and X0, [hp] and write mode stay as they were.  When the register
    operand dereferences to a free variable at [d] (a REF cell below [hp]),
    the instruction writes the STR header at [hp] and the functor cell at
    [hp + 1], binds [d] to the header, advances [hp] by 2, does not fail and
    switches write mode on. *)
Theorem GET_STRUC_matches_free_variable code l s mode x f_n d c :
  code_byte code (L3.l_ip l) = Some GET_STRUC ->
  code_byte code (add32 (L3.l_ip l) 1) = Some mode ->
  code_byte code (add32 (L3.l_ip l) 2) = Some x ->
  code_jint code (L3.l_ip l + 3) = Some f_n ->
  ref_chain (L3.data s)
    (add32 x (if mode =? STACK_ADDR then add32 (L3.l_ep l) 3 else 0)) d ->
  load (L3.data s) d = Some c -> cell_tag c = REF ->
  Z.of_nat (length (L3.data s)) <= 16777216 ->
  0 <= L3.l_hp l -> L3.l_hp l + 1 < Z.of_nat (length (L3.data s)) ->
  d <> L3.l_hp l -> d <> L3.l_hp l + 1 ->
  (exists fuel l' s',
     L3.l3step fuel code l s = Ret (l', s') /\
     L3.l_writeMode l' = true /\
     L3.l_failed l' = L3.l_failed l /\
     L3.l_hp l' = L3.l_hp l + 2 /\
     load (L3.data s') d = Some (mk_cell REF (L3.l_hp l)) /\
     load (L3.data s') (L3.l_hp l) = Some (mk_cell STR (L3.l_hp l + 1)) /\
     load (L3.data s') (L3.l_hp l + 1) = Some f_n) /\
  (forall n b0 b1 b2 b3,
     exists s',
       L3.execute (S n) [GET_STRUC; REG_ADDR; 0; b0; b1; b2; b3] 0 L3.nativeReset
         = Ret (true, s') /\
       L3.data s' = L3.data L3.nativeReset /\
       L3.hp s' = REG_SIZE /\
       L3.writeMode s' = false).
Proof.
  intros Hop Hmode Hx Hfn Hchain Hc Ht Hlen Hhp0 Hhp1 Hd0 Hd1. split.
  - eapply GET_STRUC_free_variable; eauto.
  - intros n b0 b1 b2 b3. eexists. split.
    + apply (execute_GET_STRUC_other_tag n L3.nativeReset b0 b1 b2 b3 0).
      * apply load_replicate. vm_compute. split; [discriminate | reflexivity].
      * vm_compute. discriminate.
      * vm_compute. discriminate.
    + repeat split.
Qed.

Lemma GET_STRUC_matches_free_variable_witness :
  (exists fuel l' s',
     L3.l3step fuel L3.GET_STRUC_X0 L3.at_GET_STRUC L3.free_X0 = Ret (l', s') /\
     L3.l_writeMode l' = true /\
     L3.l_failed l' = L3.l_failed L3.at_GET_STRUC /\
     L3.l_hp l' = L3.l_hp L3.at_GET_STRUC + 2 /\
     load (L3.data s') 1 = Some (mk_cell REF (L3.l_hp L3.at_GET_STRUC)) /\
     load (L3.data s') (L3.l_hp L3.at_GET_STRUC)
       = Some (mk_cell STR (L3.l_hp L3.at_GET_STRUC + 1)) /\
     load (L3.data s') (L3.l_hp L3.at_GET_STRUC + 1) = Some 0x500) /\
  (forall n b0 b1 b2 b3,
     exists s',
       L3.execute (S n) [GET_STRUC; REG_ADDR; 0; b0; b1; b2; b3] 0 L3.nativeReset
         = Ret (true, s') /\
       L3.data s' = L3.data L3.nativeReset /\
       L3.hp s' = REG_SIZE /\
       L3.writeMode s' = false).
Proof.
  apply (GET_STRUC_matches_free_variable L3.GET_STRUC_X0 L3.at_GET_STRUC
           L3.free_X0 REG_ADDR 0 0x500 1 (mk_cell REF 1));
    try (vm_compute; reflexivity); try (vm_compute; discriminate).
  apply (chain_next _ _ (mk_cell REF 1)); try (vm_compute; reflexivity);
    try (vm_compute; discriminate).
  apply (chain_end _ _ (mk_cell REF 1)); [vm_compute; reflexivity |].
  right. vm_compute. reflexivity.
Defined.

(** The claim fails on the reset machine: [GET_STRUC X0, f/0] returns true,
    but X0 still holds 0 (no STR, no REF to one) and write mode is off. *)
Lemma GET_STRUC_after_reset_builds_nothing :
  exists s',
    L3.execute 1 L3.GET_STRUC_X0 0 L3.nativeReset = Ret (true, s') /\
    load (L3.data s') 0 = Some 0 /\
    L3.writeMode s' = false.
Proof.
  eexists. split.
  - apply (execute_GET_STRUC_other_tag 0 L3.nativeReset 0 5 0 0 0).
    + apply load_replicate. compute_range.
    + vm_compute. discriminate.
    + vm_compute. discriminate.
  - split; [| reflexivity]. cbn [L3.data L3.preserve L3.set_deref L3.set_up].
    apply load_replicate. compute_range.
Qed.

(** ** Unknown opcodes *)

Lemma l3step_unknown_opcode fuel code l s b :
  code_byte code (L3.l_ip l) = Some b ->
  b < PUT_STRUC \/ DEALLOCATE < b ->
  L3.l3step fuel code l s = Ret (L3.set_l_failed true l, s).
Proof.
  intros Hb Hun. rewrite (l3step_fetch _ _ _ _ _ Hb).
  unfold PUT_STRUC, SET_VAR, SET_VAL, GET_STRUC, UNIFY_VAR, UNIFY_VAL,
    PUT_VAR, PUT_VAL, GET_VAR, GET_VAL, CALL, PROCEED, ALLOCATE, DEALLOCATE in *.
  repeat match goal with
         | |- context [?u =? ?v] =>
             destruct (Z.eqb_spec u v) as [E | E]; [exfalso; lia | clear E]
         end.
  reflexivity.
Qed.

(** Once the decode loop of the L3 machine is in front of a byte that is no
    opcode, it leaves with [failed] set, and [execute] returns false. *)
Lemma l3execute_loop_unknown_opcode fuel code k l0 s0 l s b :
  L3.loop_reaches fuel code k l0 s0 l s ->
  L3.l_failed l = false ->
  L3.l_ip l < Z.of_nat (length code) ->
  code_byte code (L3.l_ip l) = Some b ->
  b < PUT_STRUC \/ DEALLOCATE < b ->
  forall m, (k < m)%nat ->
    L3.execute_loop fuel m code l0 s0 = Ret (L3.set_l_failed true l, s).
Proof.
  intros Hreach Hf Hip Hb Hun.
  induction Hreach as [l s | k l s l1 s1 l' s' Hf0 Hip0 Hstep Hreach IH];
    intros m Hm; (destruct m as [| m]; [lia |]);
    rewrite execute_loop_step by assumption.
  - rewrite (bind_Ret _ _ _ _ _ (l3step_unknown_opcode fuel code l s b Hb Hun)).
    apply execute_loop_done. left. reflexivity.
  - rewrite (bind_Ret _ _ _ _ _ Hstep). apply IH; auto. lia.
Qed.

(** The [default] case of the L3 machine: when [execute] has decoded [k]
    instructions and is then in front of a byte that is none of the
    fourteen opcodes, it returns false, and the machine is left as those
    [k] instructions made it. *)
Lemma l3execute_unknown_opcode fuel code offset s0 k l s b :
  L3.loop_reaches fuel code k (L3.entry_locals code offset s0)
    (L3.set_up TOP s0) l s ->
  L3.l_failed l = false ->
  L3.l_ip l < Z.of_nat (length code) ->
  code_byte code (L3.l_ip l) = Some b ->
  b < PUT_STRUC \/ DEALLOCATE < b ->
  (k < fuel)%nat ->
  L3.execute fuel code offset s0
  = Ret (false, L3.preserve (L3.set_l_failed true l) s).
Proof.
  intros Hreach Hf Hip Hb Hun Hk.
  unfold L3.execute, bind at 1, gets.
  unfold bind at 1, L3.l3uClear, modify.
  fold (L3.entry_locals code offset s0).
  rewrite (bind_Ret _ _ _ _ _
             (l3execute_loop_unknown_opcode _ _ _ _ _ _ _ _
                Hreach Hf Hip Hb Hun fuel Hk)).
  reflexivity.
Qed.

(** The lowering loop of the L2 machine in front of a byte that is no
    opcode: a [ret 0] is emitted and compilation of the fragment stops. *)
Lemma l2_codeAdded_unknown_opcode linked n code limit c b :
  L2.c_stop c = false ->
  L2.c_ip c < limit ->
  code_byte code (L2.c_ip c) = Some b ->
  b < PUT_STRUC \/ DEALLOCATE < b ->
  L2.codeAdded_loop linked (S n) code limit c
  = Some (L2.mkCompilation (L2.c_ip c) true (L2.c_out c ++ [L2.CreateRet 0])).
Proof.
  intros Hs Hip Hb Hun. cbn [L2.codeAdded_loop]. rewrite Hs.
  destruct (Z.ltb_spec (L2.c_ip c) limit) as [_ | Hge]; [| lia].
  cbn [andb negb]. unfold L2.lower. rewrite Hb.
  unfold PUT_STRUC, SET_VAR, SET_VAL, GET_STRUC, UNIFY_VAR, UNIFY_VAL,
    PUT_VAR, PUT_VAL, GET_VAR, GET_VAL, CALL, PROCEED, ALLOCATE, DEALLOCATE in *.
  repeat match goal with
         | |- context [?u =? ?v] =>
             destruct (Z.eqb_spec u v) as [E | E]; [exfalso; lia | clear E]
         end.
  cbn [orb]. destruct n; cbn [L2.codeAdded_loop L2.c_stop L2.c_ip];
    rewrite andb_false_r; reflexivity.
Qed.

(** The decode loop of the L0 machine has no [default] case: a byte that is
    no opcode is skipped together with the register byte after it. *)
Lemma l0step_unknown_opcode fuel code l s b Xi :
  code_byte code (L0.l_ip l) = Some b ->
  code_byte code (add32 (L0.l_ip l) 1) = Some Xi ->
  b < PUT_STRUC \/ UNIFY_VAL < b ->
  L0.l0step fuel code l s
  = Ret (L0.mkLocals (L0.l_hp l) (L0.l_sp l) (L0.l_writeMode l)
                     (add32 (add32 (L0.l_ip l) 1) 1) (L0.l_failed l), s).
Proof.
  intros Hb HXi Hun. unfold L0.l0step, bind at 1, defined. rewrite Hb.
  cbn [ret]. unfold bind at 1. rewrite HXi. cbn [ret].
  unfold PUT_STRUC, SET_VAR, SET_VAL, GET_STRUC, UNIFY_VAR, UNIFY_VAL in *.
  repeat match goal with
         | |- context [?u =? ?v] =>
             destruct (Z.eqb_spec u v) as [E | E]; [exfalso; lia | clear E]
         end.
  reflexivity.
Qed.

(** C8 on the L0 machine: [execute] on the two bytes [0xFF 0x00] returns
    true, from every machine state. *)
Theorem l0_execute_ignores_unknown_opcode s :
  L0.execute 1 [0xFF; 0x00] s
  = Ret (true,
         L0.preserve (L0.mkLocals (L0.hp s) (L0.sp s) (L0.writeMode s) 2 false)
                     (L0.set_up (-1) s)).
Proof.
  set (l0 := L0.mkLocals (L0.hp s) (L0.sp s) (L0.writeMode s) 0 false).
  assert (Hstep : L0.l0step 1 [0xFF; 0x00] l0 (L0.set_up (-1) s)
                  = Ret (L0.mkLocals (L0.hp s) (L0.sp s) (L0.writeMode s) 2 false,
                         L0.set_up (-1) s)).
  { apply (l0step_unknown_opcode 1 [0xFF; 0x00] l0 (L0.set_up (-1) s) (-1) 0);
      [reflexivity | reflexivity | left; reflexivity]. }
  unfold L0.execute, bind at 1, gets.
  unfold bind at 1, L0.uClear, modify. fold l0.
  unfold bind at 1. cbn [L0.execute_loop].
  change (negb (L0.l_failed l0) && (L0.l_ip l0 <? Z.of_nat (length [0xFF; 0x00])))
    with true. cbn match.
  rewrite (bind_Ret _ _ _ _ _ Hstep). reflexivity.
Qed.

(** ** The push-down list of the L3 machine *)

Lemma store_None d a v :
  a < 0 \/ Z.of_nat (length d) <= a -> store d a v = None.
Proof.
  intros H. unfold store.
  destruct (Z.leb_spec 0 a) as [H0 | H0],
           (Z.ltb_spec a (Z.of_nat (length d))) as [H1 | H1];
    cbn [andb]; auto; lia.
Qed.

Lemma pdl_push_inv d u v d' u' :
  pdl_push d u v = Some (d', u') ->
  store d (u - 1) v = Some d' /\ u' = u - 1 /\
  length d' = length d /\ 0 <= u - 1 < Z.of_nat (length d).
Proof.
  unfold pdl_push. destruct (store d (u - 1) v) as [d0 |] eqn:S; [| discriminate].
  intros H. inversion H; subst. pose proof (store_inv _ _ _ _ S) as [Hr _].
  pose proof (store_length _ _ _ _ S). auto.
Qed.

Lemma pdl_push_list_length vs : forall d u d' u',
  pdl_push_list d u vs = Some (d', u') ->
  length d' = length d /\ u' = u - Z.of_nat (length vs).
Proof.
  induction vs as [| v vs IH]; intros d u d' u' H; cbn [pdl_push_list] in H.
  - inversion H; subst. cbn [length]. split; [reflexivity | lia].
  - destruct (pdl_push d u v) as [[d1 u1] |] eqn:P; [| discriminate].
    apply pdl_push_inv in P as (_ & -> & L & _).
    apply IH in H as [L' ->]. cbn [length]. split; [congruence | lia].
Qed.

Section L3Unify.

Import L3.

Lemma l3uPush_eq s v :
  addressable s ->
  l3uPush v s
  = match pdl_push (data s) (up s) v with
    | Some (d', u') => Ret (tt, set_data d' (set_up u' s))
    | None => Undef
    end.
Proof.
  intros [Hlen Hup]. unfold l3uPush, bind, gets, modify, wr, pdl_push.
  cbn [data set_up]. unfold jint_range in Hup.
  destruct (Z.eq_dec (up s) (-2147483648)) as [E | E].
  - rewrite E. rewrite !store_None; [reflexivity | left; lia |].
    right. change (add32 (-2147483648) (-1)) with 2147483647. lia.
  - rewrite add32_exact by (unfold jint_range; lia).
    replace (up s + -1) with (up s - 1) by lia.
    destruct (store (data s) (up s - 1) v); reflexivity.
Qed.

Lemma l3uPop_eq s :
  Z.of_nat (length (data s)) <= 16777216 ->
  l3uPop s
  = match load (data s) (up s) with
    | Some v => Ret (v, set_up (up s + 1) s)
    | None => Undef
    end.
Proof.
  intros Hlen. unfold l3uPop, bind, gets, modify, rd, defined.
  destruct (load (data s) (up s)) as [v |] eqn:Hv; [| reflexivity].
  apply load_Some_range in Hv. cbn [ret].
  rewrite add32_exact by (unfold jint_range; lia). reflexivity.
Qed.

Lemma push_args_eq k : forall i v1 v2 s,
  addressable s ->
  0 <= v1 < 16777216 -> 0 <= v2 < 16777216 ->
  0 <= i -> i + Z.of_nat k <= 1024 ->
  push_args k i v1 v2 s
  = match pdl_push_list (data s) (up s) (arg_pairs_from k i v1 v2) with
    | Some (d', u') => Ret (tt, set_data d' (set_up u' s))
    | None => Undef
    end.
Proof.
  induction k as [| k IH]; intros i v1 v2 s Hs Hv1 Hv2 Hi Hk.
  - cbn [push_args arg_pairs_from pdl_push_list]. unfold ret.
    destruct s; reflexivity.
  - cbn [push_args arg_pairs_from pdl_push_list].
    rewrite !add32_exact by (unfold jint_range; lia).
    unfold bind at 1. rewrite l3uPush_eq by exact Hs.
    destruct (pdl_push (data s) (up s) (v1 + i)) as [[d1 u1] |] eqn:P1;
      [| reflexivity].
    pose proof (pdl_push_inv _ _ _ _ _ P1) as (_ & -> & L1 & R1).
    assert (Hs1 : addressable (set_data d1 (set_up (up s - 1) s))).
    { destruct Hs as [Hlen Hup]. split; cbn [data up set_data set_up].
      - rewrite L1. exact Hlen.
      - unfold jint_range in *. lia. }
    unfold bind at 1. rewrite l3uPush_eq by exact Hs1.
    cbn [data up set_data set_up].
    destruct (pdl_push d1 (up s - 1) (v2 + i)) as [[d2 u2] |] eqn:P2;
      [| reflexivity].
    pose proof (pdl_push_inv _ _ _ _ _ P2) as (_ & -> & L2 & R2).
    rewrite IH; try lia.
    + cbn [data up set_data set_up].
      destruct (pdl_push_list d2 (up s - 1 - 1) (arg_pairs_from k (i + 1) v1 v2))
        as [[d3 u3] |]; reflexivity.
    + destruct Hs as [Hlen Hup]. split; cbn [data up set_data set_up].
      * rewrite L2, L1. exact Hlen.
      * unfold jint_range in *. lia.
Qed.


Lemma pdl_push_list_bounds vs : forall d u d' u',
  pdl_push_list d u vs = Some (d', u') -> 0 <= u -> 0 <= u' <= u.
Proof.
  induction vs as [| v vs IH]; intros d u d' u' H Hu; cbn [pdl_push_list] in H.
  - inversion H; subst. lia.
  - destruct (pdl_push d u v) as [[d1 u1] |] eqn:P; [| discriminate].
    apply pdl_push_inv in P as (_ & -> & _ & R).
    apply IH in H; lia.
Qed.

Lemma l3unify_body_eq fuel s :
  Z.of_nat (length (data s)) <= 16777216 ->
  l3unify_body fuel s
  = match load (data s) (up s) with
    | None => Undef
    | Some a =>
        match deref_walk fuel (data s) a with
        | Ret (d1, t1, v1) =>
            match load (data s) (up s + 1) with
            | None => Undef
            | Some b =>
                match deref_walk fuel (data s) b with
                | Ret (d2, t2, v2) =>
                    unify_pair d1 t1 v1 d2 t2 v2
                      (set_deref t2 v2 (set_up (up s + 2) s))
                | Undef => Undef
                | Spin => Spin
                end
            end
        | Undef => Undef
        | Spin => Spin
        end
    end.
Proof.
  intros Hlen. unfold l3unify_body. unfold bind at 1.
  rewrite l3uPop_eq by exact Hlen.
  destruct (load (data s) (up s)) as [a |]; [| reflexivity].
  unfold bind at 1, l3deref. cbn [data set_up].
  destruct (deref_walk fuel (data s) a) as [[[d1 t1] v1] | |]; try reflexivity.
  unfold bind at 1, gets. unfold bind at 1. cbn [derefTag derefVal set_deref].
  unfold bind at 1. rewrite l3uPop_eq by exact Hlen.
  cbn [data up set_up set_deref].
  destruct (load (data s) (up s + 1)) as [b |]; [| reflexivity].
  unfold bind at 1. cbn [data set_up set_deref].
  destruct (deref_walk fuel (data s) b) as [[[d2 t2] v2] | |]; try reflexivity.
  unfold bind at 1, gets. unfold bind at 1. cbn [derefTag derefVal set_deref].
  replace (up s + 1 + 1) with (up s + 2) by lia. reflexivity.
Qed.

Lemma l3unify_body_mono fuel fuel' :
  (fuel <= fuel')%nat ->
  forall s, Z.of_nat (length (data s)) <= 16777216 ->
  forall r, l3unify_body fuel s = Ret r -> l3unify_body fuel' s = Ret r.
Proof.
  intros Hle s Hlen r. rewrite !l3unify_body_eq by exact Hlen.
  destruct (load (data s) (up s)) as [a |]; [| discriminate].
  destruct (deref_walk fuel (data s) a) as [x1 | |] eqn:W1; try discriminate.
  rewrite (deref_walk_mono _ _ _ _ _ Hle W1). destruct x1 as [[d1 t1] v1].
  destruct (load (data s) (up s + 1)) as [b |]; [| discriminate].
  destruct (deref_walk fuel (data s) b) as [x2 | |] eqn:W2; try discriminate.
  rewrite (deref_walk_mono _ _ _ _ _ Hle W2). auto.
Qed.

Lemma l3unify_loop_eq fuel n fail s :
  l3unify_loop fuel n fail s
  = if negb (TOP <=? up s) && negb fail then
      match n with
      | O => Spin
      | S n' => bind (l3unify_body fuel) (l3unify_loop fuel n') s
      end
    else Ret (fail, s).
Proof.
  destruct n; cbn [l3unify_loop]; unfold bind at 1, l3uEmpty, bind, gets, ret;
    destruct (negb (TOP <=? up s) && negb fail); reflexivity.
Qed.

(** One iteration of the loop body and one step of the description. *)
Lemma l3unify_body_sound fuel s fail s' :
  addressable s ->
  l3unify_body fuel s = Ret (fail, s') ->
  unify_iter (data s) (up s) fail (data s') (up s') /\ addressable s'.
Proof.
  intros [Hlen Hup] H. rewrite l3unify_body_eq in H by exact Hlen.
  destruct (load (data s) (up s)) as [a |] eqn:La; [| discriminate].
  destruct (deref_walk fuel (data s) a) as [[[d1 t1] v1] | |] eqn:W1;
    try discriminate.
  destruct (load (data s) (up s + 1)) as [b |] eqn:Lb; [| discriminate].
  destruct (deref_walk fuel (data s) b) as [[[d2 t2] v2] | |] eqn:W2;
    try discriminate.
  destruct (deref_walk_sound _ _ _ _ _ _ W1) as (C1 & c1 & Lc1 & -> & ->).
  destruct (deref_walk_sound _ _ _ _ _ _ W2) as (C2 & c2 & Lc2 & -> & ->).
  pose proof (load_Some_range _ _ _ Lb) as Rb.
  set (s2 := set_deref (cell_tag c2) (cell_val c2) (set_up (up s + 2) s)) in *.
  assert (Hs2 : addressable s2).
  { split; [exact Hlen | cbn; unfold jint_range; lia]. }
  unfold unify_pair in H.
  destruct (Z.eqb_spec d1 d2) as [E | E]; cbn [negb] in H.
  { inversion H; subst. split; [| exact Hs2]. eapply iter_same; eauto. }
  destruct (Z.eqb_spec (cell_tag c1) REF) as [T1 | T1].
  { apply bind_Ret_inv in H as ([] & s3 & Hw & Hr). inversion Hr; subst.
    apply wr_inv in Hw as (dd & Hst & ->). cbn [data up set_data s2 set_deref set_up].
    split.
    - eapply iter_bind; eauto. unfold bind_cells. rewrite T1. exact Hst.
    - split; cbn [data up set_data s2 set_deref set_up];
        [rewrite (store_length _ _ _ _ Hst); exact Hlen | unfold jint_range; lia]. }
  destruct (Z.eqb_spec (cell_tag c2) REF) as [T2 | T2].
  { apply bind_Ret_inv in H as ([] & s3 & Hw & Hr). inversion Hr; subst.
    apply wr_inv in Hw as (dd & Hst & ->). cbn [data up set_data s2 set_deref set_up].
    split.
    - eapply iter_bind; eauto. unfold bind_cells.
      destruct (Z.eqb_spec (cell_tag c1) REF); [contradiction | exact Hst].
    - split; cbn [data up set_data s2 set_deref set_up];
        [rewrite (store_length _ _ _ _ Hst); exact Hlen | unfold jint_range; lia]. }
  apply bind_Ret_inv in H as (f1 & s3 & Hr1 & H).
  apply rd_inv in Hr1 as [Lf1 ->].
  apply bind_Ret_inv in H as (f2 & s3 & Hr2 & H).
  apply rd_inv in Hr2 as [Lf2 ->].
  destruct (Z.eqb_spec f1 f2) as [F | F].
  - subst f2. apply bind_Ret_inv in H as ([] & s3 & Hp & Hr). inversion Hr; subst.
    rewrite push_args_eq in Hp;
      try exact Hs2; try apply cell_val_bounds; try lia;
      [| pose proof (jbyte_bounds (Z.land f1 255)); lia ].
    cbn [data up s2 set_deref set_up] in Hp.
    destruct (pdl_push_list (data s) (up s + 2)
                (arg_pairs_from (Z.to_nat (jbyte (Z.land f1 255))) 1
                   (cell_val c1) (cell_val c2))) as [[dd uu] |] eqn:P;
      [| discriminate].
    inversion Hp; subst. cbn [data up set_data set_up].
    pose proof (pdl_push_list_length _ _ _ _ _ P) as [Ld _].
    pose proof (pdl_push_list_bounds _ _ _ _ _ P ltac:(lia)) as Bu.
    split.
    + eapply iter_args; eauto.
    + split; cbn [data up set_data set_up];
        [rewrite Ld; exact Hlen | unfold jint_range; lia].
  - inversion H; subst. split; [| exact Hs2].
    eapply iter_mismatch; eauto.
Qed.


Lemma l3unify_body_complete s fail d' u' :
  addressable s ->
  unify_iter (data s) (up s) fail d' u' ->
  exists fuel s',
    l3unify_body fuel s = Ret (fail, s') /\ data s' = d' /\ up s' = u'.
Proof.
  intros Hs H. pose proof Hs as [Hlen Hup].
  assert (Hwalk : forall a b d1 d2 c1 c2,
            ref_chain (data s) a d1 -> ref_chain (data s) b d2 ->
            load (data s) d1 = Some c1 -> load (data s) d2 = Some c2 ->
            exists fuel,
              deref_walk fuel (data s) a = Ret (d1, cell_tag c1, cell_val c1) /\
              deref_walk fuel (data s) b = Ret (d2, cell_tag c2, cell_val c2)).
  { intros a b d1 d2 c1 c2 C1 C2 L1 L2.
    destruct (deref_walk_complete _ _ _ C1) as (fa & c1' & L1' & W1).
    destruct (deref_walk_complete _ _ _ C2) as (fb & c2' & L2' & W2).
    rewrite L1 in L1'. inversion L1'; subst c1'.
    rewrite L2 in L2'. inversion L2'; subst c2'.
    exists (Nat.max fa fb). split.
    - apply (deref_walk_mono _ fa); [lia | exact W1].
    - apply (deref_walk_mono _ fb); [lia | exact W2]. }
  inversion H as
    [ a b d1 La Lb C1 C2
    | a b d1 d2 c1 c2 dd La Lb C1 C2 Hne L1 L2 Htag Hbind
    | a b d1 d2 c1 c2 f1 f2 La Lb C1 C2 Hne L1 L2 T1 T2 Lf1 Lf2 Hf
    | a b d1 d2 c1 c2 f dd uu La Lb C1 C2 Hne L1 L2 T1 T2 Lf1 Lf2 Hpush ];
    subst.
  - destruct (ref_chain_stop _ _ _ C1) as (c1 & L1 & _).
    destruct (Hwalk _ _ _ _ _ _ C1 C2 L1 L1) as (fuel & W1 & W2).
    exists fuel. eexists. rewrite l3unify_body_eq by exact Hlen.
    rewrite La, W1, Lb, W2. unfold unify_pair. rewrite Z.eqb_refl.
    cbn [negb]. unfold ret. split; [reflexivity | split; reflexivity].
  - destruct (Hwalk _ _ _ _ _ _ C1 C2 L1 L2) as (fuel & W1 & W2).
    exists fuel. rewrite l3unify_body_eq by exact Hlen.
    rewrite La, W1, Lb, W2. unfold unify_pair.
    destruct (Z.eqb_spec d1 d2) as [E | _]; [contradiction |]. cbn [negb].
    unfold bind_cells in Hbind.
    destruct (Z.eqb_spec (cell_tag c1) REF) as [T1 | T1].
    + eexists. unfold bind at 1, wr.
      cbn [data set_deref set_up]. rewrite Hbind.
      split; [reflexivity | split; reflexivity].
    + destruct (Z.eqb_spec (cell_tag c2) REF) as [T2 | T2]; [| tauto].
      eexists. unfold bind at 1, wr.
      cbn [data set_deref set_up]. rewrite Hbind.
      split; [reflexivity | split; reflexivity].
  - destruct (Hwalk _ _ _ _ _ _ C1 C2 L1 L2) as (fuel & W1 & W2).
    exists fuel. eexists. rewrite l3unify_body_eq by exact Hlen.
    rewrite La, W1, Lb, W2. unfold unify_pair.
    destruct (Z.eqb_spec d1 d2) as [E | _]; [contradiction |]. cbn [negb].
    destruct (Z.eqb_spec (cell_tag c1) REF) as [? | _]; [contradiction |].
    destruct (Z.eqb_spec (cell_tag c2) REF) as [? | _]; [contradiction |].
    unfold bind at 1, rd. cbn [data set_deref set_up]. rewrite Lf1.
    unfold defined, ret at 1. unfold bind at 1, rd.
    cbn [data set_deref set_up]. rewrite Lf2. unfold defined, ret at 1.
    destruct (Z.eqb_spec f1 f2) as [? | _]; [contradiction |].
    unfold ret. split; [reflexivity | split; reflexivity].
  - destruct (Hwalk _ _ _ _ _ _ C1 C2 L1 L2) as (fuel & W1 & W2).
    exists fuel. rewrite l3unify_body_eq by exact Hlen.
    rewrite La, W1, Lb, W2. unfold unify_pair.
    destruct (Z.eqb_spec d1 d2) as [E | _]; [contradiction |]. cbn [negb].
    destruct (Z.eqb_spec (cell_tag c1) REF) as [? | _]; [contradiction |].
    destruct (Z.eqb_spec (cell_tag c2) REF) as [? | _]; [contradiction |].
    unfold bind at 1, rd. cbn [data set_deref set_up]. rewrite Lf1.
    unfold defined, ret at 1. unfold bind at 1, rd.
    cbn [data set_deref set_up]. rewrite Lf2. unfold defined, ret at 1.
    rewrite Z.eqb_refl. unfold bind at 1.
    pose proof (load_Some_range _ _ _ Lb) as Rb.
    rewrite push_args_eq;
      try apply cell_val_bounds; try lia;
      [| split; [exact Hlen | cbn; unfold jint_range; lia]
       | pose proof (jbyte_bounds (Z.land f 255)); lia ].
    cbn [data up set_deref set_up].
    unfold arg_pairs, arity in Hpush. rewrite Hpush.
    eexists. unfold ret. split; [reflexivity | split; reflexivity].
Qed.

Lemma l3unify_loop_sound n : forall fuel s fail s',
  addressable s ->
  l3unify_loop fuel n false s = Ret (fail, s') ->
  unify_run (data s) (up s) (negb fail) (data s') (up s') /\ addressable s'.
Proof.
  induction n as [| n IH]; intros fuel s fail s' Hs H;
    rewrite l3unify_loop_eq in H;
    destruct (Z.leb_spec TOP (up s)) as [Hu | Hu]; cbn [negb andb] in H;
    try discriminate;
    try (inversion H; subst; split; [apply run_drained; exact Hu | exact Hs]).
  apply bind_Ret_inv in H as (fail1 & s1 & Hbody & Hloop).
  destruct (l3unify_body_sound _ _ _ _ Hs Hbody) as [Hiter Hs1].
  destruct fail1.
  - rewrite l3unify_loop_eq in Hloop. rewrite andb_false_r in Hloop.
    inversion Hloop; subst. split; [| exact Hs1].
    apply run_failed; assumption.
  - destruct (IH _ _ _ _ Hs1 Hloop) as [Hrun Hs']. split; [| exact Hs'].
    eapply run_continue; eauto.
Qed.

Lemma l3unify_loop_mono n : forall fuel fuel' n' fail s r,
  (fuel <= fuel')%nat -> (n <= n')%nat ->
  addressable s ->
  l3unify_loop fuel n fail s = Ret r -> l3unify_loop fuel' n' fail s = Ret r.
Proof.
  induction n as [| n IH]; intros fuel fuel' n' fail s r Hf Hn Hs H;
    rewrite l3unify_loop_eq in H; rewrite l3unify_loop_eq;
    destruct (negb (TOP <=? up s) && negb fail); try discriminate; try exact H.
  destruct n' as [| n']; [lia |].
  apply bind_Ret_inv in H as (fail1 & s1 & Hbody & Hloop).
  destruct (l3unify_body_sound _ _ _ _ Hs Hbody) as [_ Hs1].
  rewrite (bind_Ret _ _ _ _ _
             (l3unify_body_mono _ _ Hf _ (proj1 Hs) _ Hbody)).
  apply (IH fuel); auto. lia.
Qed.

Lemma l3unify_loop_complete d u res d' u' :
  unify_run d u res d' u' ->
  forall s, addressable s -> data s = d -> up s = u ->
  exists fuel n s',
    l3unify_loop fuel n false s = Ret (negb res, s') /\
    data s' = d' /\ up s' = u'.
Proof.
  induction 1 as [d u Hu | d u d' u' Hu Hiter
                  | d u d1 u1 res d' u' Hu Hiter Hrun IH];
    intros s Hs Hd Hup; subst d u.
  - exists 0%nat, 0%nat, s. rewrite l3unify_loop_eq.
    destruct (Z.leb_spec TOP (up s)); [| lia]. auto.
  - destruct (l3unify_body_complete _ _ _ _ Hs Hiter) as (fuel & s1 & Hb & <- & <-).
    exists fuel, 1%nat, s1. rewrite l3unify_loop_eq.
    destruct (Z.leb_spec TOP (up s)); [lia |]. cbn [negb andb].
    rewrite (bind_Ret _ _ _ _ _ Hb). rewrite l3unify_loop_eq.
    rewrite andb_false_r. auto.
  - destruct (l3unify_body_complete _ _ _ _ Hs Hiter) as (f1 & s1 & Hb & Hd1 & Hu1).
    destruct (l3unify_body_sound _ _ _ _ Hs Hb) as [_ Hs1].
    destruct (IH s1 Hs1 Hd1 Hu1) as (f2 & n & s' & Hl & Hd' & Hu').
    exists (Nat.max f1 f2), (S n), s'. split; [| auto].
    rewrite l3unify_loop_eq.
    destruct (Z.leb_spec TOP (up s)); [lia |]. cbn [negb andb].
    rewrite (bind_Ret _ _ _ _ _
               (l3unify_body_mono f1 (Nat.max f1 f2) (Nat.le_max_l _ _)
                  _ (proj1 Hs) _ Hb)).
    apply (l3unify_loop_mono n f2 (Nat.max f1 f2) n); auto; lia.
Qed.


End L3Unify.

Lemma unify_run_true_drained d u d' u' :
  unify_run d u true d' u' -> TOP <= u'.
Proof.
  intros H. remember true as res eqn:E.
  induction H; try discriminate; auto.
Qed.

Lemma l3unify_sound fuel a1 a2 s res s' :
  addressable s ->
  L3.l3unify fuel a1 a2 s = Ret (res, s') ->
  unify_spec a1 a2 (L3.data s) (L3.up s) res (L3.data s') (L3.up s') /\
  addressable s'.
Proof.
  intros Hs H. unfold L3.l3unify in H.
  apply bind_Ret_inv in H as ([] & s1 & H1 & H).
  apply bind_Ret_inv in H as ([] & s2 & H2 & H).
  apply bind_Ret_inv in H as (fail & s3 & H3 & H).
  inversion H; subst. clear H.
  rewrite l3uPush_eq in H1 by exact Hs.
  destruct (pdl_push (L3.data s) (L3.up s) a1) as [[d1 u1] |] eqn:P1;
    [| discriminate].
  inversion H1; subst s1. clear H1.
  pose proof (pdl_push_inv _ _ _ _ _ P1) as (_ & -> & L1 & R1).
  assert (Hs1 : addressable (L3.set_data d1 (L3.set_up (L3.up s - 1) s))).
  { destruct Hs as [Hlen Hup]. split; cbn; [rewrite L1; exact Hlen |].
    unfold jint_range in *. lia. }
  rewrite l3uPush_eq in H2 by exact Hs1.
  cbn [L3.data L3.up L3.set_data L3.set_up] in H2.
  destruct (pdl_push d1 (L3.up s - 1) a2) as [[d2 u2] |] eqn:P2;
    [| discriminate].
  inversion H2; subst s2. clear H2.
  pose proof (pdl_push_inv _ _ _ _ _ P2) as (_ & -> & L2 & R2).
  assert (Hs2 : addressable
            (L3.set_data d2 (L3.set_up (L3.up s - 1 - 1)
               (L3.set_data d1 (L3.set_up (L3.up s - 1) s))))).
  { destruct Hs as [Hlen Hup]. split; cbn; [rewrite L2, L1; exact Hlen |].
    unfold jint_range in *. lia. }
  destruct (l3unify_loop_sound _ _ _ _ _ Hs2 H3) as [Hrun Hs'].
  cbn [L3.data L3.up L3.set_data L3.set_up] in Hrun.
  split; [| exact Hs'].
  exists d2, (L3.up s - 1 - 1). split; [| exact Hrun].
  cbn [pdl_push_list]. rewrite P1, P2. reflexivity.
Qed.

(** The loop of [l3unify] and the relation [unify_spec] are the same: on a
    machine whose data area is addressable, [l3unify a1 a2] returns [res]
    with data area [d'] and PDL pointer [u'] exactly when the relation
    derives them.  [a1] and [a2] are pushed, and each iteration pops two
    addresses, dereferences them, skips equal endpoints, binds when an
    endpoint is a REF, fails on different functor/arity words and pushes
    the argument pairs [v1 + i], [v2 + i] for [i] from 1 to [arity f] (the
    signed arity byte) on equal ones, until the PDL is empty; the result is
    true exactly when the PDL was drained without a failure. *)
Theorem l3unify_meets_description a1 a2 s :
  addressable s ->
  (forall fuel res s',
     L3.l3unify fuel a1 a2 s = Ret (res, s') ->
     unify_spec a1 a2 (L3.data s) (L3.up s) res (L3.data s') (L3.up s')) /\
  (forall res d' u',
     unify_spec a1 a2 (L3.data s) (L3.up s) res d' u' ->
     exists fuel s',
       L3.l3unify fuel a1 a2 s = Ret (res, s') /\
       L3.data s' = d' /\ L3.up s' = u') /\
  (forall fuel s',
     L3.l3unify fuel a1 a2 s = Ret (true, s') -> TOP <= L3.up s').
Proof.
  intros Hs.
  assert (Sound : forall fuel res s',
            L3.l3unify fuel a1 a2 s = Ret (res, s') ->
            unify_spec a1 a2 (L3.data s) (L3.up s) res (L3.data s') (L3.up s')).
  { intros fuel res s' H. apply (l3unify_sound _ _ _ _ _ _ Hs H). }
  split; [exact Sound | split].
  - intros res d' u' (d0 & u0 & Hp & Hrun). cbn [pdl_push_list] in Hp.
    destruct (pdl_push (L3.data s) (L3.up s) a1) as [[d1 u1] |] eqn:P1;
      [| discriminate].
    destruct (pdl_push d1 u1 a2) as [[d2 u2] |] eqn:P2; [| discriminate].
    inversion Hp; subst d0 u0. clear Hp.
    pose proof (pdl_push_inv _ _ _ _ _ P1) as (_ & -> & L1 & R1).
    pose proof (pdl_push_inv _ _ _ _ _ P2) as (_ & -> & L2 & R2).
    assert (Hs1 : addressable (L3.set_data d1 (L3.set_up (L3.up s - 1) s))).
    { destruct Hs as [Hlen Hup]. split; cbn; [rewrite L1; exact Hlen |].
      unfold jint_range in *. lia. }
    set (s2 := L3.set_data d2 (L3.set_up (L3.up s - 1 - 1)
                 (L3.set_data d1 (L3.set_up (L3.up s - 1) s)))).
    assert (Hs2 : addressable s2).
    { destruct Hs as [Hlen Hup]. split; cbn; [rewrite L2, L1; exact Hlen |].
      unfold jint_range in *. lia. }
    destruct (l3unify_loop_complete _ _ _ _ _ Hrun s2 Hs2 eq_refl eq_refl)
      as (fuel & n & s' & Hl & Hd & Hu).
    exists (Nat.max fuel n), s'. split; [| auto].
    unfold L3.l3unify. unfold bind at 1. rewrite l3uPush_eq by exact Hs.
    rewrite P1. unfold bind at 1. rewrite l3uPush_eq by exact Hs1.
    cbn [L3.data L3.up L3.set_data L3.set_up]. rewrite P2. fold s2.
    rewrite (bind_Ret _ _ _ _ _
               (l3unify_loop_mono n fuel (Nat.max fuel n) (Nat.max fuel n)
                  false s2 _ (Nat.le_max_l _ _) (Nat.le_max_r _ _) Hs2 Hl)).
    rewrite negb_involutive. reflexivity.
  - intros fuel s' H. apply Sound in H as (d0 & u0 & _ & Hrun).
    apply (unify_run_true_drained _ _ _ _ Hrun).
Qed.

Lemma l3unify_meets_description_witness :
  (forall fuel res s',
     L3.l3unify fuel 0 1 L3.example_state = Ret (res, s') ->
     unify_spec 0 1 (L3.data L3.example_state) (L3.up L3.example_state) res
       (L3.data s') (L3.up s')) /\
  (forall res d' u',
     unify_spec 0 1 (L3.data L3.example_state) (L3.up L3.example_state)
       res d' u' ->
     exists fuel s',
       L3.l3unify fuel 0 1 L3.example_state = Ret (res, s') /\
       L3.data s' = d' /\ L3.up s' = u') /\
  (forall fuel s',
     L3.l3unify fuel 0 1 L3.example_state = Ret (true, s') -> TOP <= L3.up s').
Proof.
  apply (l3unify_meets_description 0 1 L3.example_state).
  split; [vm_compute; discriminate | compute_range].
Defined.

(** On the example state X1 holds a structure and X0 refers to the free
    variable at address 12: unifying the two registers succeeds and binds
    the variable to the register cell. *)
Example l3unify_example :
  match L3.l3unify 3 0 1 L3.example_state with
  | Ret (res, s') => Some (res, L3.up s', load (L3.data s') 12)
  | Undef | Spin => None
  end = Some (true, TOP, Some (mk_cell REF 1)).
Proof. vm_compute. reflexivity. Qed.

(** C1 fails on the code for arities above 127.  [unify] reads the arity
    with [(jbyte)(f_n & 0xFF)], a signed byte, so that for an arity byte
    from 0x80 on the loop [for (i = 1; i <= n1; i++)] pushes no pair and
    the arguments are never compared.  [unify_structures 0x80] builds
    [p(a, ..., a)] in X0 and [p(b, ..., b)] in X1 with the functor word
    [0x480] (arity byte 0x80) and unifies the two registers.  [execute]
    returns true with an empty PDL, although the first arguments (cells 16
    and 146) are the different constants [a] and [b] (functor words
    [0x100] and [0x200] in cells 11 and 13) and are left as they were.
    With the arity byte 0x7F the same program returns false, as the
    description says. *)
Theorem unify_ignores_arguments_above_arity_127 :
  match L3.execute 300 (L3.unify_structures 0x80) 0 L3.nativeReset with
  | Ret (res, s) =>
      Some (res, L3.up s,
            [load (L3.data s) 0; load (L3.data s) 15; load (L3.data s) 16;
             load (L3.data s) 11],
            [load (L3.data s) 1; load (L3.data s) 145; load (L3.data s) 146;
             load (L3.data s) 13])
  | Undef | Spin => None
  end
  = Some (true, TOP,
          [Some (mk_cell STR 15); Some 0x480; Some (mk_cell STR 11);
           Some 0x100],
          [Some (mk_cell STR 145); Some 0x480; Some (mk_cell STR 13);
           Some 0x200]) /\
  returned (L3.execute 300 (L3.unify_structures 0x7F) 0 L3.nativeReset)
  = Some false.
Proof. split; vm_compute; reflexivity. Qed.

(** ** The PDL between instructions *)





Section KeepsIdle.

Import L3.









End KeepsIdle.







(** A call that fails in the middle of a structure returns false and leaves
    one pair of addresses on the PDL. *)
Example failed_unify_leaves_entries :
  match L3.execute 20 L3.mismatch_code 0 L3.nativeReset with
  | Ret (res, s) => Some (res, L3.up s)
  | Undef | Spin => None
  end = Some (false, TOP - 2).
Proof. vm_compute. reflexivity. Qed.

(** ** Termination of dereference *)

Section StoreKeepsChains.

Variables (d d' : list Z) (x w : Z).
Hypothesis Hstore : store d x w = Some d'.

(** The stored cell is no REF, or a free variable, or a REF to the end of a
    chain other than [x]. *)
Hypothesis Hcell :
  cell_tag w <> REF \/ cell_val w = x \/
  exists c2, load d (cell_val w) = Some c2 /\ cell_val w <> x /\
             (cell_tag c2 <> REF \/ cell_val c2 = cell_val w).

Lemma store_keeps_chain a r :
  ref_chain d a r -> exists r', ref_chain d' a r'.
Proof using Hstore Hcell.
  assert (Hx : exists r', ref_chain d' x r').
  { pose proof (load_store_eq _ _ _ _ Hstore) as Lx.
    destruct (Z.eq_dec (cell_tag w) REF) as [T | T];
      [| exists x; eapply chain_end; eauto].
    destruct (Z.eq_dec (cell_val w) x) as [V | V];
      [exists x; eapply chain_end; eauto |].
    destruct Hcell as [? | [? | (c2 & L2 & _ & E2)]]; try contradiction.
    exists (cell_val w). eapply chain_next; eauto.
    eapply chain_end; [| exact E2].
    rewrite (load_store_ne _ _ _ _ _ Hstore) by congruence. exact L2. }
  induction 1 as [a c Hc Hend | a c r Hc Ht Hv Hr IH].
  - destruct (Z.eq_dec a x) as [-> | Hne]; [exact Hx |].
    exists a. eapply chain_end; [| exact Hend].
    rewrite (load_store_ne _ _ _ _ _ Hstore) by congruence. exact Hc.
  - destruct (Z.eq_dec a x) as [-> | Hne]; [exact Hx |].
    destruct IH as [r' Hr']. exists r'. eapply chain_next; eauto.
    rewrite (load_store_ne _ _ _ _ _ Hstore) by congruence. exact Hc.
Qed.

Lemma store_keeps_termination a :
  deref_terminates d a -> deref_terminates d' a.
Proof using Hstore Hcell.
  rewrite !deref_terminates_chain. intros [r H]. eapply store_keeps_chain; eauto.
Qed.

End StoreKeepsChains.

Lemma pdl_push_list_keeps_termination vs : forall d u d' u',
  Forall (fun v => cell_tag v <> REF) vs ->
  pdl_push_list d u vs = Some (d', u') ->
  forall a, deref_terminates d a -> deref_terminates d' a.
Proof.
  induction vs as [| v vs IH]; intros d u d' u' Hvs H a Ha;
    cbn [pdl_push_list] in H.
  - inversion H; subst. exact Ha.
  - destruct (pdl_push d u v) as [[d1 u1] |] eqn:P; [| discriminate].
    apply pdl_push_inv in P as (Hst & _ & _ & _).
    inversion Hvs; subst.
    eapply IH; eauto.
    eapply store_keeps_termination; eauto.
Qed.

Lemma arg_pairs_from_no_REF k : forall i v1 v2,
  0 <= v1 -> 0 <= v2 -> 0 <= i ->
  v1 + i + Z.of_nat k <= 16777216 -> v2 + i + Z.of_nat k <= 16777216 ->
  Forall (fun v => cell_tag v <> REF) (arg_pairs_from k i v1 v2).
Proof.
  induction k as [| k IH]; intros i v1 v2 H1 H2 Hi B1 B2; cbn [arg_pairs_from].
  - constructor.
  - constructor; [rewrite cell_tag_small by lia; discriminate |].
    constructor; [rewrite cell_tag_small by lia; discriminate |].
    apply IH; lia.
Qed.

Lemma unify_iter_keeps_termination d u fail d' u' :
  Z.of_nat (length d) <= 16777216 - 128 ->
  unify_iter d u fail d' u' ->
  forall a, deref_terminates d a -> deref_terminates d' a.
Proof.
  intros Hlen H a Ha.
  inversion H as
    [ a0 b d1 La Lb C1 C2
    | a0 b d1 d2 c1 c2 dd La Lb C1 C2 Hne L1 L2 Htag Hbind
    | a0 b d1 d2 c1 c2 f1 f2 La Lb C1 C2 Hne L1 L2 T1 T2 Lf1 Lf2 Hf
    | a0 b d1 d2 c1 c2 f dd uu La Lb C1 C2 Hne L1 L2 T1 T2 Lf1 Lf2 Hpush ];
    subst; try exact Ha.
  - pose proof (load_Some_range _ _ _ L1) as R1.
    pose proof (load_Some_range _ _ _ L2) as R2.
    destruct (ref_chain_stop _ _ _ C1) as (c1' & L1' & E1).
    destruct (ref_chain_stop _ _ _ C2) as (c2' & L2' & E2).
    rewrite L1 in L1'. inversion L1'; subst c1'.
    rewrite L2 in L2'. inversion L2'; subst c2'.
    unfold bind_cells in Hbind.
    destruct (Z.eqb_spec (cell_tag c1) REF) as [T1 | T1].
    + destruct (cell_mk_REF d2 ltac:(lia)) as [Ht Hv].
      eapply store_keeps_termination; [exact Hbind | | exact Ha].
      right. right. exists c2. rewrite Hv. auto.
    + destruct (cell_mk_REF d1 ltac:(lia)) as [Ht Hv].
      eapply store_keeps_termination; [exact Hbind | | exact Ha].
      right. right. exists c1. rewrite Hv. auto.
  - pose proof (load_Some_range _ _ _ Lf1) as R1.
    pose proof (load_Some_range _ _ _ Lf2) as R2.
    eapply pdl_push_list_keeps_termination; [| exact Hpush | exact Ha].
    unfold arg_pairs. pose proof (jbyte_bounds (Z.land f 255)).
    apply arg_pairs_from_no_REF; unfold arity; lia.
Qed.

Lemma unify_iter_length d u fail d' u' :
  unify_iter d u fail d' u' -> length d' = length d.
Proof.
  intros H. inversion H; subst; try reflexivity.
  - match goal with
    | B : bind_cells _ _ _ _ = Some _ |- _ =>
        unfold bind_cells in B; destruct (_ =? _) in B;
        apply (store_length _ _ _ _ B)
    end.
  - match goal with
    | P : pdl_push_list _ _ _ = Some _ |- _ =>
        apply (pdl_push_list_length _ _ _ _ _ P)
    end.
Qed.

Lemma unify_run_keeps_termination d u res d' u' :
  unify_run d u res d' u' ->
  Z.of_nat (length d) <= 16777216 - 128 ->
  forall a, deref_terminates d a -> deref_terminates d' a.
Proof.
  induction 1 as [d u Hu | d u d' u' Hu Hiter
                  | d u d1 u1 res d' u' Hu Hiter Hrun IH];
    intros Hlen a Ha.
  - exact Ha.
  - eapply unify_iter_keeps_termination; eauto.
  - apply IH.
    + rewrite (unify_iter_length _ _ _ _ _ Hiter). exact Hlen.
    + eapply unify_iter_keeps_termination; eauto.
Qed.

Lemma deref_terminates_machine s a :
  deref_terminates (L3.data s) a <->
  exists fuel r s', L3.deref fuel a s = Ret (r, s').
Proof.
  unfold L3.deref. rewrite deref_terminates_chain. split.
  - intros [r H]. destruct (l3deref_complete _ _ _ H) as (fuel & c & _ & Hd).
    eauto.
  - intros (fuel & r & s' & H). exists r. apply (l3deref_sound _ _ _ _ _ H).
Qed.

(** C9, as the machine has it.  Dereference returns at once at every address
    of the data area after [nativeReset], and [l3unify] on two addresses
    never turns a terminating dereference into a diverging one: at every
    address where [deref] returned before the call it returns after it (a
    binding stores a REF to the end of a chain into a free variable that is
    another end, and the PDL only receives addresses). *)
Theorem unify_keeps_deref_terminating a1 a2 s :
  Z.of_nat (length (L3.data s)) <= 16777216 - 128 ->
  jint_range (L3.up s) ->
  0 <= a1 < 16777216 -> 0 <= a2 < 16777216 ->
  (forall a, 0 <= a < TOP ->
     L3.deref 0 a L3.nativeReset = Ret (a, L3.nativeReset)) /\
  (forall fuel res s',
     L3.l3unify fuel a1 a2 s = Ret (res, s') ->
     forall a,
       (exists n r s1, L3.deref n a s = Ret (r, s1)) ->
       exists n r s1, L3.deref n a s' = Ret (r, s1)).
Proof.
  intros Hlen Hup Ha1 Ha2. split.
  - intros a Ha. unfold L3.deref, L3.l3deref, deref_walk.
    cbn [L3.data L3.nativeReset]. rewrite load_replicate.
    + reflexivity.
    + rewrite Z2Nat.id; [exact Ha | vm_compute; discriminate].
  - intros fuel res s' H a. rewrite <- !deref_terminates_machine. intros Ha.
    assert (Hs : addressable s) by (split; [lia | exact Hup]).
    destruct (l3unify_sound _ _ _ _ _ _ Hs H) as [(d0 & u0 & Hp & Hrun) _].
    pose proof (pdl_push_list_length _ _ _ _ _ Hp) as [Ld0 _].
    eapply unify_run_keeps_termination; [exact Hrun | rewrite Ld0; exact Hlen |].
    eapply pdl_push_list_keeps_termination; [| exact Hp | exact Ha].
    repeat constructor; rewrite cell_tag_small by lia; discriminate.
Qed.

Lemma unify_keeps_deref_terminating_witness :
  (forall a, 0 <= a < TOP ->
     L3.deref 0 a L3.nativeReset = Ret (a, L3.nativeReset)) /\
  (forall fuel res s',
     L3.l3unify fuel 0 1 L3.example_state = Ret (res, s') ->
     forall a,
       (exists n r s1, L3.deref n a L3.example_state = Ret (r, s1)) ->
       exists n r s1, L3.deref n a s' = Ret (r, s1)).
Proof.
  apply (unify_keeps_deref_terminating 0 1 L3.example_state);
    try compute_range.
  vm_compute. discriminate.
Defined.

(** Two cells that refer to each other: the dereference loop never leaves
    them. *)
Lemma two_cycle_spins d p q :
  0 <= p < 16777216 -> 0 <= q < 16777216 -> p <> q ->
  load d p = Some (mk_cell REF q) -> load d q = Some (mk_cell REF p) ->
  forall fuel addr,
    deref_loop fuel d addr REF p = Spin /\ deref_loop fuel d addr REF q = Spin.
Proof.
  intros Hp Hq Hne Lp Lq.
  destruct (cell_mk_REF p Hp) as [Tp Vp]. destruct (cell_mk_REF q Hq) as [Tq Vq].
  induction fuel as [| fuel IH]; intros addr; cbn [deref_loop];
    rewrite Z.eqb_refl; [split; reflexivity |].
  rewrite Lp, Lq, Tp, Tq, Vp, Vq.
  destruct (Z.eqb_spec p q) as [? | _]; [contradiction |].
  destruct (Z.eqb_spec q p) as [? | _]; [congruence |].
  split; apply IH.
Qed.

(** The claim fails for the configurations of arbitrary byte code: from
    reset, [cyclic_code] runs to its end and leaves cells 1 and 12 referring
    to each other, and [deref] of X0 does not return, whatever the fuel. *)
Lemma deref_diverges_after_cyclic_code :
  returned (L3.execute 8 L3.cyclic_code 0 L3.nativeReset) = Some true /\
  forall fuel, L3.deref fuel 0 L3.cyclic_state = Spin.
Proof.
  split; [vm_compute; reflexivity |].
  assert (L0 : load (L3.data L3.cyclic_state) 0 = Some (mk_cell REF 12))
    by (vm_compute; reflexivity).
  assert (L1 : load (L3.data L3.cyclic_state) 1 = Some (mk_cell REF 12))
    by (vm_compute; reflexivity).
  assert (L12 : load (L3.data L3.cyclic_state) 12 = Some (mk_cell REF 1))
    by (vm_compute; reflexivity).
  intros fuel. unfold L3.deref, L3.l3deref, deref_walk. rewrite L0.
  destruct (cell_mk_REF 12 ltac:(lia)) as [-> ->].
  rewrite (proj1 (two_cycle_spins _ 12 1 ltac:(lia) ltac:(lia) ltac:(lia)
                    L12 L1 fuel 0)).
  reflexivity.
Qed.

(** ** The machine on small programs *)

(** Building [p(Z, h(Z, W), f(W))]: X1 holds a STR cell whose payload, 18,
    is the address of the functor cell of [p/3]; [deref] of X1 stops at the
    register and publishes tag STR and value 18. *)
Example build_term :
  match L3.execute 10 L3.build_code 0 L3.nativeReset with
  | Ret (res, s) =>
      Some (res, L3.hp s, load (L3.data s) 1, load (L3.data s) 18,
            match L3.deref 1 1 s with
            | Ret (a, s') => Some (a, L3.derefTag s', L3.derefVal s')
            | Undef | Spin => None
            end)
  | Undef | Spin => None
  end
  = Some (true, 22, Some (mk_cell STR 18), Some 0x303, Some (1, STR, 18)).
Proof. vm_compute. reflexivity. Qed.

(** A call and return through one environment frame: [execute] succeeds and
    [ep] and [esp] are back at the base of the stack. *)
Example call_and_return :
  match L3.execute 10 L3.call_code 0 L3.nativeReset with
  | Ret (res, s) => Some (res, L3.ep s, L3.esp s)
  | Undef | Spin => None
  end = Some (true, REG_SIZE + HEAP_SIZE, REG_SIZE + HEAP_SIZE).
Proof. vm_compute. reflexivity. Qed.

(** Matching [a/0] against [b/0], calling an unlinked predicate and decoding
    the byte [0xFF] all make [execute] return false. *)
Example failing_programs :
  returned (L3.execute 10 L3.clash_code 0 L3.nativeReset) = Some false /\
  returned (L3.execute 10 [CALL; 0xFF; 0xFF; 0xFF; 0xFF] 0 L3.nativeReset)
    = Some false /\
  returned (L3.execute 10 [0xFF] 0 L3.nativeReset) = Some false.
Proof. repeat split; vm_compute; reflexivity. Qed.

(** * More of the machines *)

(** ** Tagged cells, both ways *)

(** Packing a tag below 128 with an address and unpacking gives back the
    tag and the low 24 bits of the address; a non-negative cell is the
    packing of its own tag and value. *)
Theorem cell_round_trip t a c :
  0 <= t < 128 -> 0 <= c < 2147483648 ->
  cell_tag (mk_cell t a) = t /\
  cell_val (mk_cell t a) = a mod 16777216 /\
  mk_cell (cell_tag c) (cell_val c) = c.
Proof.
  intros Ht Hc. split; [apply cell_tag_mk_cell; exact Ht |].
  split; [apply cell_val_mk_cell; lia |].
  assert (Hq : 0 <= c / 16777216 < 128).
  { split; [apply Z.div_pos; lia | apply Z.div_lt_upper_bound; lia]. }
  assert (Htag : cell_tag c = c / 16777216).
  { rewrite cell_tag_byte, Z.mod_small by lia. apply jbyte_small. lia. }
  rewrite Htag, mk_cell_sum by lia. unfold cell_val. rewrite land_payload.
  rewrite Z.mod_mod by lia.
  pose proof (Z.div_mod c 16777216 ltac:(lia)). lia.
Qed.

Lemma cell_round_trip_witness :
  cell_tag (mk_cell STR 16777217) = STR /\
  cell_val (mk_cell STR 16777217) = 16777217 mod 16777216 /\
  mk_cell (cell_tag 0x02000005) (cell_val 0x02000005) = 0x02000005.
Proof.
  apply (cell_round_trip STR 16777217 0x02000005); vm_compute;
    split; [discriminate | reflexivity | discriminate | reflexivity].
Defined.

(** ** The PDL as a stack *)

(** The PDL is a stack: two pushes followed by two pops give the values
    back, last pushed first, put [up] back where it was and leave the two
    values in the two cells under [up]; nothing else changes.  This is how
    [l3unify] meets its two arguments: the second one first. *)
Theorem l3_pdl_is_lifo a b s :
  Z.of_nat (length (L3.data s)) <= 16777216 ->
  2 <= L3.up s <= Z.of_nat (length (L3.data s)) ->
  (L3.l3uPush a ;; L3.l3uPush b ;;
   x <- L3.l3uPop ;; y <- L3.l3uPop ;; ret (x, y)) s
  = Ret ((b, a),
         L3.set_data (<[Z.to_nat (L3.up s - 2) := b]>
                        (<[Z.to_nat (L3.up s - 1) := a]> (L3.data s))) s).
Proof.
  intros Hlen Hup.
  assert (Hs : addressable s) by (split; [exact Hlen | unfold jint_range; lia]).
  unfold bind at 1. rewrite l3uPush_eq by exact Hs. unfold pdl_push.
  rewrite store_in_range by lia.
  set (d1 := <[Z.to_nat (L3.up s - 1) := a]> (L3.data s)).
  assert (L1 : length d1 = length (L3.data s)) by apply length_insert.
  set (s1 := L3.set_data d1 (L3.set_up (L3.up s - 1) s)).
  assert (Hs1 : addressable s1).
  { split; cbn [s1 L3.data L3.up L3.set_data L3.set_up];
      [rewrite L1; exact Hlen | unfold jint_range; lia]. }
  unfold bind at 1. rewrite l3uPush_eq by exact Hs1. unfold pdl_push.
  cbn [s1 L3.data L3.up L3.set_data L3.set_up].
  rewrite store_in_range by (rewrite L1; lia).
  replace (L3.up s - 1 - 1) with (L3.up s - 2) by lia.
  set (d2 := <[Z.to_nat (L3.up s - 2) := b]> d1).
  assert (L2 : length d2 = length (L3.data s))
    by (unfold d2; rewrite length_insert; exact L1).
  assert (Ld2 : store d1 (L3.up s - 2) b = Some d2)
    by (apply store_in_range; rewrite L1; lia).
  assert (Ld1 : store (L3.data s) (L3.up s - 1) a = Some d1)
    by (apply store_in_range; lia).
  unfold bind at 1. rewrite l3uPop_eq
    by (cbn [L3.data L3.set_data]; rewrite L2; exact Hlen).
  cbn [L3.data L3.up L3.set_data L3.set_up].
  rewrite (load_store_eq _ _ _ _ Ld2).
  unfold bind at 1. rewrite l3uPop_eq
    by (cbn [L3.data L3.set_data L3.set_up]; rewrite L2; exact Hlen).
  cbn [L3.data L3.up L3.set_data L3.set_up].
  rewrite (load_store_ne _ _ _ _ (L3.up s - 2 + 1) Ld2) by lia.
  replace (L3.up s - 2 + 1) with (L3.up s - 1) by lia.
  rewrite (load_store_eq _ _ _ _ Ld1).
  unfold ret, L3.set_data, L3.set_up. cbn.
  replace (L3.up s - 1 + 1) with (L3.up s) by lia. reflexivity.
Qed.

Lemma l3_pdl_is_lifo_witness :
  (L3.l3uPush 7 ;; L3.l3uPush 9 ;;
   x <- L3.l3uPop ;; y <- L3.l3uPop ;; ret (x, y)) L3.small_state
  = Ret ((9, 7),
         L3.set_data (<[Z.to_nat (L3.up L3.small_state - 2) := 9]>
                        (<[Z.to_nat (L3.up L3.small_state - 1) := 7]>
                           (L3.data L3.small_state))) L3.small_state).
Proof.
  apply (l3_pdl_is_lifo 7 9 L3.small_state); vm_compute;
    [discriminate | split; discriminate].
Defined.

(** The PDL primitives check no bound.  On a data area of [TOP] cells a pop
    from the empty PDL reads the cell after the array, and a push onto a PDL
    that already holds [PDL_SIZE] entries returns normally, its value
    written over the last cell of the environment stack. *)
Theorem l3_pdl_is_unchecked v s :
  Z.of_nat (length (L3.data s)) = TOP ->
  L3.l3uPop (L3.set_up TOP s) = Undef /\
  exists s',
    L3.l3uPush v (L3.set_up (TOP - PDL_SIZE) s) = Ret (tt, s') /\
    L3.up s' = REG_SIZE + HEAP_SIZE + STACK_SIZE - 1 /\
    load (L3.data s') (REG_SIZE + HEAP_SIZE + STACK_SIZE - 1) = Some v.
Proof.
  intros Hlen.
  assert (HTOP : TOP = 21010) by reflexivity.
  split.
  - rewrite l3uPop_eq by (cbn [L3.data L3.set_up]; lia).
    cbn [L3.data L3.up L3.set_up].
    destruct (load (L3.data s) TOP) as [c |] eqn:Hc; [| reflexivity].
    apply load_Some_range in Hc. lia.
  - assert (Hs : addressable (L3.set_up (TOP - PDL_SIZE) s)).
    { split; cbn [L3.data L3.up L3.set_up]; [lia | compute_range]. }
    rewrite l3uPush_eq by exact Hs. unfold pdl_push.
    cbn [L3.data L3.up L3.set_up].
    assert (Hst : store (L3.data s) (TOP - PDL_SIZE - 1) v
                  = Some (<[Z.to_nat (TOP - PDL_SIZE - 1) := v]> (L3.data s))).
    { apply store_in_range. rewrite Hlen. compute_range. }
    rewrite Hst. eexists. split; [reflexivity |].
    split; [reflexivity |].
    cbn [L3.data L3.set_data].
    apply (load_store_eq _ _ _ _ Hst).
Qed.

Lemma l3_pdl_is_unchecked_witness :
  L3.l3uPop (L3.set_up TOP L3.nativeReset) = Undef /\
  exists s',
    L3.l3uPush 5 (L3.set_up (TOP - PDL_SIZE) L3.nativeReset) = Ret (tt, s') /\
    L3.up s' = REG_SIZE + HEAP_SIZE + STACK_SIZE - 1 /\
    load (L3.data s') (REG_SIZE + HEAP_SIZE + STACK_SIZE - 1) = Some 5.
Proof.
  apply (l3_pdl_is_unchecked 5 L3.nativeReset). vm_compute. reflexivity.
Defined.

(** ** Dereference twice *)

(** The address that [l3deref] returns lies inside the data area and is a
    fixed point: dereferencing it again, with any fuel but none, returns
    the same address and publishes the same tag and value. *)
Theorem l3deref_idempotent fuel a s r s' :
  L3.l3deref fuel a s = Ret (r, s') ->
  0 <= r < Z.of_nat (length (L3.data s)) /\
  forall n, L3.l3deref (S n) r s' = Ret (r, s').
Proof.
  intros H. destruct (l3deref_sound _ _ _ _ _ H) as (Hchain & c & Hc & ->).
  split; [apply (load_Some_range _ _ _ Hc) |].
  intros n. destruct (ref_chain_stop _ _ _ Hchain) as (c' & Hc' & Hend).
  rewrite Hc in Hc'. inversion Hc'; subst c'. clear Hc'.
  unfold L3.l3deref, deref_walk. cbn [L3.data L3.set_deref]. rewrite Hc.
  cbn [deref_loop]. destruct (Z.eqb_spec (cell_tag c) REF) as [Ht | Ht].
  - destruct Hend as [Hn | Hv]; [contradiction |].
    rewrite Hv, Hc, Hv, Z.eqb_refl. reflexivity.
  - reflexivity.
Qed.

Lemma l3deref_idempotent_witness :
  0 <= 1 < Z.of_nat (length (L3.data L3.small_state)) /\
  forall n, L3.l3deref (S n) 1 (L3.set_deref REF 1 L3.small_state)
            = Ret (1, L3.set_deref REF 1 L3.small_state).
Proof.
  apply (l3deref_idempotent 2 0 L3.small_state). vm_compute. reflexivity.
Defined.

(** ** Runs of the decode loop *)

Lemma execute_loop_reaches fuel code k l0 s0 l s :
  L3.loop_reaches fuel code k l0 s0 l s ->
  L3.l_failed l = true \/ Z.of_nat (length code) <= L3.l_ip l ->
  forall m, (k <= m)%nat ->
    L3.execute_loop fuel m code l0 s0 = Ret (l, s).
Proof.
  intros Hreach Hstop.
  induction Hreach as [l s | k l s l1 s1 l' s' Hf0 Hip0 Hstep Hreach IH];
    intros m Hm.
  - apply execute_loop_done. exact Hstop.
  - destruct m as [| m]; [lia |].
    rewrite execute_loop_step by assumption.
    rewrite (bind_Ret _ _ _ _ _ Hstep). apply IH; [exact Hstop | lia].
Qed.

Lemma execute_reaches fuel code offset s0 k l s :
  L3.loop_reaches fuel code k (L3.entry_locals code offset s0)
    (L3.set_up TOP s0) l s ->
  L3.l_failed l = true \/ Z.of_nat (length code) <= L3.l_ip l ->
  (k <= fuel)%nat ->
  L3.execute fuel code offset s0
  = Ret (negb (L3.l_failed l), L3.preserve l s).
Proof.
  intros Hreach Hstop Hk.
  unfold L3.execute, bind at 1, gets.
  unfold bind at 1, L3.l3uClear, modify.
  fold (L3.entry_locals code offset s0).
  rewrite (bind_Ret _ _ _ _ _
             (execute_loop_reaches _ _ _ _ _ _ _ Hreach Hstop fuel Hk)).
  reflexivity.
Qed.

Lemma loop_reaches_snoc fuel code k l0 s0 l s l' s' :
  L3.loop_reaches fuel code k l0 s0 l s ->
  L3.l_failed l = false ->
  L3.l_ip l < Z.of_nat (length code) ->
  L3.l3step fuel code l s = Ret (l', s') ->
  L3.loop_reaches fuel code (S k) l0 s0 l' s'.
Proof.
  intros Hreach Hf Hip Hstep.
  induction Hreach as [l s | k l s l1 s1 l2 s2 Hf0 Hip0 Hstep0 Hreach IH].
  - eapply L3.reaches_step; eauto. apply L3.reaches_here.
  - eapply L3.reaches_step; eauto.
Qed.

(** ** Nothing to run *)

(** [execute] from an offset at or after the end of the code buffer (an
    empty buffer in particular) decodes nothing and returns true: the PDL
    is cleared, [cp] is set to the length of the buffer, and every other
    field of the machine keeps its value. *)
Theorem execute_past_the_end fuel code offset s :
  Z.of_nat (length code) <= offset ->
  exists s',
    L3.execute fuel code offset s = Ret (true, s') /\
    L3.up s' = TOP /\ L3.cp s' = Z.of_nat (length code) /\
    L3.data s' = L3.data s /\ L3.hp s' = L3.hp s /\ L3.sp s' = L3.sp s /\
    L3.ep s' = L3.ep s /\ L3.esp s' = L3.esp s /\
    L3.writeMode s' = L3.writeMode s /\ L3.ip s' = L3.ip s /\
    L3.derefTag s' = L3.derefTag s /\ L3.derefVal s' = L3.derefVal s.
Proof.
  intros H. eexists. split.
  - apply (execute_reaches fuel code offset s 0
             (L3.entry_locals code offset s) (L3.set_up TOP s)).
    + apply L3.reaches_here.
    + right. exact H.
    + lia.
  - cbn. repeat split.
Qed.

Lemma execute_past_the_end_witness :
  exists s',
    L3.execute 0 [] 0 L3.small_state = Ret (true, s') /\
    L3.up s' = TOP /\ L3.cp s' = Z.of_nat (length (@nil Z)) /\
    L3.data s' = L3.data L3.small_state /\ L3.hp s' = L3.hp L3.small_state /\
    L3.sp s' = L3.sp L3.small_state /\
    L3.ep s' = L3.ep L3.small_state /\ L3.esp s' = L3.esp L3.small_state /\
    L3.writeMode s' = L3.writeMode L3.small_state /\
    L3.ip s' = L3.ip L3.small_state /\
    L3.derefTag s' = L3.derefTag L3.small_state /\
    L3.derefVal s' = L3.derefVal L3.small_state.
Proof.
  apply (execute_past_the_end 0 [] 0 L3.small_state). cbn. lia.
Defined.

(** ** Bytes that are no opcode *)

Lemma l3execute_unknown_opcode_witness :
  L3.execute 1 [0xFF] 0 L3.small_state
  = Ret (false,
         L3.preserve
           (L3.set_l_failed true (L3.entry_locals [0xFF] 0 L3.small_state))
           (L3.set_up TOP L3.small_state)).
Proof.
  apply (l3execute_unknown_opcode 1 [0xFF] 0 L3.small_state 0
           (L3.entry_locals [0xFF] 0 L3.small_state)
           (L3.set_up TOP L3.small_state) (-1)).
  - apply L3.reaches_here.
  - reflexivity.
  - cbn. lia.
  - reflexivity.
  - left. vm_compute. reflexivity.
  - lia.
Defined.

Lemma l2_codeAdded_unknown_opcode_witness :
  L2.codeAdded_loop (fun _ => false) 1 [0xFF] 1 (L2.mkCompilation 0 false [])
  = Some (L2.mkCompilation (L2.c_ip (L2.mkCompilation 0 false [])) true
            (L2.c_out (L2.mkCompilation 0 false []) ++ [L2.CreateRet 0])).
Proof.
  apply (l2_codeAdded_unknown_opcode (fun _ => false) 0 [0xFF] 1
           (L2.mkCompilation 0 false []) (-1)).
  - reflexivity.
  - cbn. lia.
  - reflexivity.
  - left. vm_compute. reflexivity.
Defined.

(** ** Calls *)

Lemma l3step_CALL fuel code l s :
  code_byte code (L3.l_ip l) = Some CALL ->
  L3.l3step fuel code l s = L3.do_CALL code l s.
Proof. intros H. rewrite (l3step_fetch _ _ _ _ _ H). reflexivity. Qed.

Lemma l3step_PROCEED fuel code l s :
  code_byte code (L3.l_ip l) = Some PROCEED ->
  L3.l3step fuel code l s = L3.do_PROCEED l s.
Proof. intros H. rewrite (l3step_fetch _ _ _ _ _ H). reflexivity. Qed.

(** A [CALL] whose target word is [-1], the mark of a predicate that is not
    linked in, fails: once the decode loop is in front of it, [execute]
    returns false, with the machine as the instructions before it left
    it. *)
Theorem l3execute_unlinked_call fuel code offset s0 k l s :
  L3.loop_reaches fuel code k (L3.entry_locals code offset s0)
    (L3.set_up TOP s0) l s ->
  L3.l_failed l = false ->
  L3.l_ip l < Z.of_nat (length code) ->
  code_byte code (L3.l_ip l) = Some CALL ->
  code_jint code (L3.l_ip l + 1) = Some (-1) ->
  (k < fuel)%nat ->
  L3.execute fuel code offset s0
  = Ret (false, L3.preserve (L3.set_l_failed true l) s).
Proof.
  intros Hreach Hf Hip Hop Hw Hk.
  assert (Hstep : L3.l3step fuel code l s = Ret (L3.set_l_failed true l, s)).
  { rewrite l3step_CALL by exact Hop.
    unfold L3.do_CALL, L3.fetch_jint, bind, defined. rewrite Hw. reflexivity. }
  apply (execute_reaches fuel code offset s0 (S k) (L3.set_l_failed true l) s).
  - eapply loop_reaches_snoc; eauto.
  - left. reflexivity.
  - lia.
Qed.

Lemma l3execute_unlinked_call_witness :
  L3.execute 1 [CALL; 0xFF; 0xFF; 0xFF; 0xFF] 0 L3.small_state
  = Ret (false,
         L3.preserve
           (L3.set_l_failed true
              (L3.entry_locals [CALL; 0xFF; 0xFF; 0xFF; 0xFF] 0 L3.small_state))
           (L3.set_up TOP L3.small_state)).
Proof.
  apply (l3execute_unlinked_call 1 [CALL; 0xFF; 0xFF; 0xFF; 0xFF] 0
           L3.small_state 0).
  - apply L3.reaches_here.
  - reflexivity.
  - cbn. lia.
  - reflexivity.
  - reflexivity.
  - lia.
Defined.

(** A [CALL] of a linked predicate saves the address of the next
    instruction in [cp] and jumps; a [PROCEED] at the target jumps back to
    it.  The two instructions touch nothing but [ip] and [cp]. *)
Theorem CALL_then_PROCEED_resumes_after_call fuel code l s p :
  code_byte code (L3.l_ip l) = Some CALL ->
  code_jint code (L3.l_ip l + 1) = Some p ->
  p <> -1 ->
  code_byte code p = Some PROCEED ->
  exists l1,
    L3.l3step fuel code l s = Ret (l1, s) /\
    L3.l_ip l1 = p /\
    L3.l3step fuel code l1 s
    = Ret (L3.set_l_ip (add32 (L3.l_ip l) 5)
             (L3.set_l_cp (add32 (L3.l_ip l) 5) l), s).
Proof.
  intros Hop Hw Hp Hpr.
  exists (L3.set_l_ip p (L3.set_l_cp (add32 (L3.l_ip l) 5) l)).
  split; [| split; [reflexivity |]].
  - rewrite l3step_CALL by exact Hop.
    unfold L3.do_CALL, L3.fetch_jint, bind, defined, ret. rewrite Hw.
    cbv beta iota. destruct (Z.eqb_spec p (-1)); [contradiction | reflexivity].
  - rewrite l3step_PROCEED by exact Hpr. reflexivity.
Qed.

Lemma CALL_then_PROCEED_resumes_after_call_witness :
  exists l1,
    L3.l3step 0 [CALL; 0x06; 0x00; 0x00; 0x00; 0xFF; PROCEED]
      L3.at_outer_frame L3.nested_frames = Ret (l1, L3.nested_frames) /\
    L3.l_ip l1 = 6 /\
    L3.l3step 0 [CALL; 0x06; 0x00; 0x00; 0x00; 0xFF; PROCEED] l1
      L3.nested_frames
    = Ret (L3.set_l_ip (add32 (L3.l_ip L3.at_outer_frame) 5)
             (L3.set_l_cp (add32 (L3.l_ip L3.at_outer_frame) 5)
                L3.at_outer_frame), L3.nested_frames).
Proof.
  apply (CALL_then_PROCEED_resumes_after_call 0
           [CALL; 0x06; 0x00; 0x00; 0x00; 0xFF; PROCEED]
           L3.at_outer_frame L3.nested_frames 6);
    [reflexivity | reflexivity | discriminate | reflexivity].
Defined.

(** [execute] sets [cp] to the length of the code buffer before it decodes,
    so a [PROCEED] met before any [CALL] ends the run: [execute] returns
    true and has changed nothing but [up] and [cp]. *)
Theorem PROCEED_at_top_level_ends_execute fuel code offset s :
  code_byte code offset = Some PROCEED ->
  exists s',
    L3.execute (S fuel) code offset s = Ret (true, s') /\
    L3.up s' = TOP /\ L3.cp s' = Z.of_nat (length code) /\
    L3.data s' = L3.data s /\ L3.hp s' = L3.hp s /\ L3.sp s' = L3.sp s /\
    L3.ep s' = L3.ep s /\ L3.esp s' = L3.esp s /\
    L3.writeMode s' = L3.writeMode s.
Proof.
  intros Hop.
  assert (Hr : 0 <= offset < Z.of_nat (length code)).
  { unfold code_byte in Hop. destruct (load code offset) as [b |] eqn:Hb;
      [| discriminate]. apply (load_Some_range _ _ _ Hb). }
  set (l0 := L3.entry_locals code offset s).
  eexists. split.
  - apply (execute_reaches (S fuel) code offset s 1
             (L3.set_l_ip (L3.l_cp l0) l0) (L3.set_up TOP s)).
    + eapply L3.reaches_step; [reflexivity | cbn; lia | | apply L3.reaches_here].
      rewrite l3step_PROCEED by exact Hop. reflexivity.
    + right. cbn. lia.
    + lia.
  - cbn. repeat split.
Qed.

Lemma PROCEED_at_top_level_ends_execute_witness :
  exists s',
    L3.execute 1 [PROCEED; 0xFF] 0 L3.small_state = Ret (true, s') /\
    L3.up s' = TOP /\ L3.cp s' = Z.of_nat (length [PROCEED; 0xFF]) /\
    L3.data s' = L3.data L3.small_state /\ L3.hp s' = L3.hp L3.small_state /\
    L3.sp s' = L3.sp L3.small_state /\
    L3.ep s' = L3.ep L3.small_state /\ L3.esp s' = L3.esp L3.small_state /\
    L3.writeMode s' = L3.writeMode L3.small_state.
Proof.
  apply (PROCEED_at_top_level_ends_execute 0 [PROCEED; 0xFF] 0 L3.small_state).
  reflexivity.
Defined.

(** ** Building terms on the heap *)

Section PutInstructions.

Import L3.

Variables (fuel : nat) (code : list Z) (l : locals) (s : l3MachineState).
Variables (mode x : Z).

Hypothesis Hmode : code_byte code (add32 (l_ip l) 1) = Some mode.
Hypothesis Hx : code_byte code (add32 (l_ip l) 2) = Some x.

Let xi : Z := add32 x (if mode =? STACK_ADDR then add32 (l_ep l) 3 else 0).
Let hp : Z := l_hp l.

Hypothesis Hlen : Z.of_nat (length (data s)) <= 16777216.
Hypothesis Hxi : 0 <= xi < Z.of_nat (length (data s)).

Lemma PUT_STRUC_step f_n d1 d2 d3 :
  code_byte code (l_ip l) = Some PUT_STRUC ->
  code_jint code (l_ip l + 3) = Some f_n ->
  store (data s) hp (mk_cell STR (hp + 1)) = Some d1 ->
  store d1 (hp + 1) f_n = Some d2 ->
  store d2 xi (mk_cell STR (hp + 1)) = Some d3 ->
  l3step fuel code l s
  = Ret (set_l_ip (add32 (l_ip l) 7) (set_l_hp (hp + 2) l), set_data d3 s).
Proof using Hmode Hx Hlen.
  intros Hop Hfn S1 S2 S3.
  pose proof (store_inv _ _ _ _ S1) as [R1 _].
  pose proof (store_inv _ _ _ _ S2) as [R2 _].
  pose proof (store_length _ _ _ _ S1) as L1.
  assert (E1 : add32 hp 1 = hp + 1)
    by (apply add32_exact; unfold jint_range; lia).
  assert (E2 : add32 hp 2 = hp + 2)
    by (apply add32_exact; unfold jint_range; lia).
  rewrite (l3step_fetch _ _ _ _ _ Hop).
  cbn [Z.eqb PUT_STRUC Pos.eqb]. unfold do_PUT_STRUC.
  rewrite (bind_Ret _ _ _ _ _ (operand_Ret _ _ _ _ _ Hmode Hx)).
  unfold fetch_jint. rewrite Hfn. unfold defined.
  unfold bind at 1. cbn [ret]. fold xi. fold hp. rewrite E1, E2.
  rewrite (bind_Ret _ _ _ _ _ (wr_Ret s _ _ _ S1)).
  rewrite (bind_Ret _ _ _ _ _ (wr_Ret (set_data d1 s) _ _ _ S2)).
  assert (Lhp : load d2 hp = Some (mk_cell STR (hp + 1))).
  { rewrite (load_store_ne _ _ _ _ hp S2) by lia.
    apply (load_store_eq _ _ _ _ S1). }
  rewrite (bind_Ret _ _ _ _ _ (rd_Ret (set_data d2 (set_data d1 s)) _ _ Lhp)).
  rewrite (bind_Ret _ _ _ _ _
             (wr_Ret (set_data d2 (set_data d1 s)) _ _ _ S3)).
  reflexivity.
Qed.

End PutInstructions.

Section SetInstructions.

Import L3.

Variables (fuel : nat) (code : list Z) (l : locals) (s : l3MachineState).
Variables (mode x : Z).

Hypothesis Hmode : code_byte code (add32 (l_ip l) 1) = Some mode.
Hypothesis Hx : code_byte code (add32 (l_ip l) 2) = Some x.

Let xi : Z := add32 x (if mode =? STACK_ADDR then add32 (l_ep l) 3 else 0).
Let hp : Z := l_hp l.

Hypothesis Hlen : Z.of_nat (length (data s)) <= 16777216.

Lemma SET_VAR_step d1 d2 :
  code_byte code (l_ip l) = Some SET_VAR ->
  store (data s) hp (mk_cell REF hp) = Some d1 ->
  store d1 xi (mk_cell REF hp) = Some d2 ->
  l3step fuel code l s
  = Ret (set_l_ip (add32 (l_ip l) 3) (set_l_hp (hp + 1) l), set_data d2 s).
Proof using Hmode Hx Hlen.
  intros Hop S1 S2.
  pose proof (store_inv _ _ _ _ S1) as [R1 _].
  assert (E1 : add32 hp 1 = hp + 1)
    by (apply add32_exact; unfold jint_range; lia).
  rewrite (l3step_fetch _ _ _ _ _ Hop).
  cbn [Z.eqb SET_VAR PUT_STRUC Pos.eqb]. unfold do_SET_VAR.
  rewrite (bind_Ret _ _ _ _ _ (operand_Ret _ _ _ _ _ Hmode Hx)).
  fold xi. fold hp. rewrite E1.
  rewrite (bind_Ret _ _ _ _ _ (wr_Ret s _ _ _ S1)).
  rewrite (bind_Ret _ _ _ _ _
             (rd_Ret (set_data d1 s) _ _ (load_store_eq _ _ _ _ S1))).
  rewrite (bind_Ret _ _ _ _ _ (wr_Ret (set_data d1 s) _ _ _ S2)).
  reflexivity.
Qed.

Lemma PUT_VAR_step ai d1 d2 d3 :
  code_byte code (l_ip l) = Some PUT_VAR ->
  code_byte code (add32 (l_ip l) 3) = Some ai ->
  store (data s) hp (mk_cell REF hp) = Some d1 ->
  store d1 xi (mk_cell REF hp) = Some d2 ->
  store d2 ai (mk_cell REF hp) = Some d3 ->
  l3step fuel code l s
  = Ret (set_l_ip (add32 (l_ip l) 4) (set_l_hp (hp + 1) l), set_data d3 s).
Proof using Hmode Hx Hlen.
  intros Hop Hai S1 S2 S3.
  pose proof (store_inv _ _ _ _ S1) as [R1 _].
  assert (E1 : add32 hp 1 = hp + 1)
    by (apply add32_exact; unfold jint_range; lia).
  rewrite (l3step_fetch _ _ _ _ _ Hop).
  cbn [Z.eqb PUT_VAR SET_VAR SET_VAL GET_STRUC UNIFY_VAR UNIFY_VAL PUT_STRUC
         Pos.eqb].
  unfold do_PUT_VAR.
  rewrite (bind_Ret _ _ _ _ _ (operand_Ret _ _ _ _ _ Hmode Hx)).
  unfold fetch. rewrite Hai. unfold defined. unfold bind at 1. cbn [ret].
  fold xi. fold hp. rewrite E1.
  rewrite (bind_Ret _ _ _ _ _ (wr_Ret s _ _ _ S1)).
  rewrite (bind_Ret _ _ _ _ _
             (rd_Ret (set_data d1 s) _ _ (load_store_eq _ _ _ _ S1))).
  rewrite (bind_Ret _ _ _ _ _ (wr_Ret (set_data d1 s) _ _ _ S2)).
  assert (Lhp : load d2 hp = Some (mk_cell REF hp)).
  { destruct (Z.eq_dec xi hp) as [E | E].
    - rewrite <- E at 1. apply (load_store_eq _ _ _ _ S2).
    - rewrite (load_store_ne _ _ _ _ hp S2) by exact E.
      apply (load_store_eq _ _ _ _ S1). }
  rewrite (bind_Ret _ _ _ _ _
             (rd_Ret (set_data d2 (set_data d1 s)) _ _ Lhp)).
  rewrite (bind_Ret _ _ _ _ _
             (wr_Ret (set_data d2 (set_data d1 s)) _ _ _ S3)).
  reflexivity.
Qed.

End SetInstructions.

(** A register that holds a REF to the unbound variable at [h]
    dereferences to [h] in one turn of the loop. *)
Lemma deref_walk_variable d a h n :
  0 <= h < 16777216 ->
  load d a = Some (mk_cell REF h) ->
  load d h = Some (mk_cell REF h) ->
  deref_walk (S n) d a = Ret (h, REF, h).
Proof.
  intros Hh La Lh. destruct (cell_mk_REF h Hh) as [T V].
  unfold deref_walk. rewrite La. cbn [deref_loop].
  rewrite T, V, Z.eqb_refl, Lh, T, V, Z.eqb_refl. reflexivity.
Qed.

Lemma deref_walk_structure d a c n :
  load d a = Some c -> cell_tag c <> REF ->
  deref_walk n d a = Ret (a, cell_tag c, cell_val c).
Proof.
  intros La T. unfold deref_walk. rewrite La.
  destruct n; cbn [deref_loop];
    destruct (Z.eqb_spec (cell_tag c) REF); try contradiction; reflexivity.
Qed.

(** [PUT_STRUC Xi, f/n] builds the structure header and the functor cell
    in the two cells at [hp] and leaves a copy of the header in the operand
    register or stack slot: the operand then dereferences to itself and
    publishes the tag STR and the address of the functor cell.  No other
    cell changes; [hp] moves on by 2 and [ip] by 7. *)
Theorem PUT_STRUC_builds_structure fuel code l s mode x f_n :
  code_byte code (L3.l_ip l) = Some PUT_STRUC ->
  code_byte code (add32 (L3.l_ip l) 1) = Some mode ->
  code_byte code (add32 (L3.l_ip l) 2) = Some x ->
  code_jint code (L3.l_ip l + 3) = Some f_n ->
  Z.of_nat (length (L3.data s)) <= 16777216 ->
  0 <= L3.l_hp l -> L3.l_hp l + 1 < Z.of_nat (length (L3.data s)) ->
  0 <= add32 x (if mode =? STACK_ADDR then add32 (L3.l_ep l) 3 else 0)
    < Z.of_nat (length (L3.data s)) ->
  add32 x (if mode =? STACK_ADDR then add32 (L3.l_ep l) 3 else 0)
    <> L3.l_hp l + 1 ->
  exists l' s',
    L3.l3step fuel code l s = Ret (l', s') /\
    L3.l_hp l' = L3.l_hp l + 2 /\
    L3.l_ip l' = add32 (L3.l_ip l) 7 /\
    load (L3.data s') (L3.l_hp l) = Some (mk_cell STR (L3.l_hp l + 1)) /\
    load (L3.data s') (L3.l_hp l + 1) = Some f_n /\
    (forall n,
       L3.deref n
         (add32 x (if mode =? STACK_ADDR then add32 (L3.l_ep l) 3 else 0)) s'
       = Ret (add32 x (if mode =? STACK_ADDR then add32 (L3.l_ep l) 3 else 0),
              L3.set_deref STR (L3.l_hp l + 1) s')) /\
    (forall p,
       p <> L3.l_hp l -> p <> L3.l_hp l + 1 ->
       p <> add32 x (if mode =? STACK_ADDR then add32 (L3.l_ep l) 3 else 0) ->
       load (L3.data s') p = load (L3.data s) p).
Proof.
  intros Hop Hmode Hx Hfn Hlen Hhp0 Hhp1 Hxi Hne.
  set (xi := add32 x (if mode =? STACK_ADDR then add32 (L3.l_ep l) 3 else 0))
    in *.
  set (hp := L3.l_hp l) in *.
  destruct (store (L3.data s) hp (mk_cell STR (hp + 1))) as [d1 |] eqn:S1;
    [| rewrite store_in_range in S1 by lia; discriminate].
  pose proof (store_length _ _ _ _ S1) as L1.
  destruct (store d1 (hp + 1) f_n) as [d2 |] eqn:S2;
    [| rewrite store_in_range in S2 by lia; discriminate].
  pose proof (store_length _ _ _ _ S2) as L2.
  destruct (store d2 xi (mk_cell STR (hp + 1))) as [d3 |] eqn:S3;
    [| rewrite store_in_range in S3 by lia; discriminate].
  assert (Lxi : load d3 xi = Some (mk_cell STR (hp + 1)))
    by apply (load_store_eq _ _ _ _ S3).
  assert (Lhp : load d3 hp = Some (mk_cell STR (hp + 1))).
  { destruct (Z.eq_dec xi hp) as [E | E]; [rewrite <- E at 1; exact Lxi |].
    rewrite (load_store_ne _ _ _ _ hp S3) by exact E.
    rewrite (load_store_ne _ _ _ _ hp S2) by lia.
    apply (load_store_eq _ _ _ _ S1). }
  exists (L3.set_l_ip (add32 (L3.l_ip l) 7) (L3.set_l_hp (hp + 2) l)),
    (L3.set_data d3 s).
  split; [apply (PUT_STRUC_step fuel code l s mode x Hmode Hx Hlen f_n d1 d2 d3);
          assumption |].
  cbn [L3.l_hp L3.l_ip L3.set_l_ip L3.set_l_hp L3.data L3.set_data].
  repeat split.
  - exact Lhp.
  - rewrite (load_store_ne _ _ _ _ (hp + 1) S3) by exact Hne.
    apply (load_store_eq _ _ _ _ S2).
  - intros n. unfold L3.deref, L3.l3deref. cbn [L3.data L3.set_data].
    assert (T : cell_tag (mk_cell STR (hp + 1)) = STR)
      by (apply cell_tag_mk_cell; unfold STR; lia).
    rewrite (deref_walk_structure d3 xi _ n Lxi)
      by (rewrite T; discriminate).
    rewrite T, cell_val_mk_cell by (unfold STR; lia).
    rewrite Z.mod_small by lia. reflexivity.
  - intros p P1 P2 P3.
    rewrite (load_store_ne _ _ _ _ p S3) by auto.
    rewrite (load_store_ne _ _ _ _ p S2) by auto.
    apply (load_store_ne _ _ _ _ p S1). auto.
Qed.

Lemma PUT_STRUC_builds_structure_witness :
  exists l' s',
    L3.l3step 0 [PUT_STRUC; REG_ADDR; 0; 0; 5; 0; 0] L3.at_GET_STRUC L3.free_X0
      = Ret (l', s') /\
    L3.l_hp l' = L3.l_hp L3.at_GET_STRUC + 2 /\
    L3.l_ip l' = add32 (L3.l_ip L3.at_GET_STRUC) 7 /\
    load (L3.data s') (L3.l_hp L3.at_GET_STRUC)
      = Some (mk_cell STR (L3.l_hp L3.at_GET_STRUC + 1)) /\
    load (L3.data s') (L3.l_hp L3.at_GET_STRUC + 1) = Some 0x500 /\
    (forall n,
       L3.deref n
         (add32 0 (if REG_ADDR =? STACK_ADDR
                   then add32 (L3.l_ep L3.at_GET_STRUC) 3 else 0)) s'
       = Ret (add32 0 (if REG_ADDR =? STACK_ADDR
                       then add32 (L3.l_ep L3.at_GET_STRUC) 3 else 0),
              L3.set_deref STR (L3.l_hp L3.at_GET_STRUC + 1) s')) /\
    (forall p,
       p <> L3.l_hp L3.at_GET_STRUC -> p <> L3.l_hp L3.at_GET_STRUC + 1 ->
       p <> add32 0 (if REG_ADDR =? STACK_ADDR
                     then add32 (L3.l_ep L3.at_GET_STRUC) 3 else 0) ->
       load (L3.data s') p = load (L3.data L3.free_X0) p).
Proof.
  apply (PUT_STRUC_builds_structure 0 [PUT_STRUC; REG_ADDR; 0; 0; 5; 0; 0]
           L3.at_GET_STRUC L3.free_X0 REG_ADDR 0 0x500);
    try reflexivity; try compute_range; vm_compute; discriminate.
Defined.

(** [SET_VAR Xi] makes a new unbound variable at [hp] and a REF to it in
    the operand register or stack slot: the operand dereferences to the new
    cell and publishes a REF to itself.  No other cell changes; [hp] moves
    on by 1 and [ip] by 3. *)
Theorem SET_VAR_makes_variable fuel code l s mode x :
  code_byte code (L3.l_ip l) = Some SET_VAR ->
  code_byte code (add32 (L3.l_ip l) 1) = Some mode ->
  code_byte code (add32 (L3.l_ip l) 2) = Some x ->
  Z.of_nat (length (L3.data s)) <= 16777216 ->
  0 <= L3.l_hp l < Z.of_nat (length (L3.data s)) ->
  0 <= add32 x (if mode =? STACK_ADDR then add32 (L3.l_ep l) 3 else 0)
    < Z.of_nat (length (L3.data s)) ->
  exists l' s',
    L3.l3step fuel code l s = Ret (l', s') /\
    L3.l_hp l' = L3.l_hp l + 1 /\
    L3.l_ip l' = add32 (L3.l_ip l) 3 /\
    load (L3.data s') (L3.l_hp l) = Some (mk_cell REF (L3.l_hp l)) /\
    (forall n,
       L3.deref (S n)
         (add32 x (if mode =? STACK_ADDR then add32 (L3.l_ep l) 3 else 0)) s'
       = Ret (L3.l_hp l, L3.set_deref REF (L3.l_hp l) s')) /\
    (forall p,
       p <> L3.l_hp l ->
       p <> add32 x (if mode =? STACK_ADDR then add32 (L3.l_ep l) 3 else 0) ->
       load (L3.data s') p = load (L3.data s) p).
Proof.
  intros Hop Hmode Hx Hlen Hhp Hxi.
  set (xi := add32 x (if mode =? STACK_ADDR then add32 (L3.l_ep l) 3 else 0))
    in *.
  set (hp := L3.l_hp l) in *.
  destruct (store (L3.data s) hp (mk_cell REF hp)) as [d1 |] eqn:S1;
    [| rewrite store_in_range in S1 by lia; discriminate].
  pose proof (store_length _ _ _ _ S1) as L1.
  destruct (store d1 xi (mk_cell REF hp)) as [d2 |] eqn:S2;
    [| rewrite store_in_range in S2 by lia; discriminate].
  assert (Lxi : load d2 xi = Some (mk_cell REF hp))
    by apply (load_store_eq _ _ _ _ S2).
  assert (Lhp : load d2 hp = Some (mk_cell REF hp)).
  { destruct (Z.eq_dec xi hp) as [E | E]; [rewrite <- E at 1; exact Lxi |].
    rewrite (load_store_ne _ _ _ _ hp S2) by exact E.
    apply (load_store_eq _ _ _ _ S1). }
  exists (L3.set_l_ip (add32 (L3.l_ip l) 3) (L3.set_l_hp (hp + 1) l)),
    (L3.set_data d2 s).
  split; [apply (SET_VAR_step fuel code l s mode x Hmode Hx Hlen d1 d2);
          assumption |].
  cbn [L3.l_hp L3.l_ip L3.set_l_ip L3.set_l_hp L3.data L3.set_data].
  repeat split.
  - exact Lhp.
  - intros n. unfold L3.deref, L3.l3deref. cbn [L3.data L3.set_data].
    rewrite (deref_walk_variable d2 xi hp n) by (auto; lia). reflexivity.
  - intros p P1 P2.
    rewrite (load_store_ne _ _ _ _ p S2) by auto.
    apply (load_store_ne _ _ _ _ p S1). auto.
Qed.

Lemma SET_VAR_makes_variable_witness :
  exists l' s',
    L3.l3step 0 [SET_VAR; REG_ADDR; 0] L3.at_GET_STRUC L3.free_X0
      = Ret (l', s') /\
    L3.l_hp l' = L3.l_hp L3.at_GET_STRUC + 1 /\
    L3.l_ip l' = add32 (L3.l_ip L3.at_GET_STRUC) 3 /\
    load (L3.data s') (L3.l_hp L3.at_GET_STRUC)
      = Some (mk_cell REF (L3.l_hp L3.at_GET_STRUC)) /\
    (forall n,
       L3.deref (S n)
         (add32 0 (if REG_ADDR =? STACK_ADDR
                   then add32 (L3.l_ep L3.at_GET_STRUC) 3 else 0)) s'
       = Ret (L3.l_hp L3.at_GET_STRUC,
              L3.set_deref REF (L3.l_hp L3.at_GET_STRUC) s')) /\
    (forall p,
       p <> L3.l_hp L3.at_GET_STRUC ->
       p <> add32 0 (if REG_ADDR =? STACK_ADDR
                     then add32 (L3.l_ep L3.at_GET_STRUC) 3 else 0) ->
       load (L3.data s') p = load (L3.data L3.free_X0) p).
Proof.
  apply (SET_VAR_makes_variable 0 [SET_VAR; REG_ADDR; 0]
           L3.at_GET_STRUC L3.free_X0 REG_ADDR 0);
    try reflexivity; try compute_range; vm_compute; discriminate.
Defined.

(** [PUT_VAR Xn, Ai] makes one new unbound variable at [hp] and a REF to it
    in both operands: the register or stack slot [Xn] and the argument
    register [Ai] dereference to the same new cell. *)
Theorem PUT_VAR_shares_variable fuel code l s mode x ai :
  code_byte code (L3.l_ip l) = Some PUT_VAR ->
  code_byte code (add32 (L3.l_ip l) 1) = Some mode ->
  code_byte code (add32 (L3.l_ip l) 2) = Some x ->
  code_byte code (add32 (L3.l_ip l) 3) = Some ai ->
  Z.of_nat (length (L3.data s)) <= 16777216 ->
  0 <= L3.l_hp l < Z.of_nat (length (L3.data s)) ->
  0 <= add32 x (if mode =? STACK_ADDR then add32 (L3.l_ep l) 3 else 0)
    < Z.of_nat (length (L3.data s)) ->
  0 <= ai < Z.of_nat (length (L3.data s)) ->
  exists l' s',
    L3.l3step fuel code l s = Ret (l', s') /\
    L3.l_hp l' = L3.l_hp l + 1 /\
    L3.l_ip l' = add32 (L3.l_ip l) 4 /\
    (forall n,
       L3.deref (S n)
         (add32 x (if mode =? STACK_ADDR then add32 (L3.l_ep l) 3 else 0)) s'
       = Ret (L3.l_hp l, L3.set_deref REF (L3.l_hp l) s')) /\
    (forall n,
       L3.deref (S n) ai s' = Ret (L3.l_hp l, L3.set_deref REF (L3.l_hp l) s')) /\
    (forall p,
       p <> L3.l_hp l ->
       p <> add32 x (if mode =? STACK_ADDR then add32 (L3.l_ep l) 3 else 0) ->
       p <> ai ->
       load (L3.data s') p = load (L3.data s) p).
Proof.
  intros Hop Hmode Hx Hai Hlen Hhp Hxi Hair.
  set (xi := add32 x (if mode =? STACK_ADDR then add32 (L3.l_ep l) 3 else 0))
    in *.
  set (hp := L3.l_hp l) in *.
  destruct (store (L3.data s) hp (mk_cell REF hp)) as [d1 |] eqn:S1;
    [| rewrite store_in_range in S1 by lia; discriminate].
  pose proof (store_length _ _ _ _ S1) as L1.
  destruct (store d1 xi (mk_cell REF hp)) as [d2 |] eqn:S2;
    [| rewrite store_in_range in S2 by lia; discriminate].
  pose proof (store_length _ _ _ _ S2) as L2.
  destruct (store d2 ai (mk_cell REF hp)) as [d3 |] eqn:S3;
    [| rewrite store_in_range in S3 by lia; discriminate].
  assert (Lai : load d3 ai = Some (mk_cell REF hp))
    by apply (load_store_eq _ _ _ _ S3).
  assert (Lxi : load d3 xi = Some (mk_cell REF hp)).
  { destruct (Z.eq_dec ai xi) as [E | E]; [rewrite <- E at 1; exact Lai |].
    rewrite (load_store_ne _ _ _ _ xi S3) by exact E.
    apply (load_store_eq _ _ _ _ S2). }
  assert (Lhp : load d3 hp = Some (mk_cell REF hp)).
  { destruct (Z.eq_dec ai hp) as [E | E]; [rewrite <- E at 1; exact Lai |].
    rewrite (load_store_ne _ _ _ _ hp S3) by exact E.
    destruct (Z.eq_dec xi hp) as [E' | E'].
    - rewrite <- E' at 1. apply (load_store_eq _ _ _ _ S2).
    - rewrite (load_store_ne _ _ _ _ hp S2) by exact E'.
      apply (load_store_eq _ _ _ _ S1). }
  exists (L3.set_l_ip (add32 (L3.l_ip l) 4) (L3.set_l_hp (hp + 1) l)),
    (L3.set_data d3 s).
  split; [apply (PUT_VAR_step fuel code l s mode x Hmode Hx Hlen ai d1 d2 d3);
          assumption |].
  cbn [L3.l_hp L3.l_ip L3.set_l_ip L3.set_l_hp L3.data L3.set_data].
  repeat split.
  - intros n. unfold L3.deref, L3.l3deref. cbn [L3.data L3.set_data].
    rewrite (deref_walk_variable d3 xi hp n) by (auto; lia). reflexivity.
  - intros n. unfold L3.deref, L3.l3deref. cbn [L3.data L3.set_data].
    rewrite (deref_walk_variable d3 ai hp n) by (auto; lia). reflexivity.
  - intros p P1 P2 P3.
    rewrite (load_store_ne _ _ _ _ p S3) by auto.
    rewrite (load_store_ne _ _ _ _ p S2) by auto.
    apply (load_store_ne _ _ _ _ p S1). auto.
Qed.

Lemma PUT_VAR_shares_variable_witness :
  exists l' s',
    L3.l3step 0 [PUT_VAR; REG_ADDR; 0; 1] L3.at_GET_STRUC L3.free_X0
      = Ret (l', s') /\
    L3.l_hp l' = L3.l_hp L3.at_GET_STRUC + 1 /\
    L3.l_ip l' = add32 (L3.l_ip L3.at_GET_STRUC) 4 /\
    (forall n,
       L3.deref (S n)
         (add32 0 (if REG_ADDR =? STACK_ADDR
                   then add32 (L3.l_ep L3.at_GET_STRUC) 3 else 0)) s'
       = Ret (L3.l_hp L3.at_GET_STRUC,
              L3.set_deref REF (L3.l_hp L3.at_GET_STRUC) s')) /\
    (forall n,
       L3.deref (S n) 1 s'
       = Ret (L3.l_hp L3.at_GET_STRUC,
              L3.set_deref REF (L3.l_hp L3.at_GET_STRUC) s')) /\
    (forall p,
       p <> L3.l_hp L3.at_GET_STRUC ->
       p <> add32 0 (if REG_ADDR =? STACK_ADDR
                     then add32 (L3.l_ep L3.at_GET_STRUC) 3 else 0) ->
       p <> 1 ->
       load (L3.data s') p = load (L3.data L3.free_X0) p).
Proof.
  apply (PUT_VAR_shares_variable 0 [PUT_VAR; REG_ADDR; 0; 1]
           L3.at_GET_STRUC L3.free_X0 REG_ADDR 0 1);
    try reflexivity; try compute_range; vm_compute; discriminate.
Defined.

(** ** Matching a structure *)

(** The decode step of [GET_STRUC] on an operand that dereferences to the
    structure cell [c], whose functor cell holds [g]. *)
Lemma GET_STRUC_structure_step code l s mode x f_n d c g :
  code_byte code (L3.l_ip l) = Some GET_STRUC ->
  code_byte code (add32 (L3.l_ip l) 1) = Some mode ->
  code_byte code (add32 (L3.l_ip l) 2) = Some x ->
  code_jint code (L3.l_ip l + 3) = Some f_n ->
  ref_chain (L3.data s)
    (add32 x (if mode =? STACK_ADDR then add32 (L3.l_ep l) 3 else 0)) d ->
  load (L3.data s) d = Some c -> cell_tag c = STR ->
  load (L3.data s) (cell_val c) = Some g ->
  exists fuel,
    L3.l3step fuel code l s
    = Ret (L3.set_l_ip (add32 (L3.l_ip l) 7)
             (if g =? f_n
              then L3.set_l_writeMode false
                     (L3.set_l_sp (add32 (cell_val c) 1) l)
              else L3.set_l_failed true l),
           L3.set_deref STR (cell_val c) s).
Proof.
  intros Hop Hmode Hx Hfn Hchain Hc Ht Hg.
  destruct (l3deref_complete _ _ _ Hchain) as (fuel & c' & Hc' & Hderef).
  rewrite Hc in Hc'. inversion Hc'; subst c'. clear Hc'.
  rewrite Ht in Hderef.
  set (s1 := L3.set_deref STR (cell_val c) s) in *.
  pose proof (do_GET_STRUC_deref code l s mode x f_n Hop Hmode Hx Hfn
                fuel d s1 Hderef) as Hstep.
  cbn [L3.derefTag L3.derefVal L3.set_deref s1] in Hstep.
  cbn [Z.eqb REF STR Pos.eqb] in Hstep.
  assert (Hrd : L3.rd (cell_val c) s1 = Ret (g, s1))
    by (apply rd_Ret; exact Hg).
  unfold bind at 1 in Hstep. rewrite (bind_Ret _ _ _ _ _ Hrd) in Hstep.
  exists fuel. rewrite Hstep. destruct (g =? f_n); reflexivity.
Qed.

(** [GET_STRUC Xi, f/n] on an operand that dereferences to a structure:
    the functor word of the structure is compared with the one in the
    instruction.  On equal words the machine goes to read mode with [sp] at
    the first argument cell; on different words the instruction fails.  In
    both cases the data area is left as it was. *)
Theorem GET_STRUC_matches_structure code l s mode x f_n d c g :
  code_byte code (L3.l_ip l) = Some GET_STRUC ->
  code_byte code (add32 (L3.l_ip l) 1) = Some mode ->
  code_byte code (add32 (L3.l_ip l) 2) = Some x ->
  code_jint code (L3.l_ip l + 3) = Some f_n ->
  ref_chain (L3.data s)
    (add32 x (if mode =? STACK_ADDR then add32 (L3.l_ep l) 3 else 0)) d ->
  load (L3.data s) d = Some c -> cell_tag c = STR ->
  load (L3.data s) (cell_val c) = Some g ->
  exists fuel l' s',
    L3.l3step fuel code l s = Ret (l', s') /\
    L3.data s' = L3.data s /\
    L3.l_ip l' = add32 (L3.l_ip l) 7 /\
    L3.l_hp l' = L3.l_hp l /\
    (if g =? f_n
     then L3.l_failed l' = L3.l_failed l /\ L3.l_writeMode l' = false /\
          L3.l_sp l' = add32 (cell_val c) 1
     else L3.l_failed l' = true /\ L3.l_writeMode l' = L3.l_writeMode l /\
          L3.l_sp l' = L3.l_sp l).
Proof.
  intros Hop Hmode Hx Hfn Hchain Hc Ht Hg.
  destruct (GET_STRUC_structure_step code l s mode x f_n d c g)
    as [fuel Hstep]; try assumption.
  exists fuel. eexists _, _. split; [exact Hstep |].
  destruct (g =? f_n); cbn; repeat split.
Qed.

Lemma GET_STRUC_matches_structure_witness :
  exists fuel l' s',
    L3.l3step fuel [GET_STRUC; REG_ADDR; 2; 0; 5; 0; 0]
      L3.at_outer_frame L3.small_state = Ret (l', s') /\
    L3.data s' = L3.data L3.small_state /\
    L3.l_ip l' = add32 (L3.l_ip L3.at_outer_frame) 7 /\
    L3.l_hp l' = L3.l_hp L3.at_outer_frame /\
    (if 0x500 =? 0x500
     then L3.l_failed l' = L3.l_failed L3.at_outer_frame /\
          L3.l_writeMode l' = false /\
          L3.l_sp l' = add32 (cell_val (mk_cell STR 3)) 1
     else L3.l_failed l' = true /\
          L3.l_writeMode l' = L3.l_writeMode L3.at_outer_frame /\
          L3.l_sp l' = L3.l_sp L3.at_outer_frame).
Proof.
  apply (GET_STRUC_matches_structure [GET_STRUC; REG_ADDR; 2; 0; 5; 0; 0]
           L3.at_outer_frame L3.small_state REG_ADDR 2 0x500 2
           (mk_cell STR 3) 0x500); try reflexivity.
  apply (chain_end _ 2 (mk_cell STR 3)); [reflexivity |].
  left. vm_compute. discriminate.
Defined.



(** ** Passing an argument *)

(** [PUT_VAL Xn, Ai] followed by [GET_VAR Xm, Ai], the caller's and the
    callee's half of passing a value in argument register [Ai]: the cell of
    [Xn] ends up in [Xm] and in [Ai], no other cell changes, and nothing but
    [ip] moves. *)
Theorem PUT_VAL_then_GET_VAR_copies fuel code l s mode1 x1 mode2 x2 ai c :
  code_byte code (L3.l_ip l) = Some PUT_VAL ->
  code_byte code (add32 (L3.l_ip l) 1) = Some mode1 ->
  code_byte code (add32 (L3.l_ip l) 2) = Some x1 ->
  code_byte code (add32 (L3.l_ip l) 3) = Some ai ->
  code_byte code (add32 (L3.l_ip l) 4) = Some GET_VAR ->
  code_byte code (add32 (add32 (L3.l_ip l) 4) 1) = Some mode2 ->
  code_byte code (add32 (add32 (L3.l_ip l) 4) 2) = Some x2 ->
  code_byte code (add32 (add32 (L3.l_ip l) 4) 3) = Some ai ->
  load (L3.data s)
    (add32 x1 (if mode1 =? STACK_ADDR then add32 (L3.l_ep l) 3 else 0))
    = Some c ->
  0 <= ai < Z.of_nat (length (L3.data s)) ->
  0 <= add32 x2 (if mode2 =? STACK_ADDR then add32 (L3.l_ep l) 3 else 0)
    < Z.of_nat (length (L3.data s)) ->
  exists l1 s1 s2,
    L3.l3step fuel code l s = Ret (l1, s1) /\
    L3.l3step fuel code l1 s1
    = Ret (L3.set_l_ip (add32 (add32 (L3.l_ip l) 4) 4) l, s2) /\
    load (L3.data s2)
      (add32 x2 (if mode2 =? STACK_ADDR then add32 (L3.l_ep l) 3 else 0))
      = Some c /\
    (ai <> add32 x2 (if mode2 =? STACK_ADDR then add32 (L3.l_ep l) 3 else 0) ->
     load (L3.data s2) ai = Some c) /\
    (forall p,
       p <> ai ->
       p <> add32 x2 (if mode2 =? STACK_ADDR then add32 (L3.l_ep l) 3 else 0) ->
       load (L3.data s2) p = load (L3.data s) p).
Proof.
  intros Hop1 Hm1 Hx1 Ha1 Hop2 Hm2 Hx2 Ha2 Hc Hai Hxm.
  set (xn := add32 x1 (if mode1 =? STACK_ADDR then add32 (L3.l_ep l) 3 else 0))
    in *.
  set (xm := add32 x2 (if mode2 =? STACK_ADDR then add32 (L3.l_ep l) 3 else 0))
    in *.
  destruct (store (L3.data s) ai c) as [d1 |] eqn:S1;
    [| rewrite store_in_range in S1 by lia; discriminate].
  pose proof (store_length _ _ _ _ S1) as L1.
  destruct (store d1 xm c) as [d2 |] eqn:S2;
    [| rewrite store_in_range in S2 by lia; discriminate].
  set (l1 := L3.set_l_ip (add32 (L3.l_ip l) 4) l).
  exists l1, (L3.set_data d1 s), (L3.set_data d2 (L3.set_data d1 s)).
  split; [| split; [| split; [| split]]].
  - rewrite (l3step_fetch _ _ _ _ _ Hop1).
    cbn [Z.eqb Pos.eqb PUT_STRUC SET_VAR SET_VAL GET_STRUC UNIFY_VAR UNIFY_VAL
           PUT_VAR PUT_VAL].
    unfold L3.do_PUT_VAL.
    rewrite (bind_Ret _ _ _ _ _ (operand_Ret _ _ _ _ _ Hm1 Hx1)).
    unfold L3.fetch. rewrite Ha1. unfold defined. unfold bind at 1. cbn [ret].
    fold xn.
    rewrite (bind_Ret _ _ _ _ _ (rd_Ret s _ _ Hc)).
    rewrite (bind_Ret _ _ _ _ _ (wr_Ret s _ _ _ S1)). reflexivity.
  - rewrite (l3step_fetch fuel code l1 _ _ Hop2).
    cbn [Z.eqb Pos.eqb PUT_STRUC SET_VAR SET_VAL GET_STRUC UNIFY_VAR UNIFY_VAL
           PUT_VAR PUT_VAL GET_VAR].
    unfold L3.do_GET_VAR.
    rewrite (bind_Ret _ _ _ _ _ (operand_Ret code l1 _ _ _ Hm2 Hx2)).
    unfold L3.fetch. cbn [l1 L3.l_ip L3.l_ep L3.set_l_ip].
    rewrite Ha2. unfold defined. unfold bind at 1. cbn [ret]. fold xm.
    rewrite (bind_Ret _ _ _ _ _
               (rd_Ret (L3.set_data d1 s) _ _ (load_store_eq _ _ _ _ S1))).
    rewrite (bind_Ret _ _ _ _ _ (wr_Ret (L3.set_data d1 s) _ _ _ S2)).
    reflexivity.
  - apply (load_store_eq _ _ _ _ S2).
  - intros Hne. cbn [L3.data L3.set_data].
    rewrite (load_store_ne _ _ _ _ ai S2) by auto.
    apply (load_store_eq _ _ _ _ S1).
  - intros p P1 P2. cbn [L3.data L3.set_data].
    rewrite (load_store_ne _ _ _ _ p S2) by auto.
    apply (load_store_ne _ _ _ _ p S1). auto.
Qed.

Lemma PUT_VAL_then_GET_VAR_copies_witness :
  exists l1 s1 s2,
    L3.l3step 0 [PUT_VAL; REG_ADDR; 2; 1; GET_VAR; REG_ADDR; 0; 1]
      L3.at_outer_frame L3.small_state = Ret (l1, s1) /\
    L3.l3step 0 [PUT_VAL; REG_ADDR; 2; 1; GET_VAR; REG_ADDR; 0; 1] l1 s1
    = Ret (L3.set_l_ip (add32 (add32 (L3.l_ip L3.at_outer_frame) 4) 4)
             L3.at_outer_frame, s2) /\
    load (L3.data s2)
      (add32 0 (if REG_ADDR =? STACK_ADDR
                then add32 (L3.l_ep L3.at_outer_frame) 3 else 0))
      = Some (mk_cell STR 3) /\
    (1 <> add32 0 (if REG_ADDR =? STACK_ADDR
                   then add32 (L3.l_ep L3.at_outer_frame) 3 else 0) ->
     load (L3.data s2) 1 = Some (mk_cell STR 3)) /\
    (forall p,
       p <> 1 ->
       p <> add32 0 (if REG_ADDR =? STACK_ADDR
                     then add32 (L3.l_ep L3.at_outer_frame) 3 else 0) ->
       load (L3.data s2) p = load (L3.data L3.small_state) p).
Proof.
  apply (PUT_VAL_then_GET_VAR_copies 0
           [PUT_VAL; REG_ADDR; 2; 1; GET_VAR; REG_ADDR; 0; 1]
           L3.at_outer_frame L3.small_state REG_ADDR 2 REG_ADDR 0 1
           (mk_cell STR 3));
    try reflexivity; compute_range.
Defined.

(** ** Unification, case by case *)

(** *** Chains and stores *)

Lemma heap_chain_ref_chain d b a r : heap_chain d b a r -> ref_chain d a r.
Proof.
  induction 1; [eapply chain_end | eapply chain_next]; eauto.
Qed.

Lemma heap_chain_below d b a r : heap_chain d b a r -> r < b.
Proof. induction 1; auto. Qed.

(** A store at or above the bound leaves the chains below it alone. *)
Lemma heap_chain_store d b p v d' a r :
  store d p v = Some d' -> b <= p ->
  heap_chain d b a r -> heap_chain d' b a r.
Proof.
  intros Hst Hp H.
  induction H as [a c Ha Hc Hend | a c r Ha Hc Ht Hv Hr IH].
  - eapply heap_chain_end; eauto.
    rewrite (load_store_ne _ _ _ _ _ Hst) by lia. exact Hc.
  - eapply heap_chain_next; eauto.
    rewrite (load_store_ne _ _ _ _ _ Hst) by lia. exact Hc.
Qed.

Lemma ref_chain_end_self d a r : ref_chain d a r -> ref_chain d r r.
Proof.
  intros H. destruct (ref_chain_stop _ _ _ H) as (c & Hc & Hend).
  eapply chain_end; eauto.
Qed.

(** Binding: a REF to the chain end [t] is stored in the chain end [e].
    Every chain that stopped at [e] now stops at [t], every other chain is
    as before. *)
Lemma ref_chain_bind d e t dd :
  ref_chain d e e -> ref_chain d t t -> e <> t ->
  0 <= t < 16777216 ->
  store d e (mk_cell REF t) = Some dd ->
  forall a r, ref_chain d a r -> ref_chain dd a (if r =? e then t else r).
Proof.
  intros He Ht Hne Hrange Hst.
  destruct (cell_mk_REF t Hrange) as [Tag Val].
  assert (Hend : ref_chain dd t t).
  { inversion Ht as [t0 c Hc Hstop | t0 c r0 Hc Htag Hval Hr]; subst.
    - eapply chain_end; [| exact Hstop].
      rewrite (load_store_ne _ _ _ _ _ Hst) by exact Hne. exact Hc.
    - pose proof (ref_chain_stop _ _ _ Ht) as (c' & Hc' & Hstop).
      rewrite Hc in Hc'. inversion Hc'; subst c'.
      destruct Hstop; contradiction. }
  intros a r H.
  induction H as [a c Hc Hstop | a c r Hc Htag Hval Hr IH].
  - destruct (Z.eqb_spec a e) as [-> | Hae].
    + eapply chain_next.
      * apply (load_store_eq _ _ _ _ Hst).
      * exact Tag.
      * rewrite Val. auto.
      * rewrite Val. exact Hend.
    + eapply chain_end; [| exact Hstop].
      rewrite (load_store_ne _ _ _ _ _ Hst) by auto. exact Hc.
  - assert (Hae : a <> e).
    { intros ->. pose proof (ref_chain_stop _ _ _ He) as (c' & Hc' & Hstop).
      rewrite Hc in Hc'. inversion Hc'; subst c'.
      destruct Hstop; contradiction. }
    eapply chain_next; eauto.
    rewrite (load_store_ne _ _ _ _ _ Hst) by auto. exact Hc.
Qed.

(** *** From the description to the machine *)

Lemma l3unify_complete a1 a2 s res d' u' :
  addressable s ->
  unify_spec a1 a2 (L3.data s) (L3.up s) res d' u' ->
  exists fuel s',
    L3.l3unify fuel a1 a2 s = Ret (res, s') /\
    L3.data s' = d' /\ L3.up s' = u'.
Proof.
  intros Hs (d0 & u0 & Hp & Hrun). cbn [pdl_push_list] in Hp.
  destruct (pdl_push (L3.data s) (L3.up s) a1) as [[d1 u1] |] eqn:P1;
    [| discriminate].
  destruct (pdl_push d1 u1 a2) as [[d2 u2] |] eqn:P2; [| discriminate].
  inversion Hp; subst d0 u0. clear Hp.
  pose proof (pdl_push_inv _ _ _ _ _ P1) as (_ & -> & L1 & R1).
  pose proof (pdl_push_inv _ _ _ _ _ P2) as (_ & -> & L2 & R2).
  assert (Hs1 : addressable (L3.set_data d1 (L3.set_up (L3.up s - 1) s))).
  { destruct Hs as [Hlen Hup]. split; cbn; [rewrite L1; exact Hlen |].
    unfold jint_range in *. lia. }
  set (s2 := L3.set_data d2 (L3.set_up (L3.up s - 1 - 1)
               (L3.set_data d1 (L3.set_up (L3.up s - 1) s)))).
  assert (Hs2 : addressable s2).
  { destruct Hs as [Hlen Hup]. split; cbn; [rewrite L2, L1; exact Hlen |].
    unfold jint_range in *. lia. }
  destruct (l3unify_loop_complete _ _ _ _ _ Hrun s2 Hs2 eq_refl eq_refl)
    as (fuel & n & s' & Hl & Hd & Hu).
  exists (Nat.max fuel n), s'. split; [| auto].
  unfold L3.l3unify. unfold bind at 1. rewrite l3uPush_eq by exact Hs.
  rewrite P1. unfold bind at 1. rewrite l3uPush_eq by exact Hs1.
  cbn [L3.data L3.up L3.set_data L3.set_up]. rewrite P2. fold s2.
  rewrite (bind_Ret _ _ _ _ _
             (l3unify_loop_mono n fuel (Nat.max fuel n) (Nat.max fuel n)
                false s2 _ (Nat.le_max_l _ _) (Nat.le_max_r _ _) Hs2 Hl)).
  rewrite negb_involutive. reflexivity.
Qed.

(** The two pushes with which [l3unify] starts on an idle PDL, and what they
    leave of the data area below. *)
Lemma unify_entry d a1 a2 :
  TOP <= Z.of_nat (length d) ->
  exists d0,
    pdl_push_list d TOP [a1; a2] = Some (d0, TOP - 2) /\
    load d0 (TOP - 2) = Some a2 /\
    load d0 (TOP - 2 + 1) = Some a1 /\
    (forall p, p < TOP - 2 -> load d0 p = load d p) /\
    (forall a r, heap_chain d (TOP - 2) a r -> heap_chain d0 (TOP - 2) a r).
Proof.
  intros Hlen. assert (HTOP : TOP = 21010) by reflexivity.
  destruct (store d (TOP - 1) a1) as [d1 |] eqn:S1;
    [| rewrite store_in_range in S1 by lia; discriminate].
  pose proof (store_length _ _ _ _ S1) as L1.
  destruct (store d1 (TOP - 1 - 1) a2) as [d2 |] eqn:S2;
    [| rewrite store_in_range in S2 by lia; discriminate].
  exists d2. cbn [pdl_push_list]. unfold pdl_push. rewrite S1, S2.
  replace (TOP - 1 - 1) with (TOP - 2) in * by lia.
  split; [reflexivity |]. split; [apply (load_store_eq _ _ _ _ S2) |].
  split.
  { rewrite (load_store_ne _ _ _ _ _ S2) by lia.
    replace (TOP - 2 + 1) with (TOP - 1) by lia.
    apply (load_store_eq _ _ _ _ S1). }
  split.
  - intros p Hp. rewrite (load_store_ne _ _ _ _ _ S2) by lia.
    apply (load_store_ne _ _ _ _ _ S1). lia.
  - intros a r H. eapply heap_chain_store; [exact S2 | lia |].
    eapply heap_chain_store; [exact S1 | lia | exact H].
Qed.

(** *** Unification with a variable

    When the two addresses dereference to the same cell, or one of them to
    an unbound variable, [l3unify] succeeds; afterwards both addresses
    dereference to one cell, the PDL is empty again, and below the PDL no
    cell but the two endpoints can have changed. *)
Theorem l3unify_binds_variable a1 a2 s r1 r2 c1 c2 :
  pdl_idle s ->
  TOP <= Z.of_nat (length (L3.data s)) ->
  heap_chain (L3.data s) (TOP - 2) a1 r1 ->
  heap_chain (L3.data s) (TOP - 2) a2 r2 ->
  load (L3.data s) r1 = Some c1 -> load (L3.data s) r2 = Some c2 ->
  r1 = r2 \/ cell_tag c1 = REF \/ cell_tag c2 = REF ->
  exists fuel s' r,
    L3.l3unify fuel a1 a2 s = Ret (true, s') /\
    L3.up s' = TOP /\
    ref_chain (L3.data s') a1 r /\ ref_chain (L3.data s') a2 r /\
    (r = r1 \/ r = r2) /\
    (forall p, p < TOP - 2 -> p <> r1 -> p <> r2 ->
       load (L3.data s') p = load (L3.data s) p).
Proof.
  intros [Hs Hup] Hlen H1 H2 L1 L2 Hcase.
  destruct (unify_entry (L3.data s) a1 a2 Hlen)
    as (d0 & Hpush & Ltop & Lnext & Hframe & Hkeep).
  pose proof (heap_chain_below _ _ _ _ H1) as B1.
  pose proof (heap_chain_below _ _ _ _ H2) as B2.
  pose proof (heap_chain_ref_chain _ _ _ _ (Hkeep _ _ H1)) as C1.
  pose proof (heap_chain_ref_chain _ _ _ _ (Hkeep _ _ H2)) as C2.
  assert (L1' : load d0 r1 = Some c1) by (rewrite Hframe by lia; exact L1).
  assert (L2' : load d0 r2 = Some c2) by (rewrite Hframe by lia; exact L2).
  pose proof (load_Some_range _ _ _ L1) as R1.
  pose proof (load_Some_range _ _ _ L2) as R2.
  destruct Hs as [Hlen24 Hjint].
  assert (HTOP : TOP = 21010) by reflexivity.
  assert (Done : forall dd r,
            unify_iter d0 (TOP - 2) false dd (TOP - 2 + 2) ->
            ref_chain dd a1 r -> ref_chain dd a2 r -> (r = r1 \/ r = r2) ->
            (forall p, p < TOP - 2 -> p <> r1 -> p <> r2 ->
               load dd p = load (L3.data s) p) ->
            exists fuel s' r,
              L3.l3unify fuel a1 a2 s = Ret (true, s') /\
              L3.up s' = TOP /\
              ref_chain (L3.data s') a1 r /\ ref_chain (L3.data s') a2 r /\
              (r = r1 \/ r = r2) /\
              (forall p, p < TOP - 2 -> p <> r1 -> p <> r2 ->
                 load (L3.data s') p = load (L3.data s) p)).
  { intros dd r Hiter Ca Cb Hr Hfr.
    destruct (l3unify_complete a1 a2 s true dd TOP) as (fuel & s' & Hu & Hd & Hu').
    - split; assumption.
    - exists d0, (TOP - 2). rewrite Hup. split; [exact Hpush |].
      eapply run_continue; [lia | exact Hiter |].
      replace (TOP - 2 + 2) with TOP by lia. apply run_drained. lia.
    - exists fuel, s', r. rewrite Hd. auto 10. }
  destruct (Z.eq_dec r1 r2) as [E | Hne].
  { subst r2. apply (Done d0 r1).
    - eapply iter_same; eauto.
    - exact C1.
    - exact C2.
    - auto.
    - intros p Hp _ _. apply Hframe. exact Hp. }
  destruct (Z.eq_dec (cell_tag c2) REF) as [T2 | T2].
  - (* the endpoint of [a2], popped first, is the variable *)
    destruct (store d0 r2 (mk_cell REF r1)) as [dd |] eqn:Hst.
    2:{ rewrite store_in_range in Hst; [discriminate |].
        destruct (pdl_push_list_length _ _ _ _ _ Hpush) as [-> _]. lia. }
    pose proof (ref_chain_bind d0 r2 r1 dd
                  (ref_chain_end_self _ _ _ C2) (ref_chain_end_self _ _ _ C1)
                  (not_eq_sym Hne) ltac:(lia) Hst) as Hbind.
    apply (Done dd r1).
    + eapply (iter_bind d0 (TOP - 2) a2 a1 r2 r1 c2 c1 dd); eauto.
      unfold bind_cells. rewrite T2, Z.eqb_refl. exact Hst.
    + specialize (Hbind a1 r1 C1).
      destruct (Z.eqb_spec r1 r2); [contradiction | exact Hbind].
    + specialize (Hbind a2 r2 C2). rewrite Z.eqb_refl in Hbind. exact Hbind.
    + auto.
    + intros p Hp Hp1 Hp2. rewrite (load_store_ne _ _ _ _ _ Hst) by auto.
      apply Hframe. exact Hp.
  - assert (T1 : cell_tag c1 = REF) by (destruct Hcase as [? | [? | ?]]; tauto).
    destruct (store d0 r1 (mk_cell REF r2)) as [dd |] eqn:Hst.
    2:{ rewrite store_in_range in Hst; [discriminate |].
        destruct (pdl_push_list_length _ _ _ _ _ Hpush) as [-> _]. lia. }
    pose proof (ref_chain_bind d0 r1 r2 dd
                  (ref_chain_end_self _ _ _ C1) (ref_chain_end_self _ _ _ C2)
                  Hne ltac:(lia) Hst) as Hbind.
    apply (Done dd r2).
    + eapply (iter_bind d0 (TOP - 2) a2 a1 r2 r1 c2 c1 dd); eauto.
      unfold bind_cells.
      destruct (Z.eqb_spec (cell_tag c2) REF); [contradiction | exact Hst].
    + specialize (Hbind a1 r1 C1). rewrite Z.eqb_refl in Hbind. exact Hbind.
    + specialize (Hbind a2 r2 C2).
      destruct (Z.eqb_spec r2 r1); [congruence | exact Hbind].
    + auto.
    + intros p Hp Hp1 Hp2. rewrite (load_store_ne _ _ _ _ _ Hst) by auto.
      apply Hframe. exact Hp.
Qed.

Lemma l3unify_binds_variable_witness :
  exists fuel s' r,
    L3.l3unify fuel 0 1 L3.example_state = Ret (true, s') /\
    L3.up s' = TOP /\
    ref_chain (L3.data s') 0 r /\ ref_chain (L3.data s') 1 r /\
    (r = 12 \/ r = 1) /\
    (forall p, p < TOP - 2 -> p <> 12 -> p <> 1 ->
       load (L3.data s') p = load (L3.data L3.example_state) p).
Proof.
  apply (l3unify_binds_variable 0 1 L3.example_state 12 1
           (mk_cell REF 12) (mk_cell STR 11)).
  - split; [split; [vm_compute; discriminate | compute_range] |
            vm_compute; reflexivity].
  - vm_compute. discriminate.
  - apply (heap_chain_next _ _ 0 (mk_cell REF 12));
      [vm_compute; reflexivity | vm_compute; reflexivity
      | vm_compute; reflexivity | vm_compute; discriminate |].
    apply (heap_chain_end _ _ _ (mk_cell REF 12));
      [vm_compute; reflexivity | vm_compute; reflexivity |].
    right. vm_compute. reflexivity.
  - apply (heap_chain_end _ _ 1 (mk_cell STR 11));
      [vm_compute; reflexivity | vm_compute; reflexivity |].
    left. vm_compute. discriminate.
  - vm_compute. reflexivity.
  - vm_compute. reflexivity.
  - right. left. vm_compute. reflexivity.
Defined.

(** *** Unification of two structures

    When the two addresses dereference to different cells that are no REFs,
    [l3unify] compares the functor words their payloads point to.  On
    different words it returns false.  On equal words whose arity byte is
    not positive (a constant, or a byte of 128 and more, which the machine
    reads as negative) there are no arguments to compare and it returns
    true.  In both cases nothing is bound: below the PDL the data area is
    as before, and the PDL is empty again. *)
Theorem l3unify_compares_functors a1 a2 s r1 r2 c1 c2 f1 f2 :
  pdl_idle s ->
  TOP <= Z.of_nat (length (L3.data s)) ->
  heap_chain (L3.data s) (TOP - 2) a1 r1 ->
  heap_chain (L3.data s) (TOP - 2) a2 r2 ->
  r1 <> r2 ->
  load (L3.data s) r1 = Some c1 -> load (L3.data s) r2 = Some c2 ->
  cell_tag c1 <> REF -> cell_tag c2 <> REF ->
  cell_val c1 < TOP - 2 -> cell_val c2 < TOP - 2 ->
  load (L3.data s) (cell_val c1) = Some f1 ->
  load (L3.data s) (cell_val c2) = Some f2 ->
  (f1 = f2 -> arity f1 <= 0) ->
  exists fuel s',
    L3.l3unify fuel a1 a2 s = Ret (f1 =? f2, s') /\
    L3.up s' = TOP /\
    (forall p, p < TOP - 2 -> load (L3.data s') p = load (L3.data s) p).
Proof.
  intros [Hs Hup] Hlen H1 H2 Hne L1 L2 T1 T2 V1 V2 F1 F2 Har.
  destruct (unify_entry (L3.data s) a1 a2 Hlen)
    as (d0 & Hpush & Ltop & Lnext & Hframe & Hkeep).
  pose proof (heap_chain_below _ _ _ _ H1) as B1.
  pose proof (heap_chain_below _ _ _ _ H2) as B2.
  pose proof (heap_chain_ref_chain _ _ _ _ (Hkeep _ _ H1)) as C1.
  pose proof (heap_chain_ref_chain _ _ _ _ (Hkeep _ _ H2)) as C2.
  assert (L1' : load d0 r1 = Some c1) by (rewrite Hframe by lia; exact L1).
  assert (L2' : load d0 r2 = Some c2) by (rewrite Hframe by lia; exact L2).
  assert (F1' : load d0 (cell_val c1) = Some f1)
    by (rewrite Hframe by lia; exact F1).
  assert (F2' : load d0 (cell_val c2) = Some f2)
    by (rewrite Hframe by lia; exact F2).
  assert (HTOP : TOP = 21010) by reflexivity.
  assert (Hrun : unify_run d0 (TOP - 2) (f1 =? f2) d0 TOP).
  { destruct (Z.eqb_spec f1 f2) as [E | E].
    - subst f2. eapply run_continue; [lia | | apply run_drained; lia].
      replace TOP with (TOP - 2 + 2) at 2 by lia.
      eapply (iter_args d0 (TOP - 2) a2 a1 r2 r1 c2 c1 f1); eauto.
      unfold arg_pairs. replace (Z.to_nat (arity f1)) with 0%nat
        by (specialize (Har eq_refl); lia).
      reflexivity.
    - replace TOP with (TOP - 2 + 2) at 2 by lia.
      apply run_failed; [lia |].
      eapply (iter_mismatch d0 (TOP - 2) a2 a1 r2 r1 c2 c1 f2 f1); eauto. }
  destruct (l3unify_complete a1 a2 s (f1 =? f2) d0 TOP)
    as (fuel & s' & Hu & Hd & Hu').
  - exact Hs.
  - exists d0, (TOP - 2). rewrite Hup. split; [exact Hpush | exact Hrun].
  - exists fuel, s'. rewrite Hd. auto.
Qed.

Lemma l3unify_compares_functors_witness :
  exists fuel s',
    L3.l3unify fuel 0 1 L3.atoms_state = Ret (0x100 =? 0x200, s') /\
    L3.up s' = TOP /\
    (forall p, p < TOP - 2 ->
       load (L3.data s') p = load (L3.data L3.atoms_state) p).
Proof.
  apply (l3unify_compares_functors 0 1 L3.atoms_state 0 1
           (mk_cell STR 11) (mk_cell STR 13) 0x100 0x200).
  - split; [split; [vm_compute; discriminate | compute_range] |
            vm_compute; reflexivity].
  - vm_compute. discriminate.
  - apply (heap_chain_end _ _ 0 (mk_cell STR 11));
      [vm_compute; reflexivity | vm_compute; reflexivity |].
    left. vm_compute. discriminate.
  - apply (heap_chain_end _ _ 1 (mk_cell STR 13));
      [vm_compute; reflexivity | vm_compute; reflexivity |].
    left. vm_compute. discriminate.
  - discriminate.
  - vm_compute. reflexivity.
  - vm_compute. reflexivity.
  - vm_compute. discriminate.
  - vm_compute. discriminate.
  - vm_compute. reflexivity.
  - vm_compute. reflexivity.
  - vm_compute. reflexivity.
  - vm_compute. reflexivity.
  - discriminate.
Defined.

(** *** What unification leaves alone *)

Section KeepsRegisters.

Import L3.

Lemma regs_ret {A : Type} (a : A) : keeps_registers (ret a).
Proof. intros s a' s' H. inversion H; subst. auto. Qed.

Lemma regs_bind {A B : Type} (m : Mach A) (k : A -> Mach B) :
  keeps_registers m -> (forall a, keeps_registers (k a)) ->
  keeps_registers (bind m k).
Proof.
  intros Hm Hk s b s' H. apply bind_Ret_inv in H as (a & s1 & H1 & H2).
  destruct (Hm _ _ _ H1) as [R1 L1]. destruct (Hk a _ _ _ H2) as [R2 L2].
  split; congruence.
Qed.

Lemma regs_gets {A : Type} (f : l3MachineState -> A) : keeps_registers (gets f).
Proof. intros s a s' H. inversion H; subst. auto. Qed.

Lemma regs_set_up u : keeps_registers (modify (set_up u)).
Proof. intros s a s' H. inversion H; subst. auto. Qed.

Lemma regs_rd a : keeps_registers (rd a).
Proof. intros s c s' H. apply rd_inv in H as [_ ->]. auto. Qed.

Lemma regs_wr a v : keeps_registers (wr a v).
Proof.
  intros s u s' H. apply wr_inv in H as (d' & Hst & ->).
  split; [reflexivity |]. apply (store_length _ _ _ _ Hst).
Qed.

Lemma regs_l3deref fuel a : keeps_registers (l3deref fuel a).
Proof.
  intros s r s' H. apply l3deref_sound in H as (_ & c & _ & ->). auto.
Qed.

Lemma regs_spin {A : Type} : keeps_registers (@spin l3MachineState A).
Proof. intros s a s' H. discriminate H. Qed.

Lemma regs_l3uPush v : keeps_registers (l3uPush v).
Proof.
  unfold l3uPush. apply regs_bind; [apply regs_gets |]. intros u.
  apply regs_bind; [apply regs_set_up |]. intros _. apply regs_wr.
Qed.

Lemma regs_l3uPop : keeps_registers l3uPop.
Proof.
  unfold l3uPop. apply regs_bind; [apply regs_gets |]. intros u.
  apply regs_bind; [apply regs_rd |]. intros v.
  apply regs_bind; [apply regs_set_up |]. intros _. apply regs_ret.
Qed.

Lemma regs_push_args k : forall i v1 v2, keeps_registers (push_args k i v1 v2).
Proof.
  induction k as [| k IH]; intros i v1 v2; cbn [push_args].
  - apply regs_ret.
  - apply regs_bind; [apply regs_l3uPush |]. intros _.
    apply regs_bind; [apply regs_l3uPush |]. intros _. apply IH.
Qed.

Lemma regs_unify_pair d1 t1 v1 d2 t2 v2 :
  keeps_registers (unify_pair d1 t1 v1 d2 t2 v2).
Proof.
  unfold unify_pair.
  destruct (negb (d1 =? d2)); [| apply regs_ret].
  destruct (t1 =? REF).
  { apply regs_bind; [apply regs_wr |]. intros _. apply regs_ret. }
  destruct (t2 =? REF).
  { apply regs_bind; [apply regs_wr |]. intros _. apply regs_ret. }
  apply regs_bind; [apply regs_rd |]. intros f1.
  apply regs_bind; [apply regs_rd |]. intros f2. cbv zeta.
  destruct (f1 =? f2); [| apply regs_ret].
  apply regs_bind; [apply regs_push_args |]. intros _. apply regs_ret.
Qed.

Lemma regs_l3unify_body fuel : keeps_registers (l3unify_body fuel).
Proof.
  unfold l3unify_body.
  apply regs_bind; [apply regs_l3uPop |]. intros a.
  apply regs_bind; [apply regs_l3deref |]. intros d1.
  apply regs_bind; [apply regs_gets |]. intros t1.
  apply regs_bind; [apply regs_gets |]. intros v1.
  apply regs_bind; [apply regs_l3uPop |]. intros b.
  apply regs_bind; [apply regs_l3deref |]. intros d2.
  apply regs_bind; [apply regs_gets |]. intros t2.
  apply regs_bind; [apply regs_gets |]. intros v2.
  apply regs_unify_pair.
Qed.

Lemma regs_l3unify_loop fuel n : forall fail,
  keeps_registers (l3unify_loop fuel n fail).
Proof.
  induction n as [| n IH]; intros fail; cbn [l3unify_loop];
    (apply regs_bind; [unfold l3uEmpty; apply regs_bind;
                         [apply regs_gets | intros u; apply regs_ret] |]);
    intros e; destruct (negb e && negb fail); try apply regs_ret.
  - apply regs_spin.
  - apply regs_bind; [apply regs_l3unify_body |]. intros f. apply IH.
Qed.

End KeepsRegisters.

(** [l3unify] binds and uses the PDL, and that is all: whenever it returns,
    [ip], [cp], [hp], [sp], [ep], [esp] and the write mode are what they
    were, and the data area has kept its size.  Unification allocates no
    heap cell. *)
Theorem l3unify_keeps_registers fuel a1 a2 s res s' :
  L3.l3unify fuel a1 a2 s = Ret (res, s') ->
  machine_registers s' = machine_registers s /\
  length (L3.data s') = length (L3.data s).
Proof.
  revert s res s'. change (keeps_registers (L3.l3unify fuel a1 a2)).
  unfold L3.l3unify.
  apply regs_bind; [apply regs_l3uPush |]. intros _.
  apply regs_bind; [apply regs_l3uPush |]. intros _.
  apply regs_bind; [apply regs_l3unify_loop |]. intros f. apply regs_ret.
Qed.

Lemma l3unify_keeps_registers_witness :
  machine_registers
    (L3.set_deref STR 2
       (L3.set_data [mk_cell STR 2; mk_cell STR 3; 0x100; 0x200; 1; 0]
          L3.two_atoms))
  = machine_registers L3.two_atoms /\
  length (L3.data
            (L3.set_deref STR 2
               (L3.set_data [mk_cell STR 2; mk_cell STR 3; 0x100; 0x200; 1; 0]
                  L3.two_atoms)))
  = length (L3.data L3.two_atoms).
Proof.
  apply (l3unify_keeps_registers 1 0 1 L3.two_atoms false). vm_compute.
  reflexivity.
Defined.

(** ** The L2 machine unifies as the L3 machine does *)

Section Agreement.

Lemma agree_ret {A : Type} (a : A) s m :
  same_store s m -> agree (ret a s) (ret a m).
Proof. intros H. split; [reflexivity | exact H]. Qed.

Lemma agree_bind {A B : Type} (m3 : L3.Mach A) (m2 : L2.Mach A)
    (k3 : A -> L3.Mach B) (k2 : A -> L2.Mach B) s m :
  agree (m3 s) (m2 m) ->
  (forall a s' m', same_store s' m' -> agree (k3 a s') (k2 a m')) ->
  agree (bind m3 k3 s) (bind m2 k2 m).
Proof.
  intros H Hk. unfold bind.
  destruct (m3 s) as [[a s'] | |], (m2 m) as [[b m'] | |]; cbn in H;
    try contradiction; try exact I.
  destruct H as [<- H]. apply Hk. exact H.
Qed.

Lemma agree_rd a s m : same_store s m -> agree (L3.rd a s) (L2.rd a m).
Proof.
  intros H. unfold L3.rd, L2.rd. rewrite <- (proj1 H).
  destruct (load (L3.data s) a); cbn; auto.
Qed.

Lemma agree_wr a v s m : same_store s m -> agree (L3.wr a v s) (L2.wr a v m).
Proof.
  intros [Hd Hu]. unfold L3.wr, L2.wr. rewrite <- Hd.
  destruct (store (L3.data s) a v); cbn; auto.
  split; [reflexivity |]. split; [reflexivity | exact Hu].
Qed.

Lemma agree_set_up u s m :
  same_store s m -> same_store (L3.set_up u s) (L2.set_up u m).
Proof. intros [Hd Hu]. split; [exact Hd | reflexivity]. Qed.

Lemma agree_push v s m :
  same_store s m -> agree (L3.l3uPush v s) (L2.l2jitUPush v m).
Proof.
  intros H. unfold L3.l3uPush, L2.l2jitUPush.
  apply agree_bind.
  - unfold gets. split; [exact (proj2 H) | exact H].
  - intros u s1 m1 H1. apply agree_bind.
    + unfold modify. split; [reflexivity | apply agree_set_up; exact H1].
    + intros _ s2 m2 H2. apply agree_wr. exact H2.
Qed.

Lemma agree_pop s m :
  same_store s m -> agree (L3.l3uPop s) (L2.l2jitUPop m).
Proof.
  intros H. unfold L3.l3uPop, L2.l2jitUPop.
  apply agree_bind.
  - unfold gets. split; [exact (proj2 H) | exact H].
  - intros u s1 m1 H1. apply agree_bind; [apply agree_rd; exact H1 |].
    intros v s2 m2 H2. apply agree_bind.
    + unfold modify. split; [reflexivity | apply agree_set_up; exact H2].
    + intros _ s3 m3 H3. apply agree_ret. exact H3.
Qed.

Lemma agree_empty s m :
  same_store s m -> agree (L3.l3uEmpty s) (L2.l2jitUEmpty m).
Proof.
  intros H. unfold L3.l3uEmpty, L2.l2jitUEmpty. apply agree_bind.
  - unfold gets. split; [exact (proj2 H) | exact H].
  - intros u s1 m1 H1. apply agree_ret. exact H1.
Qed.

Lemma agree_push_args k : forall i v1 v2 s m,
  same_store s m -> agree (L3.push_args k i v1 v2 s) (L2.push_args k i v1 v2 m).
Proof.
  induction k as [| k IH]; intros i v1 v2 s m H;
    cbn [L3.push_args L2.push_args].
  - apply agree_ret. exact H.
  - apply agree_bind; [apply agree_push; exact H |].
    intros _ s1 m1 H1. apply agree_bind; [apply agree_push; exact H1 |].
    intros _ s2 m2 H2. apply IH. exact H2.
Qed.

(** The dereference step of the loop body: the L3 machine takes tag and
    value from the pseudo-registers that [l3deref] has just set, the L2
    machine reads the cell at the returned address. *)
Lemma agree_deref {B : Type} fuel a (k3 : Z -> Z -> Z -> L3.Mach B)
    (k2 : Z -> Z -> Z -> L2.Mach B) s m :
  same_store s m ->
  (forall d t v s' m', same_store s' m' -> agree (k3 d t v s') (k2 d t v m')) ->
  agree
    (bind (L3.l3deref fuel a)
       (fun d => bind (gets L3.derefTag)
          (fun t => bind (gets L3.derefVal) (fun v => k3 d t v))) s)
    (bind (L2.l2jitderef fuel a)
       (fun d => bind (L2.rd d)
          (fun tmp => k2 d (cell_tag tmp) (cell_val tmp))) m).
Proof.
  intros H Hk. unfold bind at 1 4.
  destruct (L3.l3deref fuel a s) as [[r s'] | |] eqn:H3.
  - destruct (l3deref_sound _ _ _ _ _ H3) as (_ & c & Hc & ->).
    unfold L3.l3deref in H3. unfold L2.l2jitderef.
    rewrite <- (proj1 H).
    destruct (deref_walk fuel (L3.data s) a) as [[[r0 t] v] | |];
      try discriminate.
    inversion H3; subst r0. unfold bind, gets, L2.rd.
    rewrite <- (proj1 H), Hc. cbn [defined ret L3.derefTag L3.derefVal L3.set_deref].
    apply Hk. destruct H as [Hd Hu]. split; [exact Hd | exact Hu].
  - unfold L3.l3deref in H3. unfold L2.l2jitderef. rewrite <- (proj1 H).
    destruct (deref_walk fuel (L3.data s) a) as [[[r0 t] v] | |];
      try discriminate. exact I.
  - unfold L3.l3deref in H3. unfold L2.l2jitderef. rewrite <- (proj1 H).
    destruct (deref_walk fuel (L3.data s) a) as [[[r0 t] v] | |];
      try discriminate. exact I.
Qed.

Lemma agree_unify_pair d1 t1 v1 d2 t2 v2 s m :
  same_store s m ->
  agree (L3.unify_pair d1 t1 v1 d2 t2 v2 s)
    ((if negb (d1 =? d2) then
        if t1 =? REF then
          L2.wr d1 (mk_cell REF d2) ;; ret false
        else if t2 =? REF then
          L2.wr d2 (mk_cell REF d1) ;; ret false
        else
          f_n1 <- L2.rd v1 ;;
          f_n2 <- L2.rd v2 ;;
          let n1 := jbyte (Z.land f_n1 0xFF) in
          if f_n1 =? f_n2 then
            L2.push_args (Z.to_nat n1) 1 v1 v2 ;; ret false
          else ret true
      else ret false) m).
Proof.
  intros H. unfold L3.unify_pair.
  destruct (negb (d1 =? d2)); [| apply agree_ret; exact H].
  destruct (t1 =? REF).
  { apply agree_bind; [apply agree_wr; exact H |].
    intros _ s1 m1 H1. apply agree_ret. exact H1. }
  destruct (t2 =? REF).
  { apply agree_bind; [apply agree_wr; exact H |].
    intros _ s1 m1 H1. apply agree_ret. exact H1. }
  apply agree_bind; [apply agree_rd; exact H |].
  intros f1 s1 m1 H1. apply agree_bind; [apply agree_rd; exact H1 |].
  intros f2 s2 m2 H2. cbv zeta. destruct (f1 =? f2).
  - apply agree_bind; [apply agree_push_args; exact H2 |].
    intros _ s3 m3 H3. apply agree_ret. exact H3.
  - apply agree_ret. exact H2.
Qed.

Lemma agree_body fuel s m :
  same_store s m ->
  agree (L3.l3unify_body fuel s) (L2.l2jitunify_body fuel m).
Proof.
  intros H. unfold L3.l3unify_body, L2.l2jitunify_body.
  apply agree_bind; [apply agree_pop; exact H |].
  intros a s1 m1 H1.
  apply (agree_deref fuel a
           (fun d1 t1 v1 =>
              b <- L3.l3uPop ;;
              d2 <- L3.l3deref fuel b ;;
              t2 <- gets L3.derefTag ;;
              v2 <- gets L3.derefVal ;;
              L3.unify_pair d1 t1 v1 d2 t2 v2)
           (fun d1 t1 v1 =>
              b <- L2.l2jitUPop ;;
              d2 <- L2.l2jitderef fuel b ;;
              tmp2 <- L2.rd d2 ;;
              let t2 := cell_tag tmp2 in
              let v2 := cell_val tmp2 in
              if negb (d1 =? d2) then
                if t1 =? REF then
                  L2.wr d1 (mk_cell REF d2) ;; ret false
                else if t2 =? REF then
                  L2.wr d2 (mk_cell REF d1) ;; ret false
                else
                  f_n1 <- L2.rd v1 ;;
                  f_n2 <- L2.rd v2 ;;
                  let n1 := jbyte (Z.land f_n1 0xFF) in
                  if f_n1 =? f_n2 then
                    L2.push_args (Z.to_nat n1) 1 v1 v2 ;; ret false
                  else ret true
              else ret false)); [exact H1 |].
  intros d1 t1 v1 s2 m2 H2.
  apply agree_bind; [apply agree_pop; exact H2 |].
  intros b s3 m3 H3.
  apply (agree_deref fuel b
           (fun d2 t2 v2 => L3.unify_pair d1 t1 v1 d2 t2 v2)
           (fun d2 t2 v2 =>
              if negb (d1 =? d2) then
                if t1 =? REF then
                  L2.wr d1 (mk_cell REF d2) ;; ret false
                else if t2 =? REF then
                  L2.wr d2 (mk_cell REF d1) ;; ret false
                else
                  f_n1 <- L2.rd v1 ;;
                  f_n2 <- L2.rd v2 ;;
                  let n1 := jbyte (Z.land f_n1 0xFF) in
                  if f_n1 =? f_n2 then
                    L2.push_args (Z.to_nat n1) 1 v1 v2 ;; ret false
                  else ret true
              else ret false)); [exact H3 |].
  intros d2 t2 v2 s4 m4 H4. apply agree_unify_pair. exact H4.
Qed.

Lemma agree_loop fuel n : forall fail s m,
  same_store s m ->
  agree (L3.l3unify_loop fuel n fail s) (L2.l2jitunify_loop fuel n fail m).
Proof.
  induction n as [| n IH]; intros fail s m H;
    cbn [L3.l3unify_loop L2.l2jitunify_loop];
    (apply agree_bind; [apply agree_empty; exact H |]);
    intros e s1 m1 H1; destruct (negb e && negb fail);
    try (apply agree_ret; exact H1).
  - exact I.
  - apply agree_bind; [apply agree_body; exact H1 |].
    intros f s2 m2 H2. apply IH. exact H2.
Qed.

End Agreement.

(** On the same cells and with the same PDL pointer, [l2jitunify] and
    [l3unify] end the same way: both return the same answer and leave the
    same cells and the same PDL pointer, or both perform an access outside
    the data area, or neither is done within the fuel.  The L2 function
    reads tag and value of an endpoint from the cell itself, the L3
    function from the pseudo-registers that [l3deref] has set. *)
Theorem l2jitunify_agrees_with_l3unify fuel a1 a2 s m :
  same_store s m ->
  agree (L3.l3unify fuel a1 a2 s) (L2.l2jitunify fuel a1 a2 m).
Proof.
  intros H. unfold L3.l3unify, L2.l2jitunify.
  apply agree_bind; [apply agree_push; exact H |].
  intros _ s1 m1 H1. apply agree_bind; [apply agree_push; exact H1 |].
  intros _ s2 m2 H2. apply agree_bind; [apply agree_loop; exact H2 |].
  intros f s3 m3 H3. apply agree_ret. exact H3.
Qed.

Lemma l2jitunify_agrees_with_l3unify_witness :
  agree (L3.l3unify 1 0 1 L3.two_atoms) (L2.l2jitunify 1 0 1 L2.two_atoms).
Proof.
  apply (l2jitunify_agrees_with_l3unify 1 0 1 L3.two_atoms L2.two_atoms).
  split; reflexivity.
Defined.

(** ** The compile loop of the L2 machine *)




(** ** The unification stack of the L0 machine *)

Lemma l0_uPush_Ret v s st' :
  -1 <= L0.up s < 2147483647 ->
  store (L0.ustack s) (L0.up s + 1) v = Some st' ->
  L0.uPush v s = Ret (tt, L0.set_ustack st' (L0.set_up (L0.up s + 1) s)).
Proof.
  intros Hup Hst. unfold L0.uPush.
  rewrite add32_exact by (unfold jint_range; lia). rewrite Hst. reflexivity.
Qed.

Lemma l0_uPop_Ret s v :
  -1 <= L0.up s <= 2147483647 ->
  load (L0.ustack s) (L0.up s) = Some v ->
  L0.uPop s = Ret (v, L0.set_up (L0.up s - 1) s).
Proof.
  intros Hup Hl. unfold L0.uPop. rewrite Hl.
  rewrite add32_exact by (unfold jint_range; lia). reflexivity.
Qed.

(** The unification stack of the L0 machine is a stack: two pushes followed
    by two pops give the values back, last pushed first, and put [up] back
    where it was. *)
Theorem l0_ustack_is_lifo a b s :
  -1 <= L0.up s ->
  L0.up s + 2 < Z.of_nat (length (L0.ustack s)) ->
  Z.of_nat (length (L0.ustack s)) <= 2147483647 ->
  (L0.uPush a ;; L0.uPush b ;;
   x <- L0.uPop ;; y <- L0.uPop ;; ret (x, y)) s
  = Ret ((b, a),
         L0.set_ustack (<[Z.to_nat (L0.up s + 2) := b]>
                          (<[Z.to_nat (L0.up s + 1) := a]> (L0.ustack s))) s).
Proof.
  intros Hup Hroom Hlen.
  set (st1 := <[Z.to_nat (L0.up s + 1) := a]> (L0.ustack s)).
  set (st2 := <[Z.to_nat (L0.up s + 2) := b]> st1).
  assert (L1 : length st1 = length (L0.ustack s)) by apply length_insert.
  assert (S1 : store (L0.ustack s) (L0.up s + 1) a = Some st1)
    by (apply store_in_range; lia).
  assert (S2 : store st1 (L0.up s + 2) b = Some st2)
    by (apply store_in_range; rewrite L1; lia).
  rewrite (bind_Ret _ _ _ _ _ (l0_uPush_Ret a s st1 ltac:(lia) S1)).
  set (s1 := L0.set_ustack st1 (L0.set_up (L0.up s + 1) s)).
  assert (Hp2 : L0.uPush b s1
                = Ret (tt, L0.set_ustack st2 (L0.set_up (L0.up s + 2) s1))).
  { rewrite (l0_uPush_Ret b s1 st2); cbn [s1 L0.up L0.ustack L0.set_up L0.set_ustack].
    - replace (L0.up s + 1 + 1) with (L0.up s + 2) by lia. reflexivity.
    - lia.
    - replace (L0.up s + 1 + 1) with (L0.up s + 2) by lia. exact S2. }
  rewrite (bind_Ret _ _ _ _ _ Hp2).
  set (s2 := L0.set_ustack st2 (L0.set_up (L0.up s + 2) s1)).
  assert (Hq1 : L0.uPop s2 = Ret (b, L0.set_up (L0.up s + 1) s2)).
  { rewrite (l0_uPop_Ret s2 b); cbn [s2 s1 L0.up L0.ustack L0.set_up L0.set_ustack].
    - replace (L0.up s + 2 - 1) with (L0.up s + 1) by lia. reflexivity.
    - lia.
    - apply (load_store_eq _ _ _ _ S2). }
  rewrite (bind_Ret _ _ _ _ _ Hq1).
  set (s3 := L0.set_up (L0.up s + 1) s2).
  assert (Hq2 : L0.uPop s3 = Ret (a, L0.set_up (L0.up s) s3)).
  { rewrite (l0_uPop_Ret s3 a);
      cbn [s3 s2 s1 L0.up L0.ustack L0.set_up L0.set_ustack].
    - replace (L0.up s + 1 - 1) with (L0.up s) by lia. reflexivity.
    - lia.
    - rewrite (load_store_ne _ _ _ _ (L0.up s + 1) S2) by lia.
      apply (load_store_eq _ _ _ _ S1). }
  rewrite (bind_Ret _ _ _ _ _ Hq2).
  destruct s; reflexivity.
Qed.

Lemma l0_ustack_is_lifo_witness :
  (L0.uPush 7 ;; L0.uPush 9 ;;
   x <- L0.uPop ;; y <- L0.uPop ;; ret (x, y)) L0.small_state
  = Ret ((9, 7),
         L0.set_ustack (<[Z.to_nat (L0.up L0.small_state + 2) := 9]>
                          (<[Z.to_nat (L0.up L0.small_state + 1) := 7]>
                             (L0.ustack L0.small_state))) L0.small_state).
Proof.
  apply (l0_ustack_is_lifo 7 9 L0.small_state); vm_compute;
    try discriminate; reflexivity.
Defined.

(** The stack is an array of [USTACK_SIZE] cells of its own and is not
    checked either: a push onto the full stack writes after the array, and
    a pop from the empty stack reads in front of it. *)
Theorem l0_ustack_is_unchecked v s :
  Z.of_nat (length (L0.ustack s)) = L0.USTACK_SIZE ->
  L0.uPush v (L0.set_up (L0.USTACK_SIZE - 1) s) = Undef /\
  L0.uPop (L0.set_up (-1) s) = Undef.
Proof.
  intros Hlen. split.
  - unfold L0.uPush. cbn [L0.up L0.ustack L0.set_up].
    rewrite store_None; [reflexivity |]. right. rewrite Hlen. vm_compute.
    discriminate.
  - reflexivity.
Qed.

Lemma l0_ustack_is_unchecked_witness :
  L0.uPush 5 (L0.set_up (L0.USTACK_SIZE - 1)
                (L0.l0reset 0 [] (replicate 1000 0))) = Undef /\
  L0.uPop (L0.set_up (-1) (L0.l0reset 0 [] (replicate 1000 0))) = Undef.
Proof.
  apply (l0_ustack_is_unchecked 5 (L0.l0reset 0 [] (replicate 1000 0))).
  vm_compute. reflexivity.
Defined.

(** ** Nothing to run, on the L0 machine *)

(** [execute] on an empty code buffer returns true and changes nothing but
    [up], which it resets; the first call of the entry point, on no machine
    yet, leaves the machine that [l0reset] has just made. *)
Theorem l0_execute_empty_code fuel s ip0 heap0 ustack0 :
  L0.execute fuel [] s = Ret (true, L0.set_up (-1) s) /\
  L0.Java_execute fuel [] ip0 heap0 ustack0 None
  = Ret (true, L0.l0reset ip0 heap0 ustack0).
Proof.
  split.
  - unfold L0.execute, bind, gets, L0.uClear, modify.
    destruct fuel; cbn [L0.execute_loop L0.l_failed L0.l_ip negb andb length];
      destruct s; reflexivity.
  - unfold L0.Java_execute, L0.execute, bind, gets, L0.uClear, modify.
    destruct fuel; reflexivity.
Qed.

(** ** The L0 machine is the register fragment of the L3 machine *)

Lemma code_byte_jint code i x : code_byte code i = Some x -> add32 x 0 = x.
Proof.
  unfold code_byte. destruct (load code i) as [b |]; [| discriminate].
  intros H. inversion H. pose proof (jbyte_bounds b).
  rewrite add32_exact by (unfold jint_range; lia). lia.
Qed.

Ltac same_rd_wr Hc :=
  repeat first
    [ progress cbn [L0.heap L0.set_heap L0.set_deref L0.derefTag L0.derefVal
                    L3.data L3.set_data L3.set_deref L3.derefTag L3.derefVal
                    ret defined same_step]
    | rewrite Hc
    | match goal with
      | |- context [code_jint ?c ?a] => destruct (code_jint c a)
      | |- context [store ?d ?a ?v] => destruct (store d a v)
      | |- context [load ?d ?a] => destruct (load d a)
      | |- context [deref_walk ?f ?d ?a] =>
          destruct (deref_walk f d a) as [[[? ?] ?] | |]
      | |- context [if ?b then _ else _] => destruct b
      end ];
  try exact I;
  try (split; [repeat split; try (cbn; congruence)
              | first [reflexivity | exact Hc]]).

(** One instruction of the L0 machine and the same instruction of the L3
    machine in register mode, on the same cells and with locals that agree:
    the two decode steps end the same way, and when they return they leave
    the same cells and agreeing locals.  This holds for the five
    instructions that do not unify and for [UNIFY_VAL] in write mode; in
    read mode [UNIFY_VAL] unifies, over a stack of its own on the L0
    machine and over the PDL inside the data area on the L3 machine. *)
Theorem l0step_agrees_with_l3step fuel code0 code3 l0 l3 s0 s3 op x :
  code_byte code0 (L0.l_ip l0) = Some op ->
  code_byte code0 (add32 (L0.l_ip l0) 1) = Some x ->
  code_byte code3 (L3.l_ip l3) = Some op ->
  code_byte code3 (add32 (L3.l_ip l3) 1) = Some REG_ADDR ->
  code_byte code3 (add32 (L3.l_ip l3) 2) = Some x ->
  code_jint code0 (add32 (add32 (L0.l_ip l0) 1) 1)
    = code_jint code3 (L3.l_ip l3 + 3) ->
  op = PUT_STRUC \/ op = SET_VAR \/ op = SET_VAL \/ op = GET_STRUC \/
  op = UNIFY_VAR \/ (op = UNIFY_VAL /\ L0.l_writeMode l0 = true) ->
  same_locals l0 l3 -> same_cells s0 s3 ->
  same_step (L0.l0step fuel code0 l0 s0) (L3.l3step fuel code3 l3 s3).
Proof.
  intros Hop0 Hx0 Hop3 Hm3 Hx3 Hw Hcase (Hhp & Hsp & Hwm & Hf) Hc.
  pose proof (code_byte_jint _ _ _ Hx0) as Ex.
  rewrite (l3step_fetch _ _ _ _ _ Hop3).
  unfold L0.l0step. unfold bind at 1. rewrite Hop0. cbn [defined ret].
  unfold bind at 1. rewrite Hx0. cbn [defined ret].
  destruct l0 as [hp0 sp0 wm0 ip0 f0]. cbn [L0.l_hp L0.l_sp L0.l_writeMode
    L0.l_ip L0.l_failed] in *. subst hp0 sp0 wm0 f0.
  unfold same_cells in Hc.
  assert (Hop : forall (A : Type) (k : Z -> L3.Mach A),
            bind (L3.operand code3 l3) k s3 = k x s3).
  { intros A k. rewrite (bind_Ret _ _ _ _ _ (operand_Ret _ _ _ _ _ Hm3 Hx3)).
    change (REG_ADDR =? STACK_ADDR) with false. cbv iota. rewrite Ex.
    reflexivity. }
  destruct Hcase as [-> | [-> | [-> | [-> | [-> | [-> Hwrite]]]]]];
    cbn [Z.eqb Pos.eqb PUT_STRUC SET_VAR SET_VAL GET_STRUC UNIFY_VAR UNIFY_VAL].
  - unfold L3.do_PUT_STRUC. rewrite Hop. unfold L3.fetch_jint. rewrite <- Hw.
    unfold bind, L0.wr, L0.rd, L3.wr, L3.rd. same_rd_wr Hc.
  - unfold L3.do_SET_VAR. rewrite Hop.
    unfold bind, L0.wr, L0.rd, L3.wr, L3.rd. same_rd_wr Hc.
  - unfold L3.do_SET_VAL. rewrite Hop.
    unfold bind, L0.wr, L0.rd, L3.wr, L3.rd. same_rd_wr Hc.
  - unfold L3.do_GET_STRUC. rewrite Hop. unfold L3.fetch_jint. rewrite <- Hw.
    unfold bind, L0.wr, L0.rd, L3.wr, L3.rd, L0.deref, L3.l3deref, gets.
    same_rd_wr Hc.
  - unfold L3.do_UNIFY_VAR. rewrite Hop.
    unfold bind, L0.wr, L0.rd, L3.wr, L3.rd. same_rd_wr Hc.
  - unfold L3.do_UNIFY_VAL. rewrite Hop. cbn [L0.l_writeMode] in Hwrite.
    rewrite Hwrite. cbn [negb].
    unfold bind, L0.wr, L0.rd, L3.wr, L3.rd. same_rd_wr Hc.
Qed.

Lemma l0step_agrees_with_l3step_witness :
  same_step
    (L0.l0step 1 [GET_STRUC; 2; 0; 5; 0; 0] (L0.mkLocals 0 0 false 0 false)
       L0.small_state)
    (L3.l3step 1 [GET_STRUC; REG_ADDR; 2; 0; 5; 0; 0] L3.at_outer_frame
       L3.small_state).
Proof.
  apply (l0step_agrees_with_l3step 1 [GET_STRUC; 2; 0; 5; 0; 0]
           [GET_STRUC; REG_ADDR; 2; 0; 5; 0; 0]
           (L0.mkLocals 0 0 false 0 false) L3.at_outer_frame
           L0.small_state L3.small_state GET_STRUC 2); try reflexivity.
  - right. right. right. left. reflexivity.
  - repeat split.
Defined.

(** ** The unification of the L0 machine *)

Section L0InL3.

Lemma follows_ret {A : Type} (a : A) : follows (ret a) (ret a).
Proof.
  intros s0 s3 b s0' R H. inversion H; subst. exists s3.
  split; [reflexivity | exact R].
Qed.

Lemma follows_bind {A B : Type} (m0 : L0.Mach A) (m3 : L3.Mach A)
    (k0 : A -> L0.Mach B) (k3 : A -> L3.Mach B) :
  follows m0 m3 -> (forall a, follows (k0 a) (k3 a)) ->
  follows (bind m0 k0) (bind m3 k3).
Proof.
  intros Hm Hk s0 s3 b s0' R H.
  apply bind_Ret_inv in H as (a & s1 & H1 & H2).
  destruct (Hm _ _ _ _ R H1) as (s3a & H3 & R1).
  destruct (Hk a _ _ _ _ R1 H2) as (s3b & H4 & R2).
  exists s3b. split; [| exact R2]. rewrite (bind_Ret _ _ _ _ _ H3). exact H4.
Qed.

Lemma follows_rd a : follows (L0.rd a) (L3.rd a).
Proof.
  intros s0 s3 c s0' R H. unfold L0.rd in H.
  destruct (load (L0.heap s0) a) as [c0 |] eqn:Hc; [| discriminate].
  inversion H; subst. exists s3. split; [| exact R].
  apply rd_Ret. apply (proj1 R). exact Hc.
Qed.

Lemma follows_wr a v : follows (L0.wr a v) (L3.wr a v).
Proof.
  intros s0 s3 u s0' R H. unfold L0.wr in H.
  destruct (store (L0.heap s0) a v) as [h' |] eqn:Hst; [| discriminate].
  inversion H; subst. clear H.
  destruct R as (Hcells & Hlen & Hroom & Hup & Hup3 & Hstack).
  pose proof (store_inv _ _ _ _ Hst) as [Ha _].
  pose proof (store_length _ _ _ _ Hst) as Lh.
  assert (Hst3 : store (L3.data s3) a v
                 = Some (<[Z.to_nat a := v]> (L3.data s3)))
    by (apply store_in_range; lia).
  exists (L3.set_data (<[Z.to_nat a := v]> (L3.data s3)) s3).
  split; [apply wr_Ret; exact Hst3 |].
  unfold l0_in_l3. cbn [L0.heap L0.ustack L0.up L0.set_heap
                         L3.data L3.up L3.set_data].
  split; [| split; [| split; [| split; [| split]]]].
  - intros b c Hb. destruct (Z.eq_dec a b) as [<- | Hne].
    + rewrite (load_store_eq _ _ _ _ Hst) in Hb.
      rewrite (load_store_eq _ _ _ _ Hst3). exact Hb.
    + rewrite (load_store_ne _ _ _ _ _ Hst) in Hb by exact Hne.
      rewrite (load_store_ne _ _ _ _ _ Hst3) by exact Hne.
      apply Hcells. exact Hb.
  - rewrite length_insert. exact Hlen.
  - rewrite Lh. exact Hroom.
  - exact Hup.
  - exact Hup3.
  - intros i Hi. rewrite (load_store_ne _ _ _ _ _ Hst3) by lia.
    apply Hstack. exact Hi.
Qed.

Lemma follows_uPush v : follows (L0.uPush v) (L3.l3uPush v).
Proof.
  intros s0 s3 u s0' R H. unfold L0.uPush in H.
  destruct R as (Hcells & Hlen & Hroom & Hup & Hup3 & Hstack).
  assert (HTOP : TOP = 21010) by reflexivity.
  rewrite add32_exact in H by (unfold jint_range; lia).
  destruct (store (L0.ustack s0) (L0.up s0 + 1) v) as [st' |] eqn:Hst;
    [| discriminate].
  inversion H; subst. clear H.
  pose proof (store_inv _ _ _ _ Hst) as [Ha _].
  pose proof (store_length _ _ _ _ Hst) as Lst.
  assert (Hs3 : addressable s3)
    by (split; [lia | unfold jint_range; lia]).
  assert (Hst3 : store (L3.data s3) (L3.up s3 - 1) v
                 = Some (<[Z.to_nat (L3.up s3 - 1) := v]> (L3.data s3)))
    by (apply store_in_range; lia).
  exists (L3.set_data (<[Z.to_nat (L3.up s3 - 1) := v]> (L3.data s3))
            (L3.set_up (L3.up s3 - 1) s3)).
  split.
  { rewrite l3uPush_eq by exact Hs3. unfold pdl_push. rewrite Hst3.
    reflexivity. }
  unfold l0_in_l3. cbn [L0.heap L0.ustack L0.up L0.set_ustack L0.set_up
                         L3.data L3.up L3.set_data L3.set_up].
  split; [| split; [| split; [| split; [| split]]]].
  - intros b c Hb. pose proof (load_Some_range _ _ _ Hb).
    rewrite (load_store_ne _ _ _ _ _ Hst3) by lia. apply Hcells. exact Hb.
  - rewrite length_insert. exact Hlen.
  - rewrite Lst. exact Hroom.
  - rewrite Lst. lia.
  - lia.
  - intros i Hi. destruct (Z.eq_dec i (L0.up s0 + 1)) as [-> | Hne].
    + rewrite (load_store_eq _ _ _ _ Hst).
      replace (TOP - 1 - (L0.up s0 + 1)) with (L3.up s3 - 1) by lia.
      rewrite (load_store_eq _ _ _ _ Hst3). reflexivity.
    + rewrite (load_store_ne _ _ _ _ _ Hst) by lia.
      rewrite (load_store_ne _ _ _ _ _ Hst3) by lia.
      apply Hstack. lia.
Qed.

Lemma follows_uPop : follows L0.uPop L3.l3uPop.
Proof.
  intros s0 s3 v s0' R H. unfold L0.uPop in H.
  destruct R as (Hcells & Hlen & Hroom & Hup & Hup3 & Hstack).
  assert (HTOP : TOP = 21010) by reflexivity.
  destruct (load (L0.ustack s0) (L0.up s0)) as [v0 |] eqn:Hl; [| discriminate].
  pose proof (load_Some_range _ _ _ Hl) as Hr.
  rewrite add32_exact in H by (unfold jint_range; lia).
  inversion H; subst. clear H.
  exists (L3.set_up (L3.up s3 + 1) s3). split.
  { rewrite l3uPop_eq by lia. rewrite Hup3, <- Hstack by lia. rewrite Hl.
    rewrite <- Hup3. reflexivity. }
  unfold l0_in_l3. cbn [L0.heap L0.ustack L0.up L0.set_up
                         L3.data L3.up L3.set_up].
  split; [exact Hcells |]. split; [exact Hlen |]. split; [exact Hroom |].
  split; [lia |]. split; [lia |].
  intros i Hi. apply Hstack. lia.
Qed.

Lemma follows_uEmpty : follows L0.uEmpty L3.l3uEmpty.
Proof.
  intros s0 s3 e s0' R H. unfold L0.uEmpty, bind, gets, ret in H.
  inversion H; subst. clear H. exists s3. split; [| exact R].
  destruct R as (_ & _ & _ & Hup & Hup3 & _).
  unfold L3.l3uEmpty, bind, gets, ret. rewrite Hup3. do 2 f_equal.
  destruct (Z.eqb_spec (L0.up s0') (-1)), (Z.leb_spec TOP (TOP - 1 - L0.up s0'));
    try reflexivity; lia.
Qed.

Lemma deref_loop_follows fuel d0 d3 :
  (forall a c, load d0 a = Some c -> load d3 a = Some c) ->
  forall addr t v x,
    deref_loop fuel d0 addr t v = Ret x -> deref_loop fuel d3 addr t v = Ret x.
Proof.
  intros Hcells. induction fuel as [| fuel IH]; intros addr t v x H;
    cbn [deref_loop] in *; destruct (t =? REF); try discriminate; auto.
  destruct (load d0 v) as [tmp |] eqn:Hl; [| discriminate].
  rewrite (Hcells _ _ Hl). destruct (v =? cell_val tmp); auto.
Qed.

(** The dereference step of the loop body, with the reads of the two
    pseudo-registers that follow it. *)
Lemma follows_deref {B : Type} fuel a (k0 : Z -> Z -> Z -> L0.Mach B)
    (k3 : Z -> Z -> Z -> L3.Mach B) :
  (forall d t v, follows (k0 d t v) (k3 d t v)) ->
  follows
    (bind (L0.deref fuel a)
       (fun d => bind (gets L0.derefTag)
          (fun t => bind (gets L0.derefVal) (fun v => k0 d t v))))
    (bind (L3.l3deref fuel a)
       (fun d => bind (gets L3.derefTag)
          (fun t => bind (gets L3.derefVal) (fun v => k3 d t v)))).
Proof.
  intros Hk s0 s3 b s0' R H. unfold bind at 1 in H. unfold L0.deref in H.
  unfold bind at 1. unfold L3.l3deref.
  destruct (deref_walk fuel (L0.heap s0) a) as [[[r t] v] | |] eqn:Hw;
    try discriminate.
  assert (Hw3 : deref_walk fuel (L3.data s3) a = Ret (r, t, v)).
  { unfold deref_walk in *.
    destruct (load (L0.heap s0) a) as [tmp |] eqn:Hl; [| discriminate].
    rewrite (proj1 R _ _ Hl).
    apply (deref_loop_follows fuel _ _ (proj1 R) _ _ _ _ Hw). }
  rewrite Hw3. unfold bind at 1 2, gets in H. unfold bind at 1 2, gets.
  cbn [L0.derefTag L0.derefVal L0.set_deref] in H.
  cbn [L3.derefTag L3.derefVal L3.set_deref].
  apply (Hk r t v (L0.set_deref t v s0) (L3.set_deref t v s3) b s0');
    [| exact H].
  exact R.
Qed.

Lemma follows_push_args k : forall i v1 v2,
  follows (L0.push_args k i v1 v2) (L3.push_args k i v1 v2).
Proof.
  induction k as [| k IH]; intros i v1 v2; cbn [L0.push_args L3.push_args].
  - apply follows_ret.
  - apply follows_bind; [apply follows_uPush |]. intros _.
    apply follows_bind; [apply follows_uPush |]. intros _. apply IH.
Qed.

Lemma follows_unify_body fuel :
  follows (L0.unify_body fuel) (L3.l3unify_body fuel).
Proof.
  unfold L0.unify_body, L3.l3unify_body.
  apply follows_bind; [apply follows_uPop |]. intros a.
  apply (follows_deref fuel a
           (fun d1 t1 v1 =>
              b <- L0.uPop ;;
              d2 <- L0.deref fuel b ;;
              t2 <- gets L0.derefTag ;;
              v2 <- gets L0.derefVal ;;
              if negb (d1 =? d2) then
                if t1 =? REF then
                  L0.wr d1 (mk_cell REF d2) ;; ret false
                else if t2 =? REF then
                  L0.wr d2 (mk_cell REF d1) ;; ret false
                else
                  f_n1 <- L0.rd v1 ;;
                  f_n2 <- L0.rd v2 ;;
                  let n1 := jbyte (Z.land f_n1 0xFF) in
                  if f_n1 =? f_n2 then
                    L0.push_args (Z.to_nat n1) 1 v1 v2 ;; ret false
                  else ret true
              else ret false)
           (fun d1 t1 v1 =>
              b <- L3.l3uPop ;;
              d2 <- L3.l3deref fuel b ;;
              t2 <- gets L3.derefTag ;;
              v2 <- gets L3.derefVal ;;
              L3.unify_pair d1 t1 v1 d2 t2 v2)).
  intros d1 t1 v1.
  apply follows_bind; [apply follows_uPop |]. intros b.
  apply (follows_deref fuel b
           (fun d2 t2 v2 =>
              if negb (d1 =? d2) then
                if t1 =? REF then
                  L0.wr d1 (mk_cell REF d2) ;; ret false
                else if t2 =? REF then
                  L0.wr d2 (mk_cell REF d1) ;; ret false
                else
                  f_n1 <- L0.rd v1 ;;
                  f_n2 <- L0.rd v2 ;;
                  let n1 := jbyte (Z.land f_n1 0xFF) in
                  if f_n1 =? f_n2 then
                    L0.push_args (Z.to_nat n1) 1 v1 v2 ;; ret false
                  else ret true
              else ret false)
           (fun d2 t2 v2 => L3.unify_pair d1 t1 v1 d2 t2 v2)).
  intros d2 t2 v2. unfold L3.unify_pair.
  destruct (negb (d1 =? d2)); [| apply follows_ret].
  destruct (t1 =? REF).
  { apply follows_bind; [apply follows_wr |]. intros _. apply follows_ret. }
  destruct (t2 =? REF).
  { apply follows_bind; [apply follows_wr |]. intros _. apply follows_ret. }
  apply follows_bind; [apply follows_rd |]. intros f1.
  apply follows_bind; [apply follows_rd |]. intros f2. cbv zeta.
  destruct (f1 =? f2); [| apply follows_ret].
  apply follows_bind; [apply follows_push_args |]. intros _. apply follows_ret.
Qed.

Lemma follows_unify_loop fuel n : forall fail,
  follows (L0.unify_loop fuel n fail) (L3.l3unify_loop fuel n fail).
Proof.
  induction n as [| n IH]; intros fail;
    cbn [L0.unify_loop L3.l3unify_loop];
    (apply follows_bind; [apply follows_uEmpty |]);
    intros e; destruct (negb e && negb fail); try apply follows_ret.
  - intros s0 s3 a s0' _ H. discriminate H.
  - apply follows_bind; [apply follows_unify_body |]. intros f. apply IH.
Qed.

End L0InL3.

(** The [unify] of the L0 machine is the [l3unify] of the L3 machine.  When
    the heap of an L0 machine is the bottom of the data area of an L3
    machine and its unification stack is the PDL of that machine, every run
    of [unify] that returns is matched by a run of [l3unify] with the same
    fuel, on the same two addresses, that returns the same answer and
    leaves the two machines matching again: the same bindings in the heap
    and the same entries on the stack. *)
Theorem l0_unify_is_l3unify fuel a1 a2 s0 s3 res s0' :
  l0_in_l3 s0 s3 ->
  L0.unify fuel a1 a2 s0 = Ret (res, s0') ->
  exists s3',
    L3.l3unify fuel a1 a2 s3 = Ret (res, s3') /\ l0_in_l3 s0' s3'.
Proof.
  revert s0 s3 res s0'.
  change (follows (L0.unify fuel a1 a2) (L3.l3unify fuel a1 a2)).
  unfold L0.unify, L3.l3unify.
  apply follows_bind; [apply follows_uPush |]. intros _.
  apply follows_bind; [apply follows_uPush |]. intros _.
  apply follows_bind; [apply follows_unify_loop |]. intros f.
  apply follows_ret.
Qed.

Lemma l0_unify_is_l3unify_witness :
  exists s3',
    L3.l3unify 2 0 2 L3.wide_state = Ret (true, s3') /\
    l0_in_l3
      (L0.mkState 0 [mk_cell REF 1; mk_cell REF 2; mk_cell STR 3; 0x500] 4 4
         [0; 2; 0] (-1) false REF 1) s3'.
Proof.
  apply (l0_unify_is_l3unify 2 0 2 L0.small_state L3.wide_state true).
  - split; [| split; [| split; [| split; [| split]]]].
    + intros a c H. pose proof (load_Some_range _ _ _ H) as Hr.
      change (Z.of_nat (length (L0.heap L0.small_state))) with 4 in Hr.
      assert (Ha : a = 0 \/ a = 1 \/ a = 2 \/ a = 3) by lia.
      destruct Ha as [-> | [-> | [-> | ->]]];
        vm_compute in H; inversion H; subst c; vm_compute; reflexivity.
    + vm_compute. reflexivity.
    + vm_compute. discriminate.
    + compute_range.
    + reflexivity.
    + intros i Hi. change (L0.up L0.small_state) with (-1) in Hi. lia.
  - vm_compute. reflexivity.
Defined.

(** ** The decode loop of the L1 machine *)

Lemma l1step_fetch fuel code l s b x :
  code_byte code (L1.l_ip l) = Some b ->
  code_byte code (add32 (L1.l_ip l) 1) = Some x ->
  b < PUT_STRUC \/ PROCEED < b ->
  L1.l1step fuel code l s
  = Ret (L1.mkLocals (L1.l_hp l) (L1.l_sp l) (L1.l_writeMode l)
           (add32 (add32 (L1.l_ip l) 1) 1) (L1.l_failed l) (L1.l_complete l),
         s).
Proof.
  intros Hb Hx Hun. unfold L1.l1step.
  unfold bind at 1. rewrite Hb. cbn [defined ret].
  unfold bind at 1. rewrite Hx. cbn [defined ret].
  unfold PUT_STRUC, SET_VAR, SET_VAL, GET_STRUC, UNIFY_VAR, UNIFY_VAL,
    PUT_VAR, PUT_VAL, GET_VAR, GET_VAL, CALL, PROCEED in *.
  repeat match goal with
         | |- context [?u =? ?v] =>
             destruct (Z.eqb_spec u v) as [E | E]; [exfalso; lia | clear E]
         end.
  reflexivity.
Qed.

Lemma l1_execute_loop_done fuel n code l s :
  L1.l_failed l = true \/ L1.l_complete l = true \/
  Z.of_nat (length code) <= L1.l_ip l ->
  L1.execute_loop fuel n code l s = Ret (l, s).
Proof.
  intros H. destruct n; cbn [L1.execute_loop];
    destruct (L1.l_failed l), (L1.l_complete l); cbn [negb andb];
    try reflexivity;
    destruct (Z.ltb_spec (L1.l_ip l) (Z.of_nat (length code)));
    try reflexivity; destruct H as [? | [? | ?]]; try discriminate; lia.
Qed.

Lemma l1_execute_loop_step fuel n code l s :
  L1.l_failed l = false -> L1.l_complete l = false ->
  L1.l_ip l < Z.of_nat (length code) ->
  L1.execute_loop fuel (S n) code l s
  = bind (L1.l1step fuel code l) (L1.execute_loop fuel n code) s.
Proof.
  intros Hf Hc Hip. cbn [L1.execute_loop]. rewrite Hf, Hc.
  destruct (Z.ltb_spec (L1.l_ip l) (Z.of_nat (length code)));
    [reflexivity | lia].
Qed.

Lemma code_byte_range code i b :
  code_byte code i = Some b -> 0 <= i < Z.of_nat (length code).
Proof.
  unfold code_byte. destruct (load code i) as [c |] eqn:Hc; [| discriminate].
  intros _. apply (load_Some_range _ _ _ Hc).
Qed.

(** The decode [switch] of the L1 machine has no [default] either: a byte
    that is none of its twelve opcodes is skipped together with the byte
    after it, and nothing else happens.  When the two bytes are the last of
    the buffer, [execute] returns true, having changed nothing but [up]. *)
Theorem l1_execute_skips_unknown_opcode fuel code offset s b x :
  code_byte code offset = Some b ->
  code_byte code (offset + 1) = Some x ->
  b < PUT_STRUC \/ PROCEED < b ->
  Z.of_nat (length code) = offset + 2 ->
  offset + 2 <= 2147483647 ->
  L1.execute (S fuel) code offset s = Ret (true, L1.set_up (-1) s).
Proof.
  intros Hb Hx Hun Hlen Hmax.
  pose proof (code_byte_range _ _ _ Hb) as Hr.
  set (l0 := L1.mkLocals (L1.hp s) (L1.sp s) (L1.writeMode s) offset false false).
  assert (E1 : add32 offset 1 = offset + 1)
    by (apply add32_exact; unfold jint_range; lia).
  assert (E2 : add32 (offset + 1) 1 = offset + 2).
  { rewrite add32_exact by (unfold jint_range; lia). lia. }
  assert (Hstep : L1.l1step (S fuel) code l0 (L1.set_up (-1) s)
                  = Ret (L1.mkLocals (L1.hp s) (L1.sp s) (L1.writeMode s)
                           (offset + 2) false false, L1.set_up (-1) s)).
  { rewrite (l1step_fetch (S fuel) code l0 _ b x); cbn [l0 L1.l_ip];
      [| exact Hb | rewrite E1; exact Hx | exact Hun].
    cbn [L1.l_hp L1.l_sp L1.l_writeMode L1.l_failed L1.l_complete].
    rewrite E1, E2. reflexivity. }
  unfold L1.execute, bind at 1, gets.
  unfold bind at 1, L1.l1uClear, modify. fold l0.
  unfold bind at 1.
  rewrite l1_execute_loop_step by (cbn [l0 L1.l_failed L1.l_complete L1.l_ip];
                                   first [reflexivity | lia]).
  rewrite (bind_Ret _ _ _ _ _ Hstep).
  rewrite l1_execute_loop_done by (right; right; cbn [L1.l_ip]; lia).
  destruct s; reflexivity.
Qed.

Lemma l1_execute_skips_unknown_opcode_witness :
  L1.execute 1 [0x0d; 0x00] 0 L1.small_state
  = Ret (true, L1.set_up (-1) L1.small_state).
Proof.
  apply (l1_execute_skips_unknown_opcode 0 [0x0d; 0x00] 0 L1.small_state
           0x0d 0x00); try reflexivity.
  - right. vm_compute. reflexivity.
  - vm_compute. discriminate.
Defined.

(** A [CALL] on the L1 machine jumps and keeps no continuation, and
    [PROCEED] sets the [complete] flag, which ends the decode loop: a call
    of a linked predicate whose body is [PROCEED] makes [execute] return
    true at once, with nothing but [up] changed, and the bytes after the
    [CALL] are not decoded.  ([PROCEED], as every instruction of this
    machine, is fetched together with the byte after it.) *)
Theorem l1_CALL_does_not_return fuel code offset s p y :
  code_byte code offset = Some CALL ->
  code_jint code (offset + 1) = Some p ->
  p <> -1 ->
  code_byte code p = Some PROCEED ->
  code_byte code (add32 p 1) = Some y ->
  offset + 2 <= 2147483647 ->
  L1.execute (S (S fuel)) code offset s = Ret (true, L1.set_up (-1) s).
Proof.
  intros Hop Hw Hp Hpr Hy Hmax.
  pose proof (code_byte_range _ _ _ Hop) as Hr.
  pose proof (code_byte_range _ _ _ Hpr) as Hrp.
  assert (Hx : exists x, code_byte code (offset + 1) = Some x).
  { unfold code_jint in Hw. unfold code_byte.
    destruct (load code (offset + 1)) as [b0 |]; [eauto | discriminate]. }
  destruct Hx as [x Hx].
  set (l0 := L1.mkLocals (L1.hp s) (L1.sp s) (L1.writeMode s) offset false false).
  set (l1 := L1.mkLocals (L1.hp s) (L1.sp s) (L1.writeMode s) p false false).
  set (l2 := L1.mkLocals (L1.hp s) (L1.sp s) (L1.writeMode s)
               (add32 (add32 p 1) 1) false true).
  assert (E1 : add32 offset 1 = offset + 1)
    by (apply add32_exact; unfold jint_range; lia).
  assert (E2 : add32 (offset + 1) 1 = offset + 2).
  { rewrite add32_exact by (unfold jint_range; lia). lia. }
  assert (Hstep1 : L1.l1step (S (S fuel)) code l0 (L1.set_up (-1) s)
                   = Ret (l1, L1.set_up (-1) s)).
  { unfold L1.l1step. cbn [l0 L1.l_ip L1.l_hp L1.l_sp L1.l_writeMode
                              L1.l_failed L1.l_complete].
    unfold bind at 1. rewrite Hop. cbn [defined ret].
    unfold bind at 1. rewrite E1, Hx. cbn [defined ret].
    cbn [Z.eqb Pos.eqb CALL PUT_STRUC SET_VAR SET_VAL GET_STRUC UNIFY_VAR
           UNIFY_VAL PUT_VAR PUT_VAL GET_VAR GET_VAL].
    rewrite E2. replace (offset + 2 - 1) with (offset + 1) by lia.
    unfold bind. rewrite Hw. cbn [defined ret].
    destruct (Z.eqb_spec p (-1)); [contradiction | reflexivity]. }
  assert (Hstep2 : L1.l1step (S (S fuel)) code l1 (L1.set_up (-1) s)
                   = Ret (l2, L1.set_up (-1) s)).
  { unfold L1.l1step. cbn [l1 L1.l_ip L1.l_hp L1.l_sp L1.l_writeMode
                              L1.l_failed L1.l_complete].
    unfold bind at 1. rewrite Hpr. cbn [defined ret].
    unfold bind at 1. rewrite Hy. cbn [defined ret]. reflexivity. }
  unfold L1.execute, bind at 1, gets.
  unfold bind at 1, L1.l1uClear, modify. fold l0.
  unfold bind at 1.
  rewrite l1_execute_loop_step by (cbn [l0 L1.l_failed L1.l_complete L1.l_ip];
                                   first [reflexivity | lia]).
  rewrite (bind_Ret _ _ _ _ _ Hstep1).
  rewrite l1_execute_loop_step by (cbn [l1 L1.l_failed L1.l_complete L1.l_ip];
                                   first [reflexivity | lia]).
  rewrite (bind_Ret _ _ _ _ _ Hstep2).
  rewrite l1_execute_loop_done by (right; left; reflexivity).
  destruct s; reflexivity.
Qed.

Lemma l1_CALL_does_not_return_witness :
  L1.execute 2 [CALL; 0x06; 0x00; 0x00; 0x00; 0xFF; PROCEED; 0x00] 0
    L1.small_state
  = Ret (true, L1.set_up (-1) L1.small_state).
Proof.
  apply (l1_CALL_does_not_return 0
           [CALL; 0x06; 0x00; 0x00; 0x00; 0xFF; PROCEED; 0x00] 0
           L1.small_state 6 0); try reflexivity.
  - discriminate.
  - vm_compute. discriminate.
Defined.

(** ** The L1 machine is the register fragment of the L3 machine with
       argument registers *)

Lemma code_byte_jint1 code i x : code_byte code i = Some x -> add32 x 0 = x.
Proof.
  unfold code_byte. destruct (load code i) as [b |]; [| discriminate].
  intros H. inversion H. pose proof (jbyte_bounds b).
  rewrite add32_exact by (unfold jint_range; lia). lia.
Qed.

Ltac same_rd_wr1 Hc :=
  repeat first
    [ progress cbn [L1.heap L1.set_heap L1.set_deref L1.derefTag L1.derefVal
                    L3.data L3.set_data L3.set_deref L3.derefTag L3.derefVal
                    ret defined same_step1]
    | rewrite Hc
    | match goal with
      | |- context [code_jint ?c ?a] => destruct (code_jint c a)
      | |- context [code_byte ?c ?a] => destruct (code_byte c a)
      | |- context [store ?d ?a ?v] => destruct (store d a v)
      | |- context [load ?d ?a] => destruct (load d a)
      | |- context [deref_walk ?f ?d ?a] =>
          destruct (deref_walk f d a) as [[[? ?] ?] | |]
      | |- context [if ?b then _ else _] => destruct b
      end ];
  try exact I;
  try (split; [repeat split; try (cbn; congruence)
              | split; first [reflexivity | exact Hc]]).

(** One instruction of the L1 machine and the same instruction of the L3
    machine in register mode, on the same cells and with locals that agree:
    the two decode steps end the same way, and when they return they leave
    the same cells and agreeing locals, and the L1 machine has not touched
    its [complete] flag.  This holds for the nine instructions that neither
    unify nor transfer control (for [UNIFY_VAL], in write mode). *)
Theorem l1step_agrees_with_l3step fuel code1 code3 l1 l3 s1 s3 op x :
  code_byte code1 (L1.l_ip l1) = Some op ->
  code_byte code1 (add32 (L1.l_ip l1) 1) = Some x ->
  code_byte code3 (L3.l_ip l3) = Some op ->
  code_byte code3 (add32 (L3.l_ip l3) 1) = Some REG_ADDR ->
  code_byte code3 (add32 (L3.l_ip l3) 2) = Some x ->
  code_jint code1 (add32 (add32 (L1.l_ip l1) 1) 1)
    = code_jint code3 (L3.l_ip l3 + 3) ->
  code_byte code1 (add32 (add32 (L1.l_ip l1) 1) 1)
    = code_byte code3 (add32 (L3.l_ip l3) 3) ->
  op = PUT_STRUC \/ op = SET_VAR \/ op = SET_VAL \/ op = GET_STRUC \/
  op = UNIFY_VAR \/ (op = UNIFY_VAL /\ L1.l_writeMode l1 = true) \/
  op = PUT_VAR \/ op = PUT_VAL \/ op = GET_VAR ->
  same_locals1 l1 l3 -> same_cells1 s1 s3 ->
  same_step1 (L1.l_complete l1)
    (L1.l1step fuel code1 l1 s1) (L3.l3step fuel code3 l3 s3).
Proof.
  intros Hop1 Hx1 Hop3 Hm3 Hx3 Hw Ha Hcase (Hhp & Hsp & Hwm & Hf) Hc.
  pose proof (code_byte_jint1 _ _ _ Hx1) as Ex.
  rewrite (l3step_fetch _ _ _ _ _ Hop3).
  unfold L1.l1step. unfold bind at 1. rewrite Hop1. cbn [defined ret].
  unfold bind at 1. rewrite Hx1. cbn [defined ret].
  destruct l1 as [hp1 sp1 wm1 ip1 f1 c1]. cbn [L1.l_hp L1.l_sp L1.l_writeMode
    L1.l_ip L1.l_failed L1.l_complete] in *. subst hp1 sp1 wm1 f1.
  unfold same_cells1 in Hc.
  assert (Hop : forall (A : Type) (k : Z -> L3.Mach A),
            bind (L3.operand code3 l3) k s3 = k x s3).
  { intros A k. rewrite (bind_Ret _ _ _ _ _ (operand_Ret _ _ _ _ _ Hm3 Hx3)).
    change (REG_ADDR =? STACK_ADDR) with false. cbv iota. rewrite Ex.
    reflexivity. }
  destruct Hcase
    as [-> | [-> | [-> | [-> | [-> | [[-> Hwrite] | [-> | [-> | ->]]]]]]]];
    cbn [Z.eqb Pos.eqb PUT_STRUC SET_VAR SET_VAL GET_STRUC UNIFY_VAR UNIFY_VAL
           PUT_VAR PUT_VAL GET_VAR].
  - unfold L3.do_PUT_STRUC. rewrite Hop. unfold L3.fetch_jint. rewrite <- Hw.
    unfold bind, L1.wr, L1.rd, L3.wr, L3.rd. same_rd_wr1 Hc.
  - unfold L3.do_SET_VAR. rewrite Hop.
    unfold bind, L1.wr, L1.rd, L3.wr, L3.rd. same_rd_wr1 Hc.
  - unfold L3.do_SET_VAL. rewrite Hop.
    unfold bind, L1.wr, L1.rd, L3.wr, L3.rd. same_rd_wr1 Hc.
  - unfold L3.do_GET_STRUC. rewrite Hop. unfold L3.fetch_jint. rewrite <- Hw.
    unfold bind, L1.wr, L1.rd, L3.wr, L3.rd, L1.l1deref, L3.l3deref, gets.
    same_rd_wr1 Hc.
  - unfold L3.do_UNIFY_VAR. rewrite Hop.
    unfold bind, L1.wr, L1.rd, L3.wr, L3.rd. same_rd_wr1 Hc.
  - unfold L3.do_UNIFY_VAL. rewrite Hop. rewrite Hwrite. cbn [negb].
    unfold bind, L1.wr, L1.rd, L3.wr, L3.rd. same_rd_wr1 Hc.
  - unfold L3.do_PUT_VAR. rewrite Hop. unfold L3.fetch. rewrite <- Ha.
    unfold bind, L1.wr, L1.rd, L3.wr, L3.rd. same_rd_wr1 Hc.
  - unfold L3.do_PUT_VAL. rewrite Hop. unfold L3.fetch. rewrite <- Ha.
    unfold bind, L1.wr, L1.rd, L3.wr, L3.rd. same_rd_wr1 Hc.
  - unfold L3.do_GET_VAR. rewrite Hop. unfold L3.fetch. rewrite <- Ha.
    unfold bind, L1.wr, L1.rd, L3.wr, L3.rd. same_rd_wr1 Hc.
Qed.

Lemma l1step_agrees_with_l3step_witness :
  same_step1 (L1.l_complete (L1.mkLocals 0 0 false 0 false false))
    (L1.l1step 1 [PUT_VAL; 2; 1] (L1.mkLocals 0 0 false 0 false false)
       L1.small_state)
    (L3.l3step 1 [PUT_VAL; REG_ADDR; 2; 1] L3.at_outer_frame L3.small_state).
Proof.
  apply (l1step_agrees_with_l3step 1 [PUT_VAL; 2; 1] [PUT_VAL; REG_ADDR; 2; 1]
           (L1.mkLocals 0 0 false 0 false false) L3.at_outer_frame
           L1.small_state L3.small_state PUT_VAL 2); try reflexivity.
  - do 7 right. left. reflexivity.
  - repeat split.
Defined.

(** ** A stack slot, written by the program and read by the inspector *)

Lemma ALLOCATE_step fuel code l s n d1 d2 d3 :
  code_byte code (L3.l_ip l) = Some ALLOCATE ->
  code_byte code (add32 (L3.l_ip l) 1) = Some n ->
  store (L3.data s) (L3.l_esp l) (L3.l_ep l) = Some d1 ->
  store d1 (add32 (L3.l_esp l) 1) (L3.l_cp l) = Some d2 ->
  store d2 (add32 (L3.l_esp l) 2) n = Some d3 ->
  L3.l3step fuel code l s
  = Ret (L3.set_l_ip (add32 (L3.l_ip l) 2)
           (L3.set_l_env (L3.l_esp l) (add32 (add32 (L3.l_esp l) n) 3) l),
         L3.set_data d3 s).
Proof.
  intros Hop Hn S1 S2 S3.
  rewrite (l3step_ALLOCATE _ _ _ _ Hop). unfold L3.do_ALLOCATE, L3.fetch.
  rewrite Hn. unfold defined. unfold bind at 1. cbn [ret].
  rewrite (bind_Ret _ _ _ _ _ (wr_Ret s _ _ _ S1)).
  rewrite (bind_Ret _ _ _ _ _ (wr_Ret (L3.set_data d1 s) _ _ _ S2)).
  rewrite (bind_Ret _ _ _ _ _
             (wr_Ret (L3.set_data d2 (L3.set_data d1 s)) _ _ _ S3)).
  reflexivity.
Qed.

(** The program [ALLOCATE n; SET_VAR Yk] opens an environment frame and
    makes a new variable in its stack slot [k].  [execute] returns true and
    writes the new frame pointers back to the machine, and the inspection
    call [derefStack k] then finds the variable: it returns the heap
    address the variable was made at and publishes a REF to itself.  The
    slot address [k + ep + 3] of the instruction operand and that of
    [derefStack] are the same. *)
Theorem stack_slot_seen_by_derefStack fuel s n k :
  0 <= n < 128 -> 0 <= k < 128 ->
  Z.of_nat (length (L3.data s)) <= 16777216 ->
  0 <= L3.esp s -> L3.esp s + 3 + k < Z.of_nat (length (L3.data s)) ->
  0 <= L3.hp s < Z.of_nat (length (L3.data s)) ->
  exists s',
    L3.execute (S (S fuel)) [ALLOCATE; n; SET_VAR; STACK_ADDR; k] 0 s
    = Ret (true, s') /\
    L3.ep s' = L3.esp s /\
    L3.esp s' = L3.esp s + n + 3 /\
    L3.hp s' = L3.hp s + 1 /\
    forall m,
      L3.derefStack (S m) k s' = Ret (L3.hp s, L3.set_deref REF (L3.hp s) s').
Proof.
  intros Hn Hk Hlen Hesp0 Hslot Hhp.
  set (code := [ALLOCATE; n; SET_VAR; STACK_ADDR; k]).
  set (esp := L3.esp s) in *. set (hp := L3.hp s) in *.
  set (l0 := L3.entry_locals code 0 s).
  set (s0 := L3.set_up TOP s).
  assert (Bn : code_byte code 1 = Some n)
    by (unfold code_byte; change (load code 1) with (Some n); cbv beta iota;
        rewrite jbyte_small by lia; reflexivity).
  assert (Bk : code_byte code 4 = Some k)
    by (unfold code_byte; change (load code 4) with (Some k); cbv beta iota;
        rewrite jbyte_small by lia; reflexivity).
  assert (E1 : add32 esp 1 = esp + 1)
    by (apply add32_exact; unfold jint_range; lia).
  assert (E2 : add32 esp 2 = esp + 2)
    by (apply add32_exact; unfold jint_range; lia).
  assert (E3 : add32 (add32 esp n) 3 = esp + n + 3).
  { rewrite (add32_exact esp n) by (unfold jint_range; lia).
    apply add32_exact. unfold jint_range. lia. }
  assert (E4 : add32 k (add32 esp 3) = k + esp + 3).
  { rewrite (add32_exact esp 3) by (unfold jint_range; lia).
    rewrite add32_exact by (unfold jint_range; lia). lia. }
  assert (E5 : add32 (add32 k esp) 3 = k + esp + 3).
  { rewrite (add32_exact k esp) by (unfold jint_range; lia).
    apply add32_exact. unfold jint_range. lia. }
  (* ALLOCATE *)
  destruct (store (L3.data s) esp (L3.ep s)) as [d1 |] eqn:S1;
    [| rewrite store_in_range in S1 by lia; discriminate].
  pose proof (store_length _ _ _ _ S1) as L1.
  destruct (store d1 (esp + 1) (Z.of_nat (length code))) as [d2 |] eqn:S2;
    [| rewrite store_in_range in S2 by lia; discriminate].
  pose proof (store_length _ _ _ _ S2) as L2.
  destruct (store d2 (esp + 2) n) as [d3 |] eqn:S3;
    [| rewrite store_in_range in S3 by lia; discriminate].
  pose proof (store_length _ _ _ _ S3) as L3'.
  set (l1 := L3.set_l_ip (add32 (L3.l_ip l0) 2)
               (L3.set_l_env esp (esp + n + 3) l0)).
  set (s1 := L3.set_data d3 s0).
  assert (Hstep1 : L3.l3step (S (S fuel)) code l0 s0 = Ret (l1, s1)).
  { rewrite (ALLOCATE_step (S (S fuel)) code l0 s0 n d1 d2 d3);
      cbn [l0 s0 L3.entry_locals L3.l_ip L3.l_esp L3.l_ep L3.l_cp L3.data
             L3.set_up]; fold esp;
      rewrite ?E1, ?E2, ?E3; first [reflexivity | assumption]. }
  (* SET_VAR *)
  destruct (store d3 hp (mk_cell REF hp)) as [d4 |] eqn:S4;
    [| rewrite store_in_range in S4 by lia; discriminate].
  pose proof (store_length _ _ _ _ S4) as L4.
  destruct (store d4 (k + esp + 3) (mk_cell REF hp)) as [d5 |] eqn:S5;
    [| rewrite store_in_range in S5 by lia; discriminate].
  set (l2 := L3.set_l_ip (add32 (L3.l_ip l1) 3) (L3.set_l_hp (hp + 1) l1)).
  set (s2 := L3.set_data d5 s1).
  assert (Hstep2 : L3.l3step (S (S fuel)) code l1 s1 = Ret (l2, s2)).
  { assert (HM : code_byte code (add32 (L3.l_ip l1) 1) = Some STACK_ADDR)
      by reflexivity.
    assert (HL : Z.of_nat (length (L3.data s1)) <= 16777216)
      by (cbn [s1 L3.data L3.set_data]; lia).
    assert (S5' : store d4 (add32 k (add32 esp 3)) (mk_cell REF hp) = Some d5)
      by (rewrite E4; exact S5).
    exact (SET_VAR_step (S (S fuel)) code l1 s1 STACK_ADDR k HM Bk HL d4 d5
             eq_refl S4 S5'). }
  assert (Lslot : load d5 (k + esp + 3) = Some (mk_cell REF hp))
    by apply (load_store_eq _ _ _ _ S5).
  assert (Lhp : load d5 hp = Some (mk_cell REF hp)).
  { destruct (Z.eq_dec (k + esp + 3) hp) as [E | E];
      [rewrite <- E at 1; exact Lslot |].
    rewrite (load_store_ne _ _ _ _ hp S5) by exact E.
    apply (load_store_eq _ _ _ _ S4). }
  exists (L3.preserve l2 s2). split.
  { apply (execute_reaches (S (S fuel)) code 0 s 2 l2 s2).
    - eapply L3.reaches_step; [reflexivity | reflexivity | exact Hstep1 |].
      eapply L3.reaches_step; [reflexivity | reflexivity | exact Hstep2 |].
      apply L3.reaches_here.
    - right. apply Z.leb_le. reflexivity.
    - lia. }
  split; [reflexivity |]. split; [reflexivity |]. split; [reflexivity |].
  intros m. unfold L3.derefStack, bind, gets.
  cbn [L3.ep L3.preserve l2 l1 L3.l_ep L3.set_l_ip L3.set_l_hp L3.set_l_env].
  rewrite E5. unfold L3.l3deref.
  cbn [L3.data L3.preserve s2 s1 L3.set_data].
  rewrite (deref_walk_variable d5 (k + esp + 3) hp m) by (auto; lia).
  reflexivity.
Qed.

Lemma stack_slot_seen_by_derefStack_witness :
  exists s',
    L3.execute 2 [ALLOCATE; 1; SET_VAR; STACK_ADDR; 0] 0 L3.two_atoms
    = Ret (true, s') /\
    L3.ep s' = L3.esp L3.two_atoms /\
    L3.esp s' = L3.esp L3.two_atoms + 1 + 3 /\
    L3.hp s' = L3.hp L3.two_atoms + 1 /\
    forall m,
      L3.derefStack (S m) 0 s'
      = Ret (L3.hp L3.two_atoms, L3.set_deref REF (L3.hp L3.two_atoms) s').
Proof.
  apply (stack_slot_seen_by_derefStack 0 L3.two_atoms 1 0);
    vm_compute;
    first [discriminate | reflexivity
          | split; first [discriminate | reflexivity]].
Defined.
